(** * The data integration and caching layer of the injury-info service

    A shallow embedding of [DataIntegrationService] (the query facade with
    its five-minute cache, the merge and fallback logic) and of
    [GoogleSheetsConnector.readSheet] / [searchSheet], followed by the
    properties of that code.

    Conventions of the embedding.
    - JavaScript strings are [string]s whose characters stand for the code
      units below 256; [toLowerCase], [trim] and the character classes of
      the regular expressions are those of JavaScript on that range.
    - An object literal used as a dictionary is an association list in
      insertion order, read through [JsObject.get], which also answers for
      the property names every object inherits from [Object.prototype].
    - The [Map] behind the cache is a [gmap] from keys to entries.
    - Asynchronous methods are computations over the service state; the
      providers, the clock and [Math.random] are oracles of the
      environment, and every provider call is appended to a log.
    - The promises joined by [Promise.all] start at the same instant, each
      on a clock of its own, and the join settles with the last of them.
    - A Number read by [parseInt] is an integer rounded to a double. *)

From Stdlib Require Import ZArith Ascii String List Lia Bool.
From Stdlib Require Import DecimalString DecimalNat DecimalN DecimalFacts.
From stdpp Require Import base option list strings gmap.

Local Open Scope string_scope.
Local Open Scope Z_scope.
Local Open Scope list_scope.

(** ** JavaScript string primitives *)

Module JsString.

(** The code units with a lowercase form: A to Z, and U+00C0 to U+00DE
    without the multiplication sign U+00D7. *)
Definition isUpper (c : ascii) : bool :=
  let n := nat_of_ascii c in
  ((65 <=? n)%nat && (n <=? 90)%nat)
  || ((192 <=? n)%nat && (n <=? 222)%nat && negb (n =? 215)%nat).

Definition isLower (c : ascii) : bool :=
  let n := nat_of_ascii c in (97 <=? n)%nat && (n <=? 122)%nat.

Definition isDigit (c : ascii) : bool :=
  let n := nat_of_ascii c in (48 <=? n)%nat && (n <=? 57)%nat.

(** The class [[a-z0-9]]. *)
Definition isSlugChar (c : ascii) : bool := isLower c || isDigit c.

Definition lowerChar (c : ascii) : ascii :=
  if isUpper c then ascii_of_nat (nat_of_ascii c + 32) else c.

(** [s.toLowerCase()] *)
Fixpoint toLowerCase (s : string) : string :=
  match s with
  | EmptyString => EmptyString
  | String c r => String (lowerChar c) (toLowerCase r)
  end.

Fixpoint startsWith (p s : string) : bool :=
  match p, s with
  | EmptyString, _ => true
  | String _ _, EmptyString => false
  | String a p', String b s' => Ascii.eqb a b && startsWith p' s'
  end.

(** [s.includes(q)] *)
Fixpoint includes (s q : string) : bool :=
  startsWith q s ||
  match s with
  | EmptyString => false
  | String _ r => includes r q
  end.

(** A string is truthy when it is not empty. *)
Definition truthy (s : string) : bool :=
  match s with EmptyString => false | _ => true end.

(** [a || b] on strings. *)
Definition orElse (a b : string) : string := if truthy a then a else b.

Definition hyphen : ascii := "-"%char.

(** [s.replace(/[^a-z0-9]+/g, '-')]: every maximal run of characters
    outside [[a-z0-9]] becomes one hyphen.  [inRun] tells that the
    previous character belonged to a run already replaced. *)
Fixpoint replaceRuns (inRun : bool) (s : string) : string :=
  match s with
  | EmptyString => EmptyString
  | String c r =>
      if isSlugChar c then String c (replaceRuns false r)
      else if inRun then replaceRuns true r
      else String hyphen (replaceRuns true r)
  end.

(** [s.replace(/(^-|-$)/g, '')]: scanning from the left, a hyphen is
    dropped when it stands at the start of the input ([^-]) or right
    before its end ([-$]). *)
Fixpoint stripEnds (atStart : bool) (s : string) : string :=
  match s with
  | EmptyString => EmptyString
  | String c r =>
      if Ascii.eqb c hyphen && (atStart || negb (truthy r))
      then stripEnds false r
      else String c (stripEnds false r)
  end.

(** White space and line terminators: U+0009 to U+000D, the space and
    the no-break space U+00A0. *)
Definition isSpace (c : ascii) : bool :=
  let n := nat_of_ascii c in
  ((9 <=? n)%nat && (n <=? 13)%nat) || (n =? 32)%nat || (n =? 160)%nat.

Fixpoint trimStart (s : string) : string :=
  match s with
  | String c r => if isSpace c then trimStart r else s
  | EmptyString => EmptyString
  end.

Fixpoint trimEnd (s : string) : string :=
  match s with
  | EmptyString => EmptyString
  | String c r =>
      match trimEnd r with
      | EmptyString => if isSpace c then EmptyString else String c EmptyString
      | r' => String c r'
      end
  end.

(** [s.trim()] *)
Definition trim (s : string) : string := trimEnd (trimStart s).

(** [s.split(/[,;|]/)] *)
Definition isListSep (c : ascii) : bool :=
  Ascii.eqb c ","%char || Ascii.eqb c ";"%char || Ascii.eqb c "|"%char.

Fixpoint splitOn (sep : ascii -> bool) (s : string) : list string :=
  match s with
  | EmptyString => [EmptyString]
  | String c r =>
      if sep c then EmptyString :: splitOn sep r
      else match splitOn sep r with
           | [] => [String c EmptyString]
           | w :: ws => String c w :: ws
           end
  end.

(** [s.substring(0, n)] *)
Fixpoint substring0 (n : nat) (s : string) : string :=
  match n, s with
  | O, _ => EmptyString
  | S _, EmptyString => EmptyString
  | S n', String c r => String c (substring0 n' r)
  end.

End JsString.

Import JsString.

(** ** Helper methods of the service *)

(** [createSlug(text)] *)
Definition createSlug (text : string) : string :=
  stripEnds true (replaceRuns false (toLowerCase text)).

(** [parseList(text)] *)
Definition parseList (text : string) : list string :=
  if truthy text
  then List.filter truthy (List.map trim (splitOn isListSep text))
  else [].

(** *** The slug as the specification words it

    The words of a text are its maximal runs of characters of
    [[a-z0-9]]; the slug joins the words of the lowercased title with
    single hyphens. *)

Fixpoint slugWordsAux (cur : string) (s : string) : list string :=
  match s with
  | EmptyString => if truthy cur then [cur] else []
  | String c r =>
      if isSlugChar c then slugWordsAux (cur +:+ String c EmptyString) r
      else if truthy cur then cur :: slugWordsAux EmptyString r
      else slugWordsAux EmptyString r
  end.

Definition slugWords (s : string) : list string := slugWordsAux EmptyString s.

Fixpoint joinHyphen (ws : list string) : string :=
  match ws with
  | [] => EmptyString
  | [w] => w
  | w :: ws' => w +:+ String hyphen (joinHyphen ws')
  end.

Definition specSlug (title : string) : string :=
  joinHyphen (slugWords (toLowerCase title)).

(** The shape of a slug: characters of [[a-z0-9]], and hyphens that stand
    alone between two of them. [afterChar] tells that the previous
    character was of [[a-z0-9]]. *)
Fixpoint validSlugFrom (afterChar : bool) (s : string) : bool :=
  match s with
  | EmptyString => afterChar
  | String c r =>
      if isSlugChar c then validSlugFrom true r
      else if Ascii.eqb c hyphen then afterChar && validSlugFrom false r
      else false
  end.

Definition validSlug (s : string) : bool :=
  match s with
  | EmptyString => true
  | _ => validSlugFrom false s
  end.

Fixpoint allSlugChars (s : string) : bool :=
  match s with
  | EmptyString => true
  | String c r => isSlugChar c && allSlugChars r
  end.

(** ** Object literals used as dictionaries *)

Module JsObject.

(** The property names every object literal inherits from
    [Object.prototype]; reading any of them on [{}] yields a function
    (or, for [__proto__], the prototype object), never [undefined]. *)
Definition prototypeNames : list string :=
  [ "constructor"; "__defineGetter__"; "__defineSetter__"; "hasOwnProperty";
    "__lookupGetter__"; "__lookupSetter__"; "isPrototypeOf";
    "propertyIsEnumerable"; "toString"; "valueOf"; "__proto__";
    "toLocaleString" ].

Definition inherited (k : string) : bool :=
  existsb (String.eqb k) prototypeNames.

Inductive Lookup (V : Type) : Type :=
| Own (v : V)
| Inherited
| Undefined.
Arguments Own {V} v.
Arguments Inherited {V}.
Arguments Undefined {V}.

Section Properties.
Context {V : Type}.

(** Own properties, in insertion order. *)
Fixpoint own (o : list (string * V)) (k : string) : option V :=
  match o with
  | [] => None
  | (k', v) :: r => if String.eqb k k' then Some v else own r k
  end.

(** [o[k]] *)
Definition get (o : list (string * V)) (k : string) : Lookup V :=
  match own o k with
  | Some v => Own v
  | None => if inherited k then Inherited else Undefined
  end.

(** [o[k] = v] for a key that defines an own property: an existing
    property keeps its place, a new one goes last. *)
Fixpoint put (o : list (string * V)) (k : string) (v : V) : list (string * V) :=
  match o with
  | [] => [(k, v)]
  | (k', v') :: r =>
      if String.eqb k k' then (k', v) :: r else (k', v') :: put r k v
  end.

(** [Object.values(o)]: the own values in insertion order, which is the
    order JavaScript gives when no key is an array index. *)
Definition values (o : list (string * V)) : list V := List.map snd o.
End Properties.

(** [o[k] = v] where [v] is a string: the assignment to [__proto__] is
    ignored by the setter every object inherits. *)
Definition assignString (o : list (string * string)) (k v : string)
  : list (string * string) :=
  if String.eqb k "__proto__" then o else put o k v.

End JsObject.

(** ** Outcomes of calls *)

Inductive Outcome (A : Type) : Type :=
| Returns (a : A)
| Throws (error : string).
Arguments Returns {A} a.
Arguments Throws {A} error.

(** ** The data model *)

(** An [id] is a string for provider records and a number for the fallback
    articles. *)
Inductive Id : Type :=
| IdStr (s : string)
| IdNum (n : Z).

Module Content.
Record t : Type := {
  overview : string;
  symptoms : list string;
  causes : list string;
  treatments : list string;
  legalOptions : list string;
  settlements : string
}.
End Content.

Module Article.
Record t : Type := {
  id : Id;
  title : string;
  description : string;
  slug : string;
  category : string;
  date : option string;
  content : Content.t;
  source : string
}.
End Article.

Module LawFirm.
Record t : Type := {
  id : string;
  name : option string;
  location : string;
  phone : option string;
  website : option string;
  specialties : list string;
  experience : option string;
  successRate : option string;
  notableSettlements : list string;
  source : string
}.
End LawFirm.

(** A settlement record has no [id]; every field but [source] may be
    absent ([None] stands for [undefined]). *)
Module Settlement.
Record t : Type := {
  condition : option string;
  state : option string;
  settlementRange : option string;
  averageSettlement : option string;
  totalCases : option string;
  year : option string;
  source : string
}.
End Settlement.

(** What [getSettlementData] hands out: a settlement record, or, when the
    lookup in the table of defaults hits a name inherited from
    [Object.prototype], that inherited member. *)
Inductive SettlementItem : Type :=
| SRecord (r : Settlement.t)
| SInherited (name : string).

Module SearchResult.
Record t : Type := {
  condition : string;
  articles : list Article.t;
  lawFirms : list LawFirm.t;
  settlements : list SettlementItem;
  summary : string
}.
End SearchResult.

(** A row of a sheet: the object [readSheet] builds from the header row. *)
Definition Row : Type := list (string * string).

(** *** What the HubSpot connector returns (the fields the service reads) *)

Module Disease.
Record t : Type := {
  id : string;
  name : string;
  category : string;
  description : string;
  lastUpdated : option string;
  symptoms : list string;
  causes : list string
}.
End Disease.

Module HubSpotFirm.
Record t : Type := {
  id : string;
  name : option string;
  location : string;
  phone : option string;
  website : option string;
  specialties : list string;
  experience : option string;
  successRate : option string;
  notableSettlements : list string
}.
End HubSpotFirm.

(** [HubSpotInjuryInfoConnector.getSettlementData] resolves with one plain
    object [{ min, max, stateMultiplier, severityMultipliers }] (or with
    [{ min, max }] from its table of default ranges), never with an
    array. [None] stands for [NaN] or an absent field. *)
Module HubSpotRanges.
Record t : Type := {
  min : option Z;
  max : option Z;
  stateMultiplier : option string;
  severityMultipliers : option string
}.
End HubSpotRanges.

(** ** The cache, the world and the monad of the service *)

Inductive CacheData : Type :=
| DArticles (l : list Article.t)
| DFirms (l : list LawFirm.t)
| DSettlements (l : list SettlementItem)
| DSearch (r : SearchResult.t).

Record CacheEntry : Type := {
  data : CacheData;
  timestamp : Z
}.

Inductive ProviderCall : Type :=
| ReadSheetCall (sheetName : string)
| SearchDiseasesCall (query : string) (category : option string) (limit : Z)
| FindLawFirmsCall (specialty : string) (location : option string) (limit : Z)
| GetSettlementDataCall (condition : string) (state : option string).

(** The environment: what the two providers answer to a call and how long
    that call takes, what [Math.random()] and [new Date().toISOString()]
    render, and which of two promises joined by [Promise.all] settles
    first. The calls are numbered as a run makes them, by the length of the
    log at the time of the call. *)
Record Env : Type := {
  sheetsRequest : nat -> string -> Outcome (option (list (list string)));
  hubspotSearchDiseases : nat -> string -> Z -> Outcome (list Disease.t);
  hubspotFindLawFirms :
    nat -> string -> option string -> Z -> Outcome (list HubSpotFirm.t);
  hubspotGetSettlementData :
    nat -> string -> option string -> Outcome HubSpotRanges.t;
  latency : nat -> Z;
  random : nat -> string;
  toISOString : Z -> string;
  secondSettlesFirst : nat -> bool
}.

(** The service object ([googleSheets], [hubspot], [cache]) together with
    the clock, the log of provider calls and the number of random draws. *)
Record State : Type := {
  googleSheets : bool;
  hubspot : bool;
  cache : gmap string CacheEntry;
  clock : Z;
  calls : list ProviderCall;
  draws : nat
}.

Definition withCache (c : gmap string CacheEntry) (s : State) : State :=
  {| googleSheets := googleSheets s; hubspot := hubspot s; cache := c;
     clock := clock s; calls := calls s; draws := draws s |}.

Definition withClock (t : Z) (s : State) : State :=
  {| googleSheets := googleSheets s; hubspot := hubspot s; cache := cache s;
     clock := t; calls := calls s; draws := draws s |}.

(** [this.cacheTimeout = 5 * 60 * 1000] *)
Definition cacheTimeout : Z := 5 * 60 * 1000.

Definition M (A : Type) : Type := State -> Outcome A * State.

Definition ret {A} (a : A) : M A := fun s => (Returns a, s).

Definition throw {A} (e : string) : M A := fun s => (Throws e, s).

Definition bind {A B} (m : M A) (k : A -> M B) : M B :=
  fun s =>
    match m s with
    | (Returns a, s') => k a s'
    | (Throws e, s') => (Throws e, s')
    end.

(** [try { body } catch (error) { handler }]: what [body] did to the state
    before it threw stays done. *)
Definition tryCatch {A} (body : M A) (handler : string -> M A) : M A :=
  fun s =>
    match body s with
    | (Returns a, s') => (Returns a, s')
    | (Throws e, s') => handler e s'
    end.

Notation "x <- m ;; k" := (bind m (fun x => k))
  (at level 100, m at next level, right associativity).

Fixpoint mapM {A B} (f : A -> M B) (l : list A) : M (list B) :=
  match l with
  | [] => ret []
  | x :: r => y <- f x ;; ys <- mapM f r ;; ret (y :: ys)
  end.

Fixpoint foldM {A B} (f : B -> A -> M B) (acc : B) (l : list A) : M B :=
  match l with
  | [] => ret acc
  | x :: r => acc' <- f acc x ;; foldM f acc' r
  end.

(** [array.filter(callback)] for a callback that may throw. *)
Fixpoint filterOutcome {A} (f : A -> Outcome bool) (l : list A)
  : Outcome (list A) :=
  match l with
  | [] => Returns []
  | x :: r =>
      match f x with
      | Throws e => Throws e
      | Returns b =>
          match filterOutcome f r with
          | Throws e => Throws e
          | Returns r' => Returns (if b then x :: r' else r')
          end
      end
  end.

Definition lift {A} (o : Outcome A) : M A := fun s => (o, s).

(** [Promise.all] keeps one slot per promise and fills the slot of a
    promise when that promise settles; it resolves with the slots in the
    order of the promises. *)
Definition settle {A} (slots : list (option A)) (done : nat * A)
  : list (option A) :=
  <[ fst done := Some (snd done) ]> slots.

Definition joinSlots {A} (n : nat) (settled : list (nat * A)) : list (option A) :=
  fold_left settle settled (replicate n None).

(** ** The pure helpers of the service *)

(** [mergeArticles(sheetsArticles, hubspotArticles)]: the filter callback
    with its [seen] set. *)
Fixpoint filterUnseen (seen : gset string) (merged : list Article.t)
  : list Article.t :=
  match merged with
  | [] => []
  | article :: rest =>
      let key := toLowerCase (Article.title article) in
      if decide (key ∈ seen) then filterUnseen seen rest
      else article :: filterUnseen ({[ key ]} ∪ seen) rest
  end.

Definition mergeArticles (sheetsArticles hubspotArticles : list Article.t)
  : list Article.t :=
  let merged := sheetsArticles ++ hubspotArticles in
  filterUnseen ∅ merged.

(** A value interpolated into a template literal: [undefined] prints as
    the word. *)
Definition interpolate (v : option string) : string :=
  match v with Some s => s | None => "undefined" end.

(** An argument that defaults to [null] interpolated into a cache key. *)
Definition interpolateNull (v : option string) : string :=
  match v with Some s => s | None => "null" end.

Definition truthyField (v : option string) : bool :=
  match v with Some s => truthy s | None => false end.

(** [`${item.condition}_${item.state || 'all'}`] *)
Definition groupKey (item : Settlement.t) : string :=
  interpolate (Settlement.condition item) +:+ "_" +:+
  (if truthyField (Settlement.state item)
   then interpolate (Settlement.state item) else "all").

(** The body of [merged.forEach]: [grouped[key]] is created when it reads
    as falsy, and the item is pushed onto it; a key that names an
    inherited member reads as truthy and has no [push]. *)
Definition groupStep (grouped : list (string * list Settlement.t))
    (item : Settlement.t) : Outcome (list (string * list Settlement.t)) :=
  let key := groupKey item in
  match JsObject.get grouped key with
  | JsObject.Undefined => Returns (JsObject.put grouped key [item])
  | JsObject.Own group => Returns (JsObject.put grouped key (group ++ [item]))
  | JsObject.Inherited => Throws "TypeError: grouped[key].push is not a function"
  end.

Fixpoint groupAll (grouped : list (string * list Settlement.t))
    (merged : list Settlement.t) : Outcome (list (string * list Settlement.t)) :=
  match merged with
  | [] => Returns grouped
  | item :: rest =>
      match groupStep grouped item with
      | Returns grouped' => groupAll grouped' rest
      | Throws e => Throws e
      end
  end.

(** [(best, current) => (current.settlementRange && !best.settlementRange)
    ? current : best] *)
Definition moreComplete (best current : Settlement.t) : Settlement.t :=
  if truthyField (Settlement.settlementRange current)
     && negb (truthyField (Settlement.settlementRange best))
  then current else best.

(** [group.reduce(callback)] without an initial value. *)
Definition reduceGroup (group : list Settlement.t) : Outcome Settlement.t :=
  match group with
  | [] => Throws "TypeError: Reduce of empty array with no initial value"
  | first :: rest => Returns (fold_left moreComplete rest first)
  end.

Fixpoint mapOutcome {A B} (f : A -> Outcome B) (l : list A) : Outcome (list B) :=
  match l with
  | [] => Returns []
  | x :: r =>
      match f x with
      | Throws e => Throws e
      | Returns y =>
          match mapOutcome f r with
          | Throws e => Throws e
          | Returns ys => Returns (y :: ys)
          end
      end
  end.

(** [mergeSettlementData(sheetsData, hubspotData)] *)
Definition mergeSettlementData (sheetsData hubspotData : list Settlement.t)
  : Outcome (list Settlement.t) :=
  let merged := sheetsData ++ hubspotData in
  match groupAll [] merged with
  | Throws e => Throws e
  | Returns grouped => mapOutcome reduceGroup (JsObject.values grouped)
  end.

Definition fallbackRecord (condition range average cases : string)
  : Settlement.t :=
  {| Settlement.condition := Some condition;
     Settlement.state := None;
     Settlement.settlementRange := Some range;
     Settlement.averageSettlement := Some average;
     Settlement.totalCases := Some cases;
     Settlement.year := Some "2024";
     Settlement.source := "fallback" |}.

(** The table [defaults] of [getDefaultSettlementData]. *)
Definition defaults : list (string * Settlement.t) :=
  [ ("mesothelioma",
     fallbackRecord "Mesothelioma" "$1.2 million to $2.4 million"
                    "$1.8 million" "Thousands");
    ("lung cancer",
     fallbackRecord "Lung Cancer" "$500,000 to $1.5 million"
                    "$1 million" "Hundreds");
    ("ovarian cancer",
     fallbackRecord "Ovarian Cancer" "$100,000 to $500,000"
                    "$300,000" "Thousands");
    ("non-hodgkin lymphoma",
     fallbackRecord "Non-Hodgkin Lymphoma" "$50,000 to $250,000"
                    "$150,000" "Hundreds") ].

(** [getDefaultSettlementData(condition)]: [defaults[key] || { ... }],
    where an inherited member is truthy and is returned as it is. *)
Definition getDefaultSettlementData (condition : string) : list SettlementItem :=
  [ match JsObject.get defaults (toLowerCase condition) with
    | JsObject.Own record => SRecord record
    | JsObject.Inherited => SInherited (toLowerCase condition)
    | JsObject.Undefined =>
        SRecord (fallbackRecord condition "Varies by case"
                                "Contact attorney for estimate" "Varies")
    end ].

Definition fallbackFirm (id name location phone website : string)
    (specialties : list string) (experience successRate : string)
    (notableSettlements : list string) : LawFirm.t :=
  {| LawFirm.id := id;
     LawFirm.name := Some name;
     LawFirm.location := location;
     LawFirm.phone := Some phone;
     LawFirm.website := Some website;
     LawFirm.specialties := specialties;
     LawFirm.experience := Some experience;
     LawFirm.successRate := Some successRate;
     LawFirm.notableSettlements := notableSettlements;
     LawFirm.source := "fallback" |}.

(** [getFallbackLawFirms()] *)
Definition getFallbackLawFirms : list LawFirm.t :=
  [ fallbackFirm "fallback_firm_1" "Saddle Rock Legal Group" "Nationwide"
      "(800) 123-4567" "https://legalinjuryadvocates.com"
      [ "Mesothelioma"; "Asbestos"; "Product Liability" ] "20+ years" "95%"
      [ "$2.4M mesothelioma settlement"; "$1.8M asbestos case" ];
    fallbackFirm "fallback_firm_2" "National Injury Law Center"
      "California, Texas, Florida" "(800) 987-6543"
      "https://nationalinjury.com"
      [ "Roundup"; "Talcum Powder"; "Medical Devices" ] "15+ years" "90%"
      [ "$250K Roundup settlement"; "$500K talc case" ];
    fallbackFirm "fallback_firm_3" "Veterans Legal Services" "Nationwide"
      "(800) 555-0123" "https://veteranslegal.org"
      [ "3M Earplugs"; "Military Injuries"; "VA Benefits" ] "25+ years" "88%"
      [ "$100K earplug case"; "$75K tinnitus claim" ] ].

(** [getFallbackArticles()]; [now] is what [new Date().toISOString()]
    yields when the list is built. *)
Definition getFallbackArticles (now : string) : list Article.t :=
  [
    {| Article.id := IdNum 1;
       Article.title := "Mesothelioma and Asbestos Exposure";
       Article.description :=
         "Comprehensive guide to mesothelioma, its causes, symptoms, and legal options for victims of asbestos exposure.";
       Article.slug := "mesothelioma-asbestos-exposure";
       Article.category := "medical";
       Article.date := Some now;
       Article.content :=
         {| Content.overview :=
              "Mesothelioma is a rare and aggressive cancer that develops in the lining of the lungs, abdomen, or heart. It is primarily caused by exposure to asbestos, a naturally occurring mineral that was widely used in construction, manufacturing, and other industries until the late 1970s.";
            Content.symptoms :=
              [ "Chest pain and shortness of breath";
                "Persistent cough and fatigue";
                "Weight loss and loss of appetite";
                "Fluid buildup around the lungs";
                "Abdominal pain and swelling (for peritoneal mesothelioma)" ];
            Content.causes :=
              [ "Asbestos exposure in the workplace";
                "Secondary exposure through family members";
                "Environmental exposure near asbestos mines or factories";
                "Exposure during home renovations or demolition" ];
            Content.treatments :=
              [ "Surgery to remove tumors";
                "Chemotherapy and radiation therapy";
                "Immunotherapy and targeted therapy";
                "Palliative care for symptom management" ];
            Content.legalOptions :=
              [ "Personal injury lawsuits against asbestos manufacturers";
                "Workers' compensation claims";
                "Asbestos trust fund claims";
                "Wrongful death lawsuits for family members" ];
            Content.settlements :=
              "Mesothelioma settlements typically range from $1.2 million to $2.4 million, with some cases reaching $10 million or more. Factors affecting settlement amounts include the severity of the disease, age of the victim, exposure history, and jurisdiction." |};
       Article.source := "fallback" |};
    {| Article.id := IdNum 2;
       Article.title := "Roundup Weedkiller Cancer Lawsuits";
       Article.description :=
         "Information about Roundup lawsuits alleging the weedkiller causes non-Hodgkin lymphoma and other cancers.";
       Article.slug := "roundup-weedkiller-cancer-lawsuits";
       Article.category := "legal";
       Article.date := Some now;
       Article.content :=
         {| Content.overview :=
              "Roundup is a popular weedkiller manufactured by Monsanto (now owned by Bayer). The active ingredient, glyphosate, has been linked to non-Hodgkin lymphoma and other cancers in numerous studies and lawsuits.";
            Content.symptoms :=
              [ "Swollen lymph nodes in neck, armpits, or groin";
                "Unexplained weight loss and fatigue";
                "Night sweats and fever";
                "Chest pain and shortness of breath";
                "Abdominal pain and swelling" ];
            Content.causes :=
              [ "Direct exposure to Roundup during application";
                "Exposure to glyphosate in food and water";
                "Occupational exposure in agriculture and landscaping";
                "Residential use in gardens and lawns" ];
            Content.treatments :=
              [ "Chemotherapy and radiation therapy";
                "Immunotherapy and targeted therapy";
                "Stem cell transplantation";
                "Clinical trials for new treatments" ];
            Content.legalOptions :=
              [ "Product liability lawsuits against Bayer/Monsanto";
                "Class action lawsuits";
                "Wrongful death claims";
                "Settlement fund claims" ];
            Content.settlements :=
              "Bayer has agreed to pay $10.9 billion to settle approximately 100,000 Roundup lawsuits. Individual settlements typically range from $5,000 to $250,000, depending on the severity of the cancer and exposure history." |};
       Article.source := "fallback" |};
    {| Article.id := IdNum 3;
       Article.title := "3M Combat Arms Earplug Litigation";
       Article.description :=
         "Details about the 3M earplug lawsuits alleging defective military earplugs caused hearing loss and tinnitus.";
       Article.slug := "3m-combat-arms-earplug-litigation";
       Article.category := "legal";
       Article.date := Some now;
       Article.content :=
         {| Content.overview :=
              "3M Combat Arms earplugs were issued to military personnel between 2003 and 2015. Veterans allege the earplugs were defective and failed to protect their hearing, leading to hearing loss and tinnitus.";
            Content.symptoms :=
              [ "Hearing loss in one or both ears";
                "Ringing or buzzing in the ears (tinnitus)";
                "Difficulty understanding speech";
                "Sensitivity to loud noises";
                "Balance problems and dizziness" ];
            Content.causes :=
              [ "Defective design of the earplugs";
                "Failure to properly seal the ear canal";
                "Inadequate noise reduction";
                "Manufacturing defects" ];
            Content.treatments :=
              [ "Hearing aids and cochlear implants";
                "Tinnitus management therapy";
                "Cognitive behavioral therapy";
                "Sound therapy and masking devices" ];
            Content.legalOptions :=
              [ "Product liability lawsuits against 3M";
                "Veterans' disability benefits";
                "Class action lawsuits";
                "Settlement fund claims" ];
            Content.settlements :=
              "3M has agreed to pay $6 billion to settle approximately 260,000 earplug lawsuits. Individual settlements average around $24,000, with some cases reaching $100,000 or more depending on the severity of hearing damage." |};
       Article.source := "fallback" |};
    {| Article.id := IdNum 4;
       Article.title := "Silicosis and Silica Dust Exposure";
       Article.description :=
         "Information about silicosis, a lung disease caused by exposure to silica dust in construction and manufacturing.";
       Article.slug := "silicosis-silica-dust-exposure";
       Article.category := "medical";
       Article.date := Some now;
       Article.content :=
         {| Content.overview :=
              "Silicosis is a progressive lung disease caused by inhaling crystalline silica dust. It commonly affects workers in construction, mining, manufacturing, and other industries where silica dust is present.";
            Content.symptoms :=
              [ "Shortness of breath and chest pain";
                "Persistent cough and fatigue";
                "Weight loss and loss of appetite";
                "Fever and night sweats";
                "Cyanosis (bluish skin color)" ];
            Content.causes :=
              [ "Exposure to silica dust in construction";
                "Mining and quarrying operations";
                "Manufacturing of glass, ceramics, and stone products";
                "Sandblasting and abrasive blasting";
                "Tunnel construction and drilling" ];
            Content.treatments :=
              [ "Oxygen therapy and pulmonary rehabilitation";
                "Medications to reduce inflammation";
                "Lung transplantation in severe cases";
                "Prevention of further exposure" ];
            Content.legalOptions :=
              [ "Workers' compensation claims";
                "Personal injury lawsuits against employers";
                "Product liability claims against equipment manufacturers";
                "Class action lawsuits" ];
            Content.settlements :=
              "Silicosis settlements vary widely based on the severity of the disease and jurisdiction. Typical settlements range from $50,000 to $500,000, with some cases reaching $1 million or more for severe cases." |};
       Article.source := "fallback" |};
    {| Article.id := IdNum 5;
       Article.title := "Talcum Powder Ovarian Cancer Lawsuits";
       Article.description :=
         "Information about talcum powder lawsuits alleging the product causes ovarian cancer in women.";
       Article.slug := "talcum-powder-ovarian-cancer-lawsuits";
       Article.category := "legal";
       Article.date := Some now;
       Article.content :=
         {| Content.overview :=
              "Talcum powder lawsuits allege that Johnson & Johnson's talc-based products, including Baby Powder and Shower to Shower, contain asbestos and cause ovarian cancer in women who used them for feminine hygiene.";
            Content.symptoms :=
              [ "Abdominal bloating and pain";
                "Pelvic pain and pressure";
                "Changes in bowel habits";
                "Frequent urination";
                "Unexplained weight loss" ];
            Content.causes :=
              [ "Long-term use of talcum powder for feminine hygiene";
                "Asbestos contamination in talc products";
                "Inhalation of talc particles";
                "Application to genital area" ];
            Content.treatments :=
              [ "Surgery to remove ovaries and fallopian tubes";
                "Chemotherapy and radiation therapy";
                "Targeted therapy and immunotherapy";
                "Hormone therapy" ];
            Content.legalOptions :=
              [ "Product liability lawsuits against Johnson & Johnson";
                "Wrongful death claims";
                "Class action lawsuits";
                "Settlement fund claims" ];
            Content.settlements :=
              "Johnson & Johnson has faced thousands of talcum powder lawsuits. Individual settlements have ranged from $100,000 to $100 million, with some jury verdicts exceeding $4 billion. The company has set aside billions for settlements." |};
       Article.source := "fallback" |};
    {| Article.id := IdNum 6;
       Article.title := "Paraquat Parkinson's Disease Lawsuits";
       Article.description :=
         "Information about Paraquat lawsuits alleging the herbicide causes Parkinson's disease in agricultural workers.";
       Article.slug := "paraquat-parkinsons-disease-lawsuits";
       Article.category := "legal";
       Article.date := Some now;
       Article.content :=
         {| Content.overview :=
              "Paraquat is a highly toxic herbicide used in agriculture. Studies have linked Paraquat exposure to an increased risk of Parkinson's disease, leading to thousands of lawsuits against manufacturers.";
            Content.symptoms :=
              [ "Tremors in hands, arms, legs, or jaw";
                "Slowed movement and stiffness";
                "Balance problems and falls";
                "Speech and swallowing difficulties";
                "Cognitive changes and depression" ];
            Content.causes :=
              [ "Direct exposure during application";
                "Inhalation of Paraquat spray";
                "Skin contact with contaminated surfaces";
                "Accidental ingestion or exposure" ];
            Content.treatments :=
              [ "Medications to manage symptoms";
                "Deep brain stimulation";
                "Physical and occupational therapy";
                "Speech therapy and dietary changes" ];
            Content.legalOptions :=
              [ "Product liability lawsuits against manufacturers";
                "Workers' compensation claims";
                "Class action lawsuits";
                "Wrongful death claims" ];
            Content.settlements :=
              "Paraquat lawsuits are still in early stages, but settlements are expected to range from $100,000 to $1 million or more, depending on the severity of Parkinson's symptoms and exposure history." |};
       Article.source := "fallback" |}
  ].

(** The fallback filter of [getLawFirms]:
    [specialty ? fallbackFirms.filter(...) : fallbackFirms]. *)
Definition filterFallbackFirms (specialty : option string) : list LawFirm.t :=
  match specialty with
  | Some sp =>
      if truthy sp
      then List.filter
             (fun firm =>
                existsb (fun s => includes (toLowerCase s) (toLowerCase sp))
                        (LawFirm.specialties firm))
             getFallbackLawFirms
      else getFallbackLawFirms
  | None => getFallbackLawFirms
  end.

(** What [settlement.settlementRange] reads. *)
Definition rangeOf (settlement : SettlementItem) : option string :=
  match settlement with
  | SRecord r => Settlement.settlementRange r
  | SInherited _ => None
  end.

(** [generateSummary(condition, articles, settlements)] *)
Definition generateSummary (condition : string) (articles : list Article.t)
    (settlements : list SettlementItem) : string :=
  let summary := "Information about " +:+ condition in
  let summary :=
    match articles with
    | article :: _ =>
        summary +:+ ". " +:+
        substring0 200 (Content.overview (Article.content article)) +:+ "..."
    | [] => summary
    end in
  match settlements with
  | settlement :: _ =>
      summary +:+ " Typical settlements range from " +:+
      interpolate (rangeOf settlement) +:+ "."
  | [] => summary
  end.

(** The filter of [searchArticles]. *)
Definition matchesCondition (condition : string) (article : Article.t) : bool :=
  includes (toLowerCase (Article.title article)) (toLowerCase condition)
  || includes (toLowerCase (Article.description article)) (toLowerCase condition)
  || includes (toLowerCase (Content.overview (Article.content article)))
              (toLowerCase condition).

(** [row.Name], for the fixed property names the service reads; an absent
    property and an empty cell are both falsy, and every such read is
    followed by [|| ...]. *)
Definition prop (row : Row) (name : string) : string :=
  match JsObject.own row name with Some v => v | None => "" end.

(** ** [GoogleSheetsConnector]: building rows and searching them *)

(** [headers.forEach((header, index) => { obj[header] = row[index] || '' })] *)
Fixpoint assignColumns (obj : Row) (index : nat) (headers row : list string)
  : Row :=
  match headers with
  | [] => obj
  | header :: rest =>
      assignColumns (JsObject.assignString obj header (List.nth index row ""))
                    (S index) rest row
  end.

Definition rowObject (headers row : list string) : Row :=
  assignColumns [] 0 headers row.

Fixpoint findIndexFrom {A} (p : A -> bool) (i : nat) (l : list A) : option nat :=
  match l with
  | [] => None
  | x :: r => if p x then Some i else findIndexFrom p (S i) r
  end.

(** [array.findIndex(p)], [None] for -1. *)
Definition findIndex {A} (p : A -> bool) (l : list A) : option nat :=
  findIndexFrom p 0 l.

(** [array.slice(0, limit)] for an integer [limit]: a negative limit
    counts from the end. *)
Definition slice0 {A} (limit : Z) (l : list A) : list A :=
  let len := Z.of_nat (length l) in
  let stop := if limit <? 0 then Z.max (len + limit) 0 else Z.min limit len in
  firstn (Z.to_nat stop) l.

(** The fields of the object [searchSheet] returns. *)
Inductive SheetField : Type :=
| FRows (rows : list Row)
| FNumber (n : Z)
| FString (s : string).

(** The callback of the filter on one named column:
    [(row[headers[columnIndex]] || '').toLowerCase().includes(searchQuery)]. *)
Definition columnMatches (header searchQuery : string) (row : Row)
  : Outcome bool :=
  match JsObject.get row header with
  | JsObject.Own value =>
      Returns (includes (toLowerCase (orElse value "")) searchQuery)
  | JsObject.Undefined => Returns (includes (toLowerCase "") searchQuery)
  | JsObject.Inherited => Throws "TypeError: value.toLowerCase is not a function"
  end.

(** The callback of the filter across all columns. *)
Definition anyValueMatches (searchQuery : string) (row : Row) : bool :=
  existsb (fun value => includes (toLowerCase value) searchQuery)
          (JsObject.values row).

(** [searchSheet] once [readSheet] has resolved with [headers] and
    [data]. *)
Definition searchRows (sheetName : string) (headers : list string)
    (data : list Row) (query : string) (column : option string)
    (limit : option Z) : Outcome (list (string * SheetField)) :=
  let limit := match limit with Some n => n | None => 10 end in
  match data with
  | [] => Returns [ ("results", FRows []); ("total", FNumber 0) ]
  | _ :: _ =>
      let searchQuery := toLowerCase query in
      let filtered :=
        if truthyField column then
          let column := interpolate column in
          match findIndex
                  (fun h => String.eqb (toLowerCase h) (toLowerCase column))
                  headers with
          | None =>
              Throws ("Column '" +:+ column +:+ "' not found in sheet '"
                      +:+ sheetName +:+ "'")
          | Some columnIndex =>
              filterOutcome
                (columnMatches (List.nth columnIndex headers "") searchQuery)
                data
          end
        else Returns (List.filter (anyValueMatches searchQuery) data) in
      match filtered with
      | Throws e => Throws e
      | Returns filteredData =>
          Returns
            [ ("results", FRows (slice0 limit filteredData));
              ("total", FNumber (Z.of_nat (length filteredData)));
              ("query", FString query);
              ("column",
               FString (if truthyField column then interpolate column
                        else "all")) ]
      end
  end.

(** ** The service over an environment *)

Section Service.

Variable env : Env.

(** A call to a provider, awaited: it is logged when it is issued, the
    environment answers it, and the clock of the caller moves on by the
    time the call took. *)
Definition callProvider {A} (call : ProviderCall) (answer : nat -> Outcome A)
  : M A :=
  fun s =>
    let n := length (calls s) in
    (answer n,
     {| googleSheets := googleSheets s; hubspot := hubspot s;
        cache := cache s; clock := clock s + latency env n;
        calls := calls s ++ [call]; draws := draws s |}).

(** [Math.random()], as a template literal prints it. *)
Definition mathRandom : M string :=
  fun s =>
    (Returns (random env (draws s)),
     {| googleSheets := googleSheets s; hubspot := hubspot s;
        cache := cache s; clock := clock s; calls := calls s;
        draws := S (draws s) |}).

(** [new Date().toISOString()] *)
Definition newDateISO : M string :=
  fun s => (Returns (toISOString env (clock s)), s).

(** [value || Math.random()] and [value || new Date().toISOString()] *)
Definition orRandom (value : string) : M string :=
  if truthy value then ret value else mathRandom.

Definition orNow (value : string) : M string :=
  if truthy value then ret value else newDateISO.

Definition getThis {A} (field : State -> A) : M A :=
  fun s => (Returns (field s), s).

(** [Promise.all([first, second])] fills one slot per promise and resolves
    with the slots in the order of the promises, whichever settled
    first. *)
Definition joinTwo {A} (secondFirst : bool) (x y : A) : Outcome (A * A) :=
  let settled :=
    if secondFirst then [ (1%nat, y); (0%nat, x) ]
    else [ (0%nat, x); (1%nat, y) ] in
  match joinSlots 2 settled with
  | [ Some a; Some b ] => Returns (a, b)
  | _ => Throws "unsettled promise"
  end.

(** The calls a run from [before] to [after] has added to the log. *)
Definition newCalls (before after : State) : list ProviderCall :=
  drop (length (calls before)) (calls after).

(** The order in which two promises joined by [Promise.all] issue their
    requests: the first promise runs up to its first request, then the
    second one starts and issues its own; what the first promise asks
    after that waits for an answer.  (The second promise of every join of
    the service makes at most one request.) *)
Definition issued (first second : list ProviderCall) : list ProviderCall :=
  match first with
  | [] => second
  | call :: later => call :: second ++ later
  end.

(** The state a join of two promises leaves when it settles at time [t]:
    [s] is the state at the join, [s1] the one the first promise leaves
    and [s2] the one the second promise leaves. *)
Definition joinedAt (t : Z) (s s1 s2 : State) : State :=
  {| googleSheets := googleSheets s2; hubspot := hubspot s2;
     cache := cache s2; clock := t;
     calls := calls s ++ issued (newCalls s s1) (newCalls s1 s2);
     draws := draws s2 |}.

(** A fulfilled join settles when the later of its promises has. *)
Definition joined (s s1 s2 : State) : State :=
  joinedAt (Z.max (clock s1) (clock s2)) s s1 s2.

(** [Promise.all] rejects with the first rejection, at the time of that
    rejection. *)
Definition rejection {A} (r : Outcome A) (t : Z) : list (Z * string) :=
  match r with
  | Throws e => [ (t, e) ]
  | Returns _ => []
  end.

Fixpoint firstRejection (rejections : list (Z * string)) : option (Z * string) :=
  match rejections with
  | [] => None
  | (t, e) :: rest =>
      match firstRejection rest with
      | Some (t', e') => if t' <? t then Some (t', e') else Some (t, e)
      | None => Some (t, e)
      end
  end.

(** [Promise.all([first, second])].  The promises of a join start at the
    same instant, so each runs on a clock of its own that starts at the
    time of the join.  The model runs the first promise to its end and
    then the second one; the two share no state but the log and the count
    of random draws, and the numbers under which the environment answers
    follow the order in which the model makes the calls. *)
Definition promiseAll2 {A} (first second : M A) : M (A * A) :=
  fun s =>
    let (r1, s1) := first s in
    let (r2, s2) := second (withClock (clock s) s1) in
    match firstRejection (rejection r1 (clock s1) ++ rejection r2 (clock s2)) with
    | Some (t, e) => (Throws e, joinedAt t s s1 s2)
    | None =>
        match r1, r2 with
        | Returns x, Returns y =>
            (joinTwo (secondSettlesFirst env (length (calls s2))) x y,
             joined s s1 s2)
        | _, _ => (Throws "unsettled promise", joined s s1 s2)
        end
    end.

(** [Promise.all] of the three queries of [searchCondition].  Each query
    starts at the time of the join and so reads the cache at that time;
    the three read and write three different keys, and each stamps what
    it stores with its own clock.  The log lists the calls query by
    query. *)
Definition promiseAll3 {A B C} (first : M A) (second : M B) (third : M C)
  : M (A * B * C) :=
  fun s =>
    let (r1, s1) := first s in
    let (r2, s2) := second (withClock (clock s) s1) in
    let (r3, s3) := third (withClock (clock s) s2) in
    match firstRejection (rejection r1 (clock s1) ++ rejection r2 (clock s2)
                          ++ rejection r3 (clock s3)) with
    | Some (t, e) => (Throws e, withClock t s3)
    | None =>
        match r1, r2, r3 with
        | Returns x, Returns y, Returns z =>
            (Returns (x, y, z),
             withClock (Z.max (clock s1) (Z.max (clock s2) (clock s3))) s3)
        | _, _, _ => (Throws "unsettled promise", s3)
        end
    end.

(** *** [GoogleSheetsConnector] *)

(** [makeRequest] for the values of one sheet; it resolves with
    [result.values], which may be absent. *)
Definition makeRequest (sheetName : string)
  : M (option (list (list string))) :=
  tryCatch
    (callProvider (ReadSheetCall sheetName)
                  (fun n => sheetsRequest env n sheetName))
    (fun message => throw ("Google Sheets request failed: " +:+ message)).

(** [readSheet(sheetName)], resolving with [{ headers, data }]. *)
Definition readSheet (sheetName : string) : M (list string * list Row) :=
  values <- makeRequest sheetName ;;
  match values with
  | None | Some [] => ret ([], [])
  | Some (headers :: rows) => ret (headers, List.map (rowObject headers) rows)
  end.

(** [searchSheet(sheetName, query, column = null, limit = 10)] *)
Definition searchSheet (sheetName query : string) (column : option string)
    (limit : option Z) : M (list (string * SheetField)) :=
  sheet <- readSheet sheetName ;;
  lift (searchRows sheetName (fst sheet) (snd sheet) query column limit).

(** *** Cache management *)

(** [getFromCache(key)] *)
Definition getFromCache (key : string) : M (option CacheData) :=
  fun s =>
    match cache s !! key with
    | Some cached =>
        if clock s - timestamp cached <? cacheTimeout
        then (Returns (Some (data cached)), s)
        else (Returns None, withCache (delete key (cache s)) s)
    | None => (Returns None, withCache (delete key (cache s)) s)
    end.

(** [setCache(key, data)] *)
Definition setCache (key : string) (d : CacheData) : M unit :=
  fun s =>
    (Returns tt,
     withCache (<[ key := {| data := d; timestamp := clock s |} ]> (cache s)) s).

(** [clearCache()] *)
Definition clearCache : M unit :=
  fun s => (Returns tt, withCache ∅ s).

(** Each facade method hands a cache hit back as it is. The four key
    families are disjoint and each is written with one kind of data
    only; a hit of another kind has no counterpart in a run of the
    service and is mapped to an error here (see [facade_never_throws]). *)
Definition otherKind {A} : M A := throw "cached value of another kind".

(** *** Articles *)

(** [mapSheetRowToArticle(row, sheetName)], [None] for [null]. *)
Definition mapSheetRowToArticle (row : Row) (sheetName : string)
  : M (option Article.t) :=
  tryCatch
    (if String.eqb sheetName "Medical Conditions" then
       id <- orRandom (prop row "ID") ;;
       date <- orNow (prop row "Last Updated") ;;
       ret (Some
         {| Article.id := IdStr ("sheets_medical_" +:+ id);
            Article.title :=
              orElse (prop row "Condition Name") (orElse (prop row "Name") "");
            Article.description :=
              orElse (prop row "Description")
                     (orElse (prop row "Medical Description") "");
            Article.slug :=
              createSlug (orElse (prop row "Condition Name")
                                 (orElse (prop row "Name") ""));
            Article.category := "medical";
            Article.date := Some date;
            Article.content :=
              {| Content.overview :=
                   orElse (prop row "Description")
                          (orElse (prop row "Medical Description") "");
                 Content.symptoms :=
                   parseList (orElse (prop row "Symptoms")
                                     (orElse (prop row "Common Symptoms") ""));
                 Content.causes :=
                   parseList (orElse (prop row "Causes")
                                     (orElse (prop row "Risk Factors") ""));
                 Content.treatments :=
                   parseList (orElse (prop row "Treatments")
                                     (orElse (prop row "Treatment Options") ""));
                 Content.legalOptions :=
                   parseList (orElse (prop row "Legal Options") "");
                 Content.settlements :=
                   orElse (prop row "Settlements")
                          (orElse (prop row "Settlement Range") "") |};
            Article.source := "google_sheets" |})
     else if String.eqb sheetName "Legal Cases" then
       id <- orRandom (prop row "ID") ;;
       date <- orNow (orElse (prop row "Date Filed") (prop row "Last Updated")) ;;
       ret (Some
         {| Article.id := IdStr ("sheets_legal_" +:+ id);
            Article.title :=
              orElse (prop row "Case Name") (orElse (prop row "Name") "");
            Article.description :=
              orElse (prop row "Description")
                     (orElse (prop row "Case Summary") "");
            Article.slug :=
              createSlug (orElse (prop row "Case Name")
                                 (orElse (prop row "Name") ""));
            Article.category := "legal";
            Article.date := Some date;
            Article.content :=
              {| Content.overview :=
                   orElse (prop row "Description")
                          (orElse (prop row "Case Summary") "");
                 Content.symptoms := [];
                 Content.causes :=
                   parseList (orElse (prop row "Alleged Causes") "");
                 Content.treatments := [];
                 Content.legalOptions :=
                   parseList (orElse (prop row "Legal Options") "");
                 Content.settlements :=
                   orElse (prop row "Settlement Amount")
                          (orElse (prop row "Settlements") "") |};
            Article.source := "google_sheets" |})
     else if String.eqb sheetName "Manufacturer Cases" then
       id <- orRandom (prop row "ID") ;;
       date <- orNow (orElse (prop row "Date Filed") (prop row "Last Updated")) ;;
       ret (Some
         {| Article.id := IdStr ("sheets_manufacturer_" +:+ id);
            Article.title :=
              orElse (prop row "Manufacturer") (orElse (prop row "Company") "")
              +:+ " - " +:+ orElse (prop row "Product") "";
            Article.description :=
              orElse (prop row "Description")
                     (orElse (prop row "Case Summary") "");
            Article.slug :=
              createSlug
                (orElse (prop row "Manufacturer")
                        (orElse (prop row "Company") "")
                 +:+ "-" +:+ orElse (prop row "Product") "");
            Article.category := "manufacturer";
            Article.date := Some date;
            Article.content :=
              {| Content.overview :=
                   orElse (prop row "Description")
                          (orElse (prop row "Case Summary") "");
                 Content.symptoms :=
                   parseList (orElse (prop row "Symptoms") "");
                 Content.causes :=
                   parseList (orElse (prop row "Alleged Causes") "");
                 Content.treatments := [];
                 Content.legalOptions :=
                   parseList (orElse (prop row "Legal Options") "");
                 Content.settlements :=
                   orElse (prop row "Settlement Amount")
                          (orElse (prop row "Settlements") "") |};
            Article.source := "google_sheets" |})
     else ret None)
    (fun _ => ret None).

Definition keepMapped {A} (mapped : list (option A)) : list A :=
  omap (fun x => x) mapped.

(** The three sheets [getArticlesFromGoogleSheets] reads, in order. *)
Definition articleSheets : list string :=
  [ "Medical Conditions"; "Legal Cases"; "Manufacturer Cases" ].

(** One round of the loop over the sheets: a sheet that cannot be read
    is skipped with a warning. *)
Definition readArticleSheet (articles : list Article.t) (sheetName : string)
  : M (list Article.t) :=
  tryCatch
    (sheet <- readSheet sheetName ;;
     mapped <- mapM (fun row => mapSheetRowToArticle row sheetName) (snd sheet) ;;
     ret (articles ++ keepMapped mapped))
    (fun _ => ret articles).

(** [getArticlesFromGoogleSheets()] *)
Definition getArticlesFromGoogleSheets : M (list Article.t) :=
  configured <- getThis googleSheets ;;
  if negb configured then ret []
  else tryCatch (foldM readArticleSheet [] articleSheets) (fun _ => ret []).

Definition diseaseArticle (disease : Disease.t) : Article.t :=
  {| Article.id := IdStr ("hubspot_" +:+ Disease.id disease);
     Article.title := Disease.name disease;
     Article.description := Disease.description disease;
     Article.slug := createSlug (Disease.name disease);
     Article.category := orElse (Disease.category disease) "medical";
     Article.date := Disease.lastUpdated disease;
     Article.content :=
       {| Content.overview := Disease.description disease;
          Content.symptoms := Disease.symptoms disease;
          Content.causes := Disease.causes disease;
          Content.treatments := [];
          Content.legalOptions := [];
          Content.settlements := "" |};
     Article.source := "hubspot" |}.

(** [getArticlesFromHubSpot()] *)
Definition getArticlesFromHubSpot : M (list Article.t) :=
  configured <- getThis hubspot ;;
  if negb configured then ret []
  else
    tryCatch
      (diseases <- callProvider (SearchDiseasesCall "" None 50)
                     (fun n => hubspotSearchDiseases env n "" 50) ;;
       ret (List.map diseaseArticle diseases))
      (fun _ => ret []).

(** [getFallbackArticles()] at the current time. *)
Definition fallbackArticlesNow : M (list Article.t) :=
  now <- newDateISO ;; ret (getFallbackArticles now).

(** [getAllArticles()] *)
Definition getAllArticles : M (list Article.t) :=
  let cacheKey := "all_articles" in
  cached <- getFromCache cacheKey ;;
  match cached with
  | Some (DArticles hit) => ret hit
  | Some _ => otherKind
  | None =>
      tryCatch
        (fetched <- promiseAll2 getArticlesFromGoogleSheets
                                getArticlesFromHubSpot ;;
         let allArticles := mergeArticles (fst fetched) (snd fetched) in
         if (length allArticles =? 0)%nat then
           fallbackArticles <- fallbackArticlesNow ;;
           _ <- setCache cacheKey (DArticles fallbackArticles) ;;
           ret fallbackArticles
         else
           _ <- setCache cacheKey (DArticles allArticles) ;;
           ret allArticles)
        (fun _ => fallbackArticlesNow)
  end.

(** [searchArticles(condition)] *)
Definition searchArticles (condition : string) : M (list Article.t) :=
  allArticles <- getAllArticles ;;
  ret (List.filter (matchesCondition condition) allArticles).

(** *** Law firms *)

(** The filter of [getLawFirmsFromGoogleSheets]. *)
Definition firmRowMatches (specialty location : option string) (firm : Row)
  : bool :=
  negb (truthyField specialty
        && negb (includes (toLowerCase (prop firm "Specialties"))
                          (toLowerCase (interpolate specialty))))
  && negb (truthyField location
           && negb (includes (toLowerCase (prop firm "Location"))
                             (toLowerCase (interpolate location)))).

Definition firmOfRow (firm : Row) : M LawFirm.t :=
  id <- orRandom (prop firm "ID") ;;
  ret {| LawFirm.id := "sheets_firm_" +:+ id;
         LawFirm.name :=
           Some (orElse (prop firm "Name") (orElse (prop firm "Firm Name") ""));
         LawFirm.location :=
           orElse (prop firm "Location")
                  (orElse (prop firm "City") "" +:+ ", "
                   +:+ orElse (prop firm "State") "");
         LawFirm.phone := Some (orElse (prop firm "Phone") "");
         LawFirm.website := Some (orElse (prop firm "Website") "");
         LawFirm.specialties := parseList (orElse (prop firm "Specialties") "");
         LawFirm.experience :=
           Some (orElse (prop firm "Years Experience")
                        (orElse (prop firm "Experience") ""));
         LawFirm.successRate := Some (orElse (prop firm "Success Rate") "");
         LawFirm.notableSettlements :=
           parseList (orElse (prop firm "Notable Settlements") "");
         LawFirm.source := "google_sheets" |}.

(** [getLawFirmsFromGoogleSheets(specialty, location)] *)
Definition getLawFirmsFromGoogleSheets (specialty location : option string)
  : M (list LawFirm.t) :=
  configured <- getThis googleSheets ;;
  if negb configured then ret []
  else
    tryCatch
      (sheet <- readSheet "Law Firms" ;;
       mapM firmOfRow
            (List.filter (firmRowMatches specialty location) (snd sheet)))
      (fun _ => ret []).

Definition firmOfHubSpot (firm : HubSpotFirm.t) : LawFirm.t :=
  {| LawFirm.id := "hubspot_firm_" +:+ HubSpotFirm.id firm;
     LawFirm.name := HubSpotFirm.name firm;
     LawFirm.location := HubSpotFirm.location firm;
     LawFirm.phone := HubSpotFirm.phone firm;
     LawFirm.website := HubSpotFirm.website firm;
     LawFirm.specialties := HubSpotFirm.specialties firm;
     LawFirm.experience := HubSpotFirm.experience firm;
     LawFirm.successRate := HubSpotFirm.successRate firm;
     LawFirm.notableSettlements := HubSpotFirm.notableSettlements firm;
     LawFirm.source := "hubspot" |}.

(** [specialty || ''] *)
Definition orEmpty (v : option string) : string :=
  match v with Some s => s | None => "" end.

(** [getLawFirmsFromHubSpot(specialty, location)] *)
Definition getLawFirmsFromHubSpot (specialty location : option string)
  : M (list LawFirm.t) :=
  configured <- getThis hubspot ;;
  if negb configured then ret []
  else
    tryCatch
      (firms <- callProvider
                  (FindLawFirmsCall (orEmpty specialty) location 20)
                  (fun n => hubspotFindLawFirms env n (orEmpty specialty)
                                                location 20) ;;
       ret (List.map firmOfHubSpot firms))
      (fun _ => ret []).

(** [`law_firms_${specialty}_${location}`] *)
Definition lawFirmsKey (specialty location : option string) : string :=
  "law_firms_" +:+ interpolateNull specialty +:+ "_"
  +:+ interpolateNull location.

(** [getLawFirms(specialty = null, location = null)] *)
Definition getLawFirms (specialty location : option string)
  : M (list LawFirm.t) :=
  let cacheKey := lawFirmsKey specialty location in
  cached <- getFromCache cacheKey ;;
  match cached with
  | Some (DFirms hit) => ret hit
  | Some _ => otherKind
  | None =>
      tryCatch
        (fetched <- promiseAll2
                      (getLawFirmsFromGoogleSheets specialty location)
                      (getLawFirmsFromHubSpot specialty location) ;;
         let allFirms := fst fetched ++ snd fetched in
         if (length allFirms =? 0)%nat then
           let filteredFirms := filterFallbackFirms specialty in
           _ <- setCache cacheKey (DFirms filteredFirms) ;;
           ret filteredFirms
         else
           _ <- setCache cacheKey (DFirms allFirms) ;;
           ret allFirms)
        (fun _ => ret (filterFallbackFirms specialty))
  end.

(** *** Settlement data *)

Definition settlementOfRow (row : Row) : Settlement.t :=
  {| Settlement.condition := Some (orElse (prop row "Condition") "");
     Settlement.state := Some (orElse (prop row "State") "");
     Settlement.settlementRange :=
       Some (orElse (prop row "Settlement Range")
                    (orElse (prop row "Settlements") ""));
     Settlement.averageSettlement :=
       Some (orElse (prop row "Average Settlement") "");
     Settlement.totalCases := Some (orElse (prop row "Total Cases") "");
     Settlement.year := Some (orElse (prop row "Year") "");
     Settlement.source := "google_sheets" |}.

(** [row => !state || row.State?.toLowerCase().includes(state.toLowerCase())] *)
Definition stateMatches (state : option string) (row : Row) : bool :=
  negb (truthyField state)
  || includes (toLowerCase (prop row "State"))
              (toLowerCase (interpolate state)).

(** [getSettlementDataFromGoogleSheets(condition, state)]: the binding
    [const { data } = ...] reads the property [data] of what
    [searchSheet] returned. *)
Definition getSettlementDataFromGoogleSheets (condition : string)
    (state : option string) : M (list Settlement.t) :=
  configured <- getThis googleSheets ;;
  if negb configured then ret []
  else
    tryCatch
      (found <- searchSheet "Settlements" condition (Some "Condition")
                            (Some 20) ;;
       match JsObject.get found "data" with
       | JsObject.Own (FRows rows) =>
           ret (List.map settlementOfRow
                         (List.filter (stateMatches state) rows))
       | JsObject.Own _ => throw "TypeError: data.filter is not a function"
       | JsObject.Inherited => throw "TypeError: data.filter is not a function"
       | JsObject.Undefined =>
           throw "TypeError: Cannot read properties of undefined (reading 'filter')"
       end)
      (fun _ => ret []).

(** [getSettlementDataFromHubSpot(condition, state)]: the connector
    resolves with one object, on which [data.map] is not a function. *)
Definition getSettlementDataFromHubSpot (condition : string)
    (state : option string) : M (list Settlement.t) :=
  configured <- getThis hubspot ;;
  if negb configured then ret []
  else
    tryCatch
      (ranges <- callProvider (GetSettlementDataCall condition state)
                   (fun n => hubspotGetSettlementData env n condition state) ;;
       let _ : HubSpotRanges.t := ranges in
       throw "TypeError: data.map is not a function")
      (fun _ => ret []).

(** [`settlement_${condition}_${state}`] *)
Definition settlementKey (condition : string) (state : option string)
  : string :=
  "settlement_" +:+ condition +:+ "_" +:+ interpolateNull state.

(** [getSettlementData(condition, state = null)] *)
Definition getSettlementData (condition : string) (state : option string)
  : M (list SettlementItem) :=
  let cacheKey := settlementKey condition state in
  cached <- getFromCache cacheKey ;;
  match cached with
  | Some (DSettlements hit) => ret hit
  | Some _ => otherKind
  | None =>
      tryCatch
        (fetched <- promiseAll2
                      (getSettlementDataFromGoogleSheets condition state)
                      (getSettlementDataFromHubSpot condition state) ;;
         mergedData <- lift (mergeSettlementData (fst fetched) (snd fetched)) ;;
         if (length mergedData =? 0)%nat then
           let fallbackData := getDefaultSettlementData condition in
           _ <- setCache cacheKey (DSettlements fallbackData) ;;
           ret fallbackData
         else
           _ <- setCache cacheKey (DSettlements (List.map SRecord mergedData)) ;;
           ret (List.map SRecord mergedData))
        (fun _ => ret (getDefaultSettlementData condition))
  end.

(** *** Condition search *)

(** [`search_${condition}`] *)
Definition searchKey (condition : string) : string := "search_" +:+ condition.

(** [searchCondition(condition)] *)
Definition searchCondition (condition : string) : M SearchResult.t :=
  let cacheKey := searchKey condition in
  cached <- getFromCache cacheKey ;;
  match cached with
  | Some (DSearch hit) => ret hit
  | Some _ => otherKind
  | None =>
      tryCatch
        (found <- promiseAll3 (searchArticles condition)
                              (getLawFirms (Some condition) None)
                              (getSettlementData condition None) ;;
         let '(articles, lawFirms, settlements) := found in
         let result :=
           {| SearchResult.condition := condition;
              SearchResult.articles := articles;
              SearchResult.lawFirms := lawFirms;
              SearchResult.settlements := settlements;
              SearchResult.summary :=
                generateSummary condition articles settlements |} in
         _ <- setCache cacheKey (DSearch result) ;;
         ret result)
        (fun _ =>
           ret {| SearchResult.condition := condition;
                  SearchResult.articles := [];
                  SearchResult.lawFirms := [];
                  SearchResult.settlements := [];
                  SearchResult.summary :=
                    "Information about " +:+ condition
                    +:+ " is currently being updated." |})
  end.

End Service.

(** [new DataIntegrationService()] at time [now]: the Google Sheets
    connector is there when an API key is configured, the HubSpot
    connector always is, and the cache is empty. *)
Definition newService (googleApiKey : option string) (now : Z) : State :=
  {| googleSheets := truthyField googleApiKey;
     hubspot := true;
     cache := ∅;
     clock := now;
     calls := [];
     draws := O |}.

(** ** Two environments to run the service in *)

(** Every provider call fails. *)
Definition failingEnv : Env :=
  {| sheetsRequest := fun _ _ => Throws "Google Sheets API Error: 503";
     hubspotSearchDiseases := fun _ _ _ => Throws "HubSpot API error";
     hubspotFindLawFirms := fun _ _ _ _ => Throws "HubSpot API error";
     hubspotGetSettlementData := fun _ _ _ => Throws "HubSpot API error";
     latency := fun _ => 120;
     random := fun _ => "0.42";
     toISOString := fun _ => "2024-06-01T00:00:00.000Z";
     secondSettlesFirst := fun _ => true |}.

(** The sheet of medical conditions has one row, and HubSpot knows the
    same condition under a title that differs in case, and another one;
    HubSpot answers before the sheets do. *)
Definition sampleEnv : Env :=
  {| sheetsRequest := fun _ sheetName =>
       if String.eqb sheetName "Medical Conditions"
       then Returns (Some [ [ "ID"; "Condition Name"; "Description" ];
                            [ "7"; "Mesothelioma Guide"; "From the sheet" ] ])
       else Returns None;
     hubspotSearchDiseases := fun _ _ _ =>
       Returns
         [ {| Disease.id := "101"; Disease.name := "mesothelioma guide";
              Disease.category := "Cancer";
              Disease.description := "From HubSpot";
              Disease.lastUpdated := None;
              Disease.symptoms := []; Disease.causes := [] |};
           {| Disease.id := "102"; Disease.name := "Roundup Lawsuit";
              Disease.category := "Other";
              Disease.description := "From HubSpot";
              Disease.lastUpdated := None;
              Disease.symptoms := []; Disease.causes := [] |} ];
     hubspotFindLawFirms := fun _ _ _ _ => Returns [];
     hubspotGetSettlementData := fun _ _ _ =>
       Returns {| HubSpotRanges.min := Some 100000;
                  HubSpotRanges.max := Some 500000;
                  HubSpotRanges.stateMultiplier := None;
                  HubSpotRanges.severityMultipliers := None |};
     latency := fun n => 40 + Z.of_nat n;
     random := fun _ => "0.42";
     toISOString := fun _ => "2024-06-01T00:00:00.000Z";
     secondSettlesFirst := fun _ => true |}.

(** A fresh service in [sampleEnv], and what its two article providers
    return. *)
Definition sampleStart : State := newService (Some "key") 0.

Definition sampleSheetsArticles : list Article.t :=
  Eval cbv in
    match fst (getArticlesFromGoogleSheets sampleEnv sampleStart) with
    | Returns l => l
    | Throws _ => []
    end.

Definition sampleHubspotArticles : list Article.t :=
  Eval cbv in
    match fst (getArticlesFromHubSpot sampleEnv sampleStart) with
    | Returns l => l
    | Throws _ => []
    end.

Definition sampleSheetArticle : Article.t :=
  Eval cbv in List.hd (diseaseArticle
    {| Disease.id := ""; Disease.name := ""; Disease.category := "";
       Disease.description := ""; Disease.lastUpdated := None;
       Disease.symptoms := []; Disease.causes := [] |}) sampleSheetsArticles.

Definition sampleHubspotArticle : Article.t :=
  Eval cbv in List.hd sampleSheetArticle sampleHubspotArticles.

(** ** Notions used in the statements *)

(** [m] returns from every state. *)
Definition total {A} (m : M A) : Prop :=
  forall s, exists a s', m s = (Returns a, s').

(** An entry is fresh while [Date.now() - timestamp < this.cacheTimeout]. *)
Definition fresh (s : State) (e : CacheEntry) : Prop :=
  clock s - timestamp e < cacheTimeout.

(** A service whose only cache entry has just reached the age of five
    minutes. *)
Definition staleState : State :=
  {| googleSheets := false; hubspot := true;
     cache := {[ "all_articles" :=
                   {| data := DArticles []; timestamp := 0 |} ]};
     clock := cacheTimeout; calls := []; draws := O |}.


(** The state [setCache(key, d)] leaves. *)
Definition stored (key : string) (d : CacheData) (s : State) : State :=
  withCache (<[ key := {| data := d; timestamp := clock s |} ]> (cache s)) s.

(** What [getAllArticles] resolves with once both providers have
    answered. *)
Definition articlesOutcome (env : Env) (sheetsArticles hubspotArticles : list Article.t)
    (s : State) : list Article.t :=
  let allArticles := mergeArticles sheetsArticles hubspotArticles in
  if (length allArticles =? 0)%nat
  then getFallbackArticles (toISOString env (clock s))
  else allArticles.

(** What [getLawFirms] resolves with once both providers have answered. *)
Definition firmsOutcome (specialty : option string)
    (sheetsFirms hubspotFirms : list LawFirm.t) : list LawFirm.t :=
  let allFirms := sheetsFirms ++ hubspotFirms in
  if (length allFirms =? 0)%nat then filterFallbackFirms specialty
  else allFirms.

(** What [getSettlementData] resolves with once both providers have
    answered: the merged records, or the defaults when there are none or
    when merging throws. *)
Definition settlementOutcome (condition : string)
    (sheetsData hubspotData : list Settlement.t) : list SettlementItem :=
  match mergeSettlementData sheetsData hubspotData with
  | Returns (record :: records) => List.map SRecord (record :: records)
  | Returns [] => getDefaultSettlementData condition
  | Throws _ => getDefaultSettlementData condition
  end.

(** Two states with the same cache and the same connectors; the clock,
    the log and the random draws may differ. *)
Definition sameService (s s' : State) : Prop :=
  cache s' = cache s /\ googleSheets s' = googleSheets s
  /\ hubspot s' = hubspot s.

(** [m] leaves the cache and the connectors as they are. *)
Definition keepsService {A} (m : M A) : Prop :=
  forall s r s', m s = (r, s') -> sameService s s'.

(** Whatever [m] returns satisfies [P]. *)
Definition ensures {A} (m : M A) (P : A -> Prop) : Prop :=
  forall s a s', m s = (Returns a, s') -> P a.

(** Records by provenance: the source tag and the prefix of the id. *)
Definition sheetArticle (a : Article.t) : Prop :=
  Article.source a = "google_sheets"
  /\ exists rest, Article.id a = IdStr ("sheets_" +:+ rest).

Definition hubspotArticle (a : Article.t) : Prop :=
  Article.source a = "hubspot"
  /\ exists rest, Article.id a = IdStr ("hubspot_" +:+ rest).

Definition sheetFirm (f : LawFirm.t) : Prop :=
  LawFirm.source f = "google_sheets"
  /\ exists rest, LawFirm.id f = "sheets_" +:+ rest.

Definition hubspotFirm (f : LawFirm.t) : Prop :=
  LawFirm.source f = "hubspot"
  /\ exists rest, LawFirm.id f = "hubspot_" +:+ rest.

Definition fallbackFirmRecord (f : LawFirm.t) : Prop :=
  LawFirm.source f = "fallback"
  /\ exists rest, LawFirm.id f = "fallback_" +:+ rest.

(** The same environment with another order of settling. *)
Definition withSettleOrder (order : nat -> bool) (env : Env) : Env :=
  {| sheetsRequest := sheetsRequest env;
     hubspotSearchDiseases := hubspotSearchDiseases env;
     hubspotFindLawFirms := hubspotFindLawFirms env;
     hubspotGetSettlementData := hubspotGetSettlementData env;
     latency := latency env;
     random := random env;
     toISOString := toISOString env;
     secondSettlesFirst := order |}.

(** The records that carry a given normalized title. *)
Definition titled (key : string) (a : Article.t) : bool :=
  String.eqb (toLowerCase (Article.title a)) key.

(** [firstOnly l] keeps the head of [l]. *)
Definition firstOnly {A} (l : list A) : list A :=
  match l with [] => [] | a :: _ => [a] end.

(** Nothing fresh is cached under [key]. *)
Definition missed (key : string) (s : State) : Prop :=
  forall e, cache s !! key = Some e -> ~ fresh s e.

(** The state a cache miss under [key] leaves: [getFromCache] deletes
    whatever it found there. *)
Definition afterMiss (key : string) (s : State) : State :=
  withCache (delete key (cache s)) s.




(** The test of the specification: the query occurs in the value, upper
    and lower case taken as the same. *)
Definition matchesQuery (query value : string) : bool :=
  includes (toLowerCase value) (toLowerCase query).

(** The rows a search is for. Without a column name (none given, or the
    empty string) they are the rows one of whose values contains the
    query; with a column name, the rows whose value under the first
    header that equals the name up to case contains the query, and none
    when no header does. *)
Definition matchingRows (headers : list string) (data : list Row)
    (query : string) (column : option string) : list Row :=
  let anywhere :=
    List.filter (fun row => existsb (matchesQuery query) (JsObject.values row))
                data in
  match column with
  | None => anywhere
  | Some name =>
      if truthy name then
        match findIndex (fun h => String.eqb (toLowerCase h) (toLowerCase name))
                        headers with
        | Some index =>
            List.filter
              (fun row =>
                 matchesQuery query (prop row (List.nth index headers "")))
              data
        | None => []
        end
      else anywhere
  end.


(** The records grouped under a key, and those with a settlement range. *)
Definition hasKey (key : string) (item : Settlement.t) : bool :=
  String.eqb (groupKey item) key.

Definition complete (item : Settlement.t) : bool :=
  truthyField (Settlement.settlementRange item).

(** What [grouped] holds under a key once the records [seen] have been
    visited. *)
Definition expected (seen : list Settlement.t) (key : string)
  : option (list Settlement.t) :=
  match List.filter (hasKey key) seen with
  | [] => None
  | group => Some group
  end.

(** [grouped] is the grouping of [seen]: one property per key, holding the
    records of that key in the order they were visited. *)
Definition groupedAs (seen : list Settlement.t)
    (grouped : list (string * list Settlement.t)) : Prop :=
  (forall key, JsObject.own grouped key = expected seen key)
  /\ List.NoDup (List.map fst grouped).





(** The kind of data each family of keys is written with. *)
Definition kinded (key : string) (d : CacheData) : Prop :=
  match d with
  | DArticles _ => key = "all_articles"
  | DFirms _ => exists specialty location, key = lawFirmsKey specialty location
  | DSettlements _ => exists condition state, key = settlementKey condition state
  | DSearch _ => exists condition, key = searchKey condition
  end.

(** Every cache entry holds the kind of data its key stands for. *)
Definition wellKinded (s : State) : Prop :=
  forall key e, cache s !! key = Some e -> kinded key (data e).

(** A client's use of the facade: queries, cache clears, and time passing
    in between. *)
Inductive FacadeCall : Type :=
| CallGetAllArticles
| CallGetLawFirms (specialty location : option string)
| CallGetSettlementData (condition : string) (state : option string)
| CallSearchCondition (condition : string)
| CallClearCache
| TimePasses (now : Z).

(** The state after a call, [None] if the call threw. *)
Definition afterCall (env : Env) (call : FacadeCall) (s : State) : option State :=
  let finish {A} (run : Outcome A * State) :=
    match run with (Returns _, s') => Some s' | (Throws _, _) => None end in
  match call with
  | CallGetAllArticles => finish (getAllArticles env s)
  | CallGetLawFirms specialty location =>
      finish (getLawFirms env specialty location s)
  | CallGetSettlementData condition state =>
      finish (getSettlementData env condition state s)
  | CallSearchCondition condition => finish (searchCondition env condition s)
  | CallClearCache => finish (clearCache s)
  | TimePasses now => Some (withClock now s)
  end.

Fixpoint afterCalls (env : Env) (calls : list FacadeCall) (s : State)
  : option State :=
  match calls with
  | [] => Some s
  | call :: rest =>
      match afterCall env call s with
      | Some s' => afterCalls env rest s'
      | None => None
      end
  end.

(** The calls that are not about articles and do not clear the cache. *)
Definition otherQuery (call : FacadeCall) : Prop :=
  match call with
  | CallGetLawFirms _ _ | CallGetSettlementData _ _ | TimePasses _ => True
  | _ => False
  end.

(** ** Notions used in the further properties *)

(** [items.join(sep)] *)
Fixpoint joinWith (sep : string) (items : list string) : string :=
  match items with
  | [] => EmptyString
  | [item] => item
  | item :: rest => item +:+ sep +:+ joinWith sep rest
  end.

(** No character of [s] is one of the separators [,], [;] and [|]. *)
Fixpoint noListSep (s : string) : bool :=
  match s with
  | EmptyString => true
  | String c r => negb (isListSep c) && noListSep r
  end.

(** An item as [parseList] yields them: not empty, no white space at
    either end, no separator inside. *)
Definition listItem (item : string) : bool :=
  truthy item && String.eqb (trim item) item && noListSep item.

(** The key [mergeArticles] compares articles by. *)
Definition lowerTitle (article : Article.t) : string :=
  toLowerCase (Article.title article).

(** *** What a running service hands out

    The provenance of the lists the facade returns and keeps in its
    cache. *)

Definition builtInArticle (a : Article.t) : Prop :=
  Article.source a = "fallback".

Definition providerArticle (a : Article.t) : Prop :=
  sheetArticle a \/ hubspotArticle a.

(** A list of articles as [getAllArticles] composes it: never empty, and
    either the built-in articles or provider records only. *)
Definition articleList (l : list Article.t) : Prop :=
  l <> [] /\ (Forall builtInArticle l \/ Forall providerArticle l).

Definition providerFirm (f : LawFirm.t) : Prop := sheetFirm f \/ hubspotFirm f.

(** A list of firms as [getLawFirms] composes it: built-in firms (maybe
    none), or at least one provider record and provider records only. *)
Definition firmList (l : list LawFirm.t) : Prop :=
  Forall fallbackFirmRecord l \/ (l <> [] /\ Forall providerFirm l).

(** A settlement list that is the table entry or the default record of
    some condition. *)
Definition builtInSettlements (l : list SettlementItem) : Prop :=
  exists condition, l = getDefaultSettlementData condition.

(** A search result as the [try] block of [searchCondition] composes it. *)
Definition composed (r : SearchResult.t) : Prop :=
  Forall (fun a => matchesCondition (SearchResult.condition r) a = true)
         (SearchResult.articles r)
  /\ firmList (SearchResult.lawFirms r)
  /\ builtInSettlements (SearchResult.settlements r)
  /\ SearchResult.summary r
     = generateSummary (SearchResult.condition r) (SearchResult.articles r)
                       (SearchResult.settlements r).

(** What the facade writes under a key. *)
Definition facadeEntry (key : string) (d : CacheData) : Prop :=
  match d with
  | DArticles l => key = "all_articles" /\ articleList l
  | DFirms l =>
      (exists specialty location, key = lawFirmsKey specialty location)
      /\ firmList l
  | DSettlements l =>
      exists condition state,
        key = settlementKey condition state
        /\ l = getDefaultSettlementData condition
  | DSearch r => key = searchKey (SearchResult.condition r) /\ composed r
  end.

Definition facadeCache (s : State) : Prop :=
  forall key e, cache s !! key = Some e -> facadeEntry key (data e).

(** The placeholder the [catch] block of [searchCondition] returns. *)
Definition beingUpdated (condition : string) : SearchResult.t :=
  {| SearchResult.condition := condition;
     SearchResult.articles := [];
     SearchResult.lawFirms := [];
     SearchResult.settlements := [];
     SearchResult.summary :=
       "Information about " +:+ condition +:+ " is currently being updated." |}.

(** [m] makes the provider calls [l], in this order, and no other,
    whether it returns or throws. *)
Definition logs {A} (m : M A) (l : list ProviderCall) : Prop :=
  forall s r s', m s = (r, s') -> calls s' = calls s ++ l.

(** The provider calls of the two article methods, by configuration. *)
Definition sheetReads (s : State) : list ProviderCall :=
  if googleSheets s then List.map ReadSheetCall articleSheets else [].

Definition diseaseSearch (s : State) : list ProviderCall :=
  if hubspot s then [ SearchDiseasesCall "" None 50 ] else [].

(** An article as the mapping of a sheet row builds it. *)
Definition sheetRecord (a : Article.t) : Prop :=
  Article.slug a = createSlug (Article.title a)
  /\ (exists date, Article.date a = Some date)
  /\ (exists kind rest,
        In kind [ "medical"; "legal"; "manufacturer" ]
        /\ Article.category a = kind
        /\ Article.id a = IdStr ("sheets_" +:+ kind +:+ "_" +:+ rest))
  /\ Forall (fun item => listItem item = true)
            (Content.symptoms (Article.content a)
             ++ Content.causes (Article.content a)
             ++ Content.treatments (Article.content a)
             ++ Content.legalOptions (Article.content a)).

(** An article as [getArticlesFromHubSpot] builds it. *)
Definition hubspotRecord (a : Article.t) : Prop :=
  Article.slug a = createSlug (Article.title a)
  /\ truthy (Article.category a) = true
  /\ Article.description a = Content.overview (Article.content a)
  /\ Content.treatments (Article.content a) = []
  /\ Content.legalOptions (Article.content a) = []
  /\ Content.settlements (Article.content a) = "".

(** The built-in articles whose slug is not the slug of their title. *)
Definition ownSlug (a : Article.t) : bool :=
  negb (String.eqb (Article.slug a) (createSlug (Article.title a))).

(** *** The merge of settlement records, as a function of its input *)

(** The keys of an object in the order they were first assigned. *)
Definition addKey (keys : list string) (key : string) : list string :=
  if existsb (String.eqb key) keys then keys else keys ++ [key].

Definition keysInOrder (merged : list Settlement.t) : list string :=
  fold_left addKey (List.map groupKey merged) [].

(** The record kept for a group: its first record with a settlement
    range, and its first record when none has one. *)
Definition chosen (group : list Settlement.t) : option Settlement.t :=
  match group with
  | [] => None
  | first :: _ =>
      Some (match List.find complete group with
            | Some record => record
            | None => first
            end)
  end.

(** ** [GoogleSheetsConnector]: statistics, validation, comparison, sync *)

(** [String(n)] for a length. *)
Definition showNat (n : nat) : string :=
  NilZero.string_of_uint (Nat.to_uint n).

(** [a === b] on what [row[header]] yields: strings by content; two
    reads of an inherited name on rows are reads of the same member. *)
Definition sameValueZero (a b : JsObject.Lookup string) : bool :=
  match a, b with
  | JsObject.Own x, JsObject.Own y => String.eqb x y
  | JsObject.Inherited, JsObject.Inherited => true
  | JsObject.Undefined, JsObject.Undefined => true
  | _, _ => false
  end.

(** [[...new Set(values)]]: the values without repetition, each at the
    place of its first occurrence. *)
Fixpoint uniqueFrom (seen values : list (JsObject.Lookup string))
  : list (JsObject.Lookup string) :=
  match values with
  | [] => []
  | value :: rest =>
      if existsb (sameValueZero value) seen then uniqueFrom seen rest
      else value :: uniqueFrom (value :: seen) rest
  end.

Definition setOf (values : list (JsObject.Lookup string))
  : list (JsObject.Lookup string) :=
  uniqueFrom [] values.

(** [distinct] lists the values of [values] without repetition, in the
    order in which they first appear: it holds the same values, none
    twice, and what has appeared by any point of [values] is what an
    initial part of [distinct] holds. *)
Definition firstAppearances {A} (values distinct : list A) : Prop :=
  List.NoDup distinct
  /\ (forall value, In value distinct <-> In value values)
  /\ (forall seen, seen `prefix_of` values ->
        exists shown,
          shown `prefix_of` distinct
          /\ forall value, In value shown <-> In value seen).

(** [val !== ''] *)
Definition notEmptyString (value : JsObject.Lookup string) : bool :=
  match value with
  | JsObject.Own EmptyString => false
  | _ => true
  end.

Module ColumnStats.
Record t : Type := {
  name : string;
  totalValues : nat;
  uniqueValues : nat;
  emptyCells : Z;
  sampleValues : list (JsObject.Lookup string)
}.
End ColumnStats.

Module SheetStats.
Record t : Type := {
  sheetName : string;
  totalRows : nat;
  totalColumns : nat;
  columns : list ColumnStats.t;
  summary : string
}.
End SheetStats.

(** The callback of [headers.map] in [getSheetStatistics]. *)
Definition columnStats (data : list Row) (header : string) : ColumnStats.t :=
  let values :=
    List.filter notEmptyString
                (List.map (fun row => JsObject.get row header) data) in
  let uniqueValues := setOf values in
  {| ColumnStats.name := header;
     ColumnStats.totalValues := length values;
     ColumnStats.uniqueValues := length uniqueValues;
     ColumnStats.emptyCells := Z.of_nat (length data) - Z.of_nat (length values);
     ColumnStats.sampleValues := slice0 3 uniqueValues |}.

(** [getSheetStatistics] once [readSheet] has resolved. *)
Definition sheetStatistics (sheetName : string) (headers : list string)
    (data : list Row) : SheetStats.t :=
  match data with
  | [] =>
      {| SheetStats.sheetName := sheetName;
         SheetStats.totalRows := 0;
         SheetStats.totalColumns := 0;
         SheetStats.columns := [];
         SheetStats.summary := "No data found" |}
  | _ :: _ =>
      {| SheetStats.sheetName := sheetName;
         SheetStats.totalRows := length data;
         SheetStats.totalColumns := length headers;
         SheetStats.columns := List.map (columnStats data) headers;
         SheetStats.summary :=
           "Sheet contains " +:+ showNat (length data) +:+ " rows and "
           +:+ showNat (length headers) +:+ " columns" |}
  end.

Module SheetStructure.
Record t : Type := {
  isValid : bool;
  missingColumns : list string;
  foundColumns : list string
}.
End SheetStructure.

(** [expectedColumns.filter(col => !headers.some(header =>
    header.toLowerCase() === col.toLowerCase()))] *)
Definition missingColumns (headers expectedColumns : list string)
  : list string :=
  List.filter
    (fun col =>
       negb (existsb (fun header =>
                        String.eqb (toLowerCase header) (toLowerCase col))
                     headers))
    expectedColumns.

(** *** The HubSpot side of a comparison or a sync *)

(** A record as [getRecords] lists it: [properties] may be missing, and
    so may [name] and [company]. *)
Module HubSpotRecord.
Record t : Type := {
  properties : option (option string * option string)
}.
End HubSpotRecord.

(** [record.properties?.name || record.properties?.company || ''] *)
Definition recordIdentifier (record : HubSpotRecord.t) : string :=
  match HubSpotRecord.properties record with
  | None => ""
  | Some (name, company) =>
      if truthyField name then interpolate name
      else if truthyField company then interpolate company
      else ""
  end.

(** [row.Name || row.Company || row.Condition]; an absent property and
    an empty cell are both dropped by [filter(Boolean)]. *)
Definition rowIdentifier (row : Row) : string :=
  orElse (prop row "Name") (orElse (prop row "Company") (prop row "Condition")).

(** [a.toLowerCase().includes(b.toLowerCase()) ||
     b.toLowerCase().includes(a.toLowerCase())] *)
Definition related (a b : string) : bool :=
  includes (toLowerCase a) (toLowerCase b)
  || includes (toLowerCase b) (toLowerCase a).

(** [array.includes(id)] on strings *)
Definition arrayIncludes (l : list string) (id : string) : bool :=
  existsb (String.eqb id) l.

Module Comparison.
Record t : Type := {
  sheetName : string;
  hubspotObject : string;
  sheetCount : nat;
  hubspotCount : nat;
  matches : list string;
  missingInHubSpot : list string;
  missingInSheet : list string
}.
End Comparison.

(** [compareWithHubSpot] once the sheet and the records are there. *)
Definition compare (sheetName hubspotObject : string) (sheetData : list Row)
    (hubspotData : list HubSpotRecord.t) : Comparison.t :=
  let sheetIdentifiers := List.filter truthy (List.map rowIdentifier sheetData) in
  let hubspotIdentifiers :=
    List.filter truthy (List.map recordIdentifier hubspotData) in
  let matches :=
    List.filter
      (fun id => existsb (fun hubId => related hubId id) hubspotIdentifiers)
      sheetIdentifiers in
  let missingInHubSpot :=
    List.filter (fun id => negb (arrayIncludes matches id)) sheetIdentifiers in
  let missingInSheet :=
    List.filter
      (fun id => negb (existsb (fun found => related found id) matches))
      hubspotIdentifiers in
  {| Comparison.sheetName := sheetName;
     Comparison.hubspotObject := hubspotObject;
     Comparison.sheetCount := length sheetData;
     Comparison.hubspotCount := length hubspotData;
     Comparison.matches := matches;
     Comparison.missingInHubSpot := missingInHubSpot;
     Comparison.missingInSheet := missingInSheet |}.

(** A Number that holds an integer, as [parseInt] returns one: [NaN], an
    integer with its sign ([-0] is [Finite true 0]), or an infinity. *)
Inductive Number : Type :=
| NaN
| Finite (negative : bool) (magnitude : Z)
| Infinity (negative : bool).

(** The double nearest to an integer [m >= 0], [None] for [Infinity]. An
    integer of at most 53 bits is a double. A longer one keeps its
    leading 53 bits [q] and the exponent [e] of the last of them; the
    [e] bits below decide whether [q] is rounded up: more than half a
    unit of [q], or exactly half when [q] is odd (ties go to the even
    neighbour). What reaches 2^1024 is [Infinity]. *)
Definition roundToDouble (m : Z) : option Z :=
  let bits := Z.log2 m + 1 in
  if bits <=? 53 then Some m
  else
    let e := bits - 53 in
    let q := Z.shiftr m e in
    let rest := Z.land m (Z.ones e) in
    let half := Z.shiftl 1 (e - 1) in
    let q := if (half <? rest) || ((rest =? half) && Z.odd q)
             then q + 1 else q in
    let value := Z.shiftl q e in
    if value <? 2 ^ 1024 then Some value else None.

Definition toNumber (negative : bool) (m : Z) : Number :=
  match roundToDouble m with
  | Some value => Finite negative value
  | None => Infinity negative
  end.

(** [parseInt(text)] without a radix: leading white space, a sign, the
    prefix [0x] for base sixteen, then the longest run of digits, [NaN]
    when there is none. The result is the Number nearest to the integer
    the digits denote, with the sign read (Node rounds the whole run of
    digits correctly, however long it is). *)
Definition digitValue (radix : Z) (c : ascii) : option Z :=
  let n := Z.of_nat (nat_of_ascii c) in
  let value :=
    if (48 <=? n) && (n <=? 57) then Some (n - 48)
    else if (97 <=? n) && (n <=? 122) then Some (n - 87)
    else if (65 <=? n) && (n <=? 90) then Some (n - 55)
    else None in
  match value with
  | Some d => if d <? radix then Some d else None
  | None => None
  end.

Fixpoint digitsValue (radix : Z) (acc : option Z) (s : string) : option Z :=
  match s with
  | EmptyString => acc
  | String c r =>
      match digitValue radix c with
      | Some d =>
          digitsValue radix
            (Some (match acc with Some a => a * radix + d | None => d end)) r
      | None => acc
      end
  end.

Definition parseInt (text : string) : Number :=
  let s := trimStart text in
  let signed :=
    match s with
    | String "-" r => (true, r)
    | String "+" r => (false, r)
    | _ => (false, s)
    end in
  let based :=
    match snd signed with
    | String "0" (String "x" r) => (16, r)
    | String "0" (String "X" r) => (16, r)
    | r => (10, r)
    end in
  match digitsValue (fst based) None (snd based) with
  | Some value => toNumber (fst signed) value
  | None => NaN
  end.

(** [parseInt(text) || 0]: [NaN] and the two zeros are falsy. *)
Definition parseIntOrZero (text : string) : Number :=
  match parseInt text with
  | NaN => Finite false 0
  | Finite _ 0 => Finite false 0
  | number => number
  end.

(** What [mapToHubSpotFormat] builds: a company ([objectType:
    'companies']) or a note ([objectType: 'notes']). *)
Inductive HubSpotPayload : Type :=
| Company (name phone email city state : string)
          (success_rate years_experience contingency_fee : Number)
| Note (hs_note_body hs_timestamp : string).

Definition newline : string := String (ascii_of_nat 10) EmptyString.

(** [`${row.Company}`]: an absent property prints as [undefined]. *)
Definition cell (row : Row) (name : string) : string :=
  interpolate (JsObject.own row name).

(** The connector handed to [syncToHubSpot] and [compareWithHubSpot]: an
    object that may or may not have the two methods they call. What
    [createOrUpdateRecord] answers may depend on how many records it has
    been given before. *)
Record HubSpotTarget : Type := {
  createOrUpdateRecord : option (nat -> HubSpotPayload -> Outcome unit);
  getRecords : option (string -> Outcome (list HubSpotRecord.t))
}.

(** [HubSpotInjuryInfoConnector], the connector the server passes: the
    class defines neither of the two methods. *)
Definition hubSpotInjuryInfoConnector : HubSpotTarget :=
  {| createOrUpdateRecord := None; getRecords := None |}.

(** The two shapes of the object [syncToHubSpot] returns. *)
Inductive SyncResult : Type :=
| NoDataToSync
| SyncDone (synced errors total : nat) (syncType : string).

(** [result.success] and [result.message] *)
Definition success (result : SyncResult) : bool :=
  match result with NoDataToSync => false | SyncDone _ _ _ _ => true end.

Section SheetsTools.

Variable env : Env.

(** [getSheetStatistics(sheetName)] *)
Definition getSheetStatistics (sheetName : string) : M SheetStats.t :=
  sheet <- readSheet env sheetName ;;
  ret (sheetStatistics sheetName (fst sheet) (snd sheet)).


(** [compareWithHubSpot(sheetName, hubspotConnector, hubspotObject)] *)
Definition compareWithHubSpot (sheetName : string)
    (hubspotConnector : HubSpotTarget) (hubspotObject : string)
  : M Comparison.t :=
  sheet <- readSheet env sheetName ;;
  match getRecords hubspotConnector with
  | None => throw "TypeError: hubspotConnector.getRecords is not a function"
  | Some records =>
      hubspotData <- lift (records hubspotObject) ;;
      ret (compare sheetName hubspotObject (snd sheet) hubspotData)
  end.

(** [mapToHubSpotFormat(sheetName, row)], [None] for [null]. *)
Definition mapToHubSpotFormat (sheetName : string) (row : Row)
  : M (option HubSpotPayload) :=
  let kind := toLowerCase sheetName in
  if String.eqb kind "law firms" then
    ret (Some (Company (orElse (prop row "Name") "")
                       (orElse (prop row "Phone") "")
                       (orElse (prop row "Email") "")
                       (orElse (prop row "City") "")
                       (orElse (prop row "State") "")
                       (parseIntOrZero (prop row "Success Rate"))
                       (parseIntOrZero (prop row "Years Experience"))
                       (parseIntOrZero (prop row "Contingency Fee"))))
  else if String.eqb kind "manufacturer cases" then
    now <- newDateISO env ;;
    ret (Some (Note ("Manufacturer: " +:+ cell row "Company" +:+ newline
                     +:+ "Product: " +:+ cell row "Product" +:+ newline
                     +:+ "Injury: " +:+ cell row "Injury Type" +:+ newline
                     +:+ "Settlement: " +:+ cell row "Settlement Amount"
                     +:+ newline
                     +:+ "Year: " +:+ cell row "Year" +:+ newline
                     +:+ "Status: " +:+ cell row "Status")
                    now))
  else if String.eqb kind "medical information" then
    now <- newDateISO env ;;
    ret (Some (Note ("Condition: " +:+ cell row "Condition" +:+ newline
                     +:+ "Symptoms: " +:+ cell row "Symptoms" +:+ newline
                     +:+ "Treatments: " +:+ cell row "Treatments" +:+ newline
                     +:+ "Legal Considerations: "
                     +:+ cell row "Legal Considerations" +:+ newline
                     +:+ "Average Settlement: "
                     +:+ cell row "Average Settlement")
                    now))
  else ret None.

(** [await new Promise(resolve => setTimeout(resolve, ms))]: the clock
    moves on by the delay of the timer. *)
Definition sleep (ms : Z) : M unit :=
  fun s => (Returns tt, withClock (clock s + ms) s).

(** [await hubspotConnector.createOrUpdateRecord(hubspotData)], the
    call number [index] made to the connector. *)
Definition writeRecord (hubspotConnector : HubSpotTarget) (index : nat)
    (hubspotData : HubSpotPayload) : M unit :=
  match createOrUpdateRecord hubspotConnector with
  | None =>
      throw "TypeError: hubspotConnector.createOrUpdateRecord is not a function"
  | Some write => lift (write index hubspotData)
  end.

(** One round of [for (const row of data)] on the counters [synced] and
    [errors]; each call to the connector ends in one of them going up. *)
Definition syncRow (sheetName : string) (hubspotConnector : HubSpotTarget)
    (counters : nat * nat) (row : Row) : M (nat * nat) :=
  let (synced, errors) := counters in
  counters' <-
    tryCatch
      (hubspotData <- mapToHubSpotFormat sheetName row ;;
       match hubspotData with
       | Some payload =>
           _ <- writeRecord hubspotConnector (synced + errors) payload ;;
           ret (S synced, errors)
       | None => ret (synced, errors)
       end)
      (fun _ => ret (synced, S errors)) ;;
  _ <- sleep 200 ;;
  ret counters'.

(** [syncToHubSpot(sheetName, hubspotConnector, syncType = 'full')] *)
Definition syncToHubSpot (sheetName : string)
    (hubspotConnector : HubSpotTarget) (syncType : option string)
  : M SyncResult :=
  let syncType := match syncType with Some t => t | None => "full" end in
  sheet <- readSheet env sheetName ;;
  match snd sheet with
  | [] => ret NoDataToSync
  | _ :: _ =>
      counters <- foldM (syncRow sheetName hubspotConnector) (0%nat, 0%nat)
                        (snd sheet) ;;
      ret (SyncDone (fst counters) (snd counters) (length (snd sheet))
                    syncType)
  end.

End SheetsTools.

(** *** Notions for the statements about the connector *)

(** [row] is the object built from the header row and the cells of one
    row: one property per header name other than [__proto__], holding the
    cell under the last header of that name, or the empty string where
    the row has no cell there. *)
Definition rowOf (headers cells : list string) (row : Row) : Prop :=
  List.NoDup (List.map fst row)
  /\ (forall header,
        In header (List.map fst row)
        <-> In header headers /\ header <> "__proto__")
  /\ (forall index header,
        headers !! index = Some header -> header <> "__proto__" ->
        (forall later, (index < later)%nat -> headers !! later <> Some header) ->
        JsObject.own row header = Some (List.nth index cells "")).

(** The three sheet names [mapToHubSpotFormat] knows, in any letter
    case. *)
Definition knownSheet (sheetName : string) : bool :=
  existsb (String.eqb (toLowerCase sheetName))
          [ "law firms"; "manufacturer cases"; "medical information" ].

(** A spreadsheet whose sheet Law Firms lists two firms; every other
    provider call fails. *)
Definition lawFirmsEnv : Env :=
  {| sheetsRequest := fun _ sheetName =>
       if String.eqb sheetName "Law Firms"
       then Returns (Some [ [ "Name"; "City"; "Success Rate" ];
                            [ "Saddle Rock Legal Group"; "Denver"; "95%" ];
                            [ "Veterans Legal Services"; "Austin" ] ])
       else Throws "Google Sheets API Error: 400 - Unable to parse range";
     hubspotSearchDiseases := fun _ _ _ => Throws "HubSpot API error";
     hubspotFindLawFirms := fun _ _ _ _ => Throws "HubSpot API error";
     hubspotGetSettlementData := fun _ _ _ => Throws "HubSpot API error";
     latency := fun _ => 80;
     random := fun _ => "0.42";
     toISOString := fun _ => "2024-06-01T00:00:00.000Z";
     secondSettlesFirst := fun _ => false |}.

(** A connector with both methods: it lists two companies, and rejects
    the second record it is given. *)
Definition listingConnector : HubSpotTarget :=
  {| createOrUpdateRecord :=
       Some (fun index _ =>
               if (index =? 1)%nat then Throws "HubSpot API error: 409"
               else Returns tt);
     getRecords :=
       Some (fun _ =>
               Returns
                 [ {| HubSpotRecord.properties :=
                        Some (Some "SADDLE ROCK LEGAL GROUP LLP", None) |};
                   {| HubSpotRecord.properties :=
                        Some (None, Some "National Injury Law Center") |};
                   {| HubSpotRecord.properties := None |} ]) |}.

(** The decimal numeral of a natural number, as a cell holds it. *)
Definition showN (n : N) : string :=
  NilZero.string_of_uint (N.to_uint n).

(** The integer that decimal digits denote after the digits of [acc]. *)
Fixpoint numeralValue (d : Decimal.uint) (acc : Z) : Z :=
  match d with
  | Decimal.Nil => acc
  | Decimal.D0 l => numeralValue l (acc * 10 + 0)
  | Decimal.D1 l => numeralValue l (acc * 10 + 1)
  | Decimal.D2 l => numeralValue l (acc * 10 + 2)
  | Decimal.D3 l => numeralValue l (acc * 10 + 3)
  | Decimal.D4 l => numeralValue l (acc * 10 + 4)
  | Decimal.D5 l => numeralValue l (acc * 10 + 5)
  | Decimal.D6 l => numeralValue l (acc * 10 + 6)
  | Decimal.D7 l => numeralValue l (acc * 10 + 7)
  | Decimal.D8 l => numeralValue l (acc * 10 + 8)
  | Decimal.D9 l => numeralValue l (acc * 10 + 9)
  end.

(** What may follow a decimal numeral without changing what [parseInt]
    reads: nothing, or a character that is not a digit and not the [x] of
    a hexadecimal prefix. *)
Definition endsNumeral (suffix : string) : bool :=
  match suffix with
  | EmptyString => true
  | String c _ =>
      negb (isDigit c) && negb (Ascii.eqb c "x") && negb (Ascii.eqb c "X")
  end.

(** ** [HubSpotInjuryInfoConnector]: the text helpers of [searchDiseases] *)

Definition isLt (c : ascii) : bool := Ascii.eqb c "<".
Definition isGt (c : ascii) : bool := Ascii.eqb c ">".

(** [s] holds a [>]. *)
Fixpoint hasGt (s : string) : bool :=
  match s with
  | EmptyString => false
  | String c r => isGt c || hasGt r
  end.

(** [html.replace(/<[^>]*>/g, '')]: scanning from the left, a [<] that
    has a [>] somewhere after it opens a match that runs up to the first
    such [>]; a [<] with no [>] after it stays. [inTag] tells that the scan
    is inside a match. *)
Fixpoint stripTags (inTag : bool) (s : string) : string :=
  match s with
  | EmptyString => EmptyString
  | String c r =>
      if inTag then (if isGt c then stripTags false r else stripTags true r)
      else if isLt c && hasGt r then stripTags true r
      else String c (stripTags false r)
  end.

(** [text.replace(/\s+/g, ' ')]: every maximal run of white space becomes
    one space. [inRun] tells that the previous character belonged to a
    run already replaced. *)
Fixpoint collapseSpaces (inRun : bool) (s : string) : string :=
  match s with
  | EmptyString => EmptyString
  | String c r =>
      if isSpace c
      then (if inRun then collapseSpaces true r
            else String " " (collapseSpaces true r))
      else String c (collapseSpaces false r)
  end.

(** [cleanHtmlContent(html)] *)
Definition cleanHtmlContent (html : string) : string :=
  trim (collapseSpaces false (stripTags false html)).

(** [prefix] starts [s] when letter case is ignored ([prefix] is written
    in lower case); the rest of [s]. *)
Fixpoint afterIgnoringCase (prefix s : string) : option string :=
  match prefix, s with
  | EmptyString, _ => Some s
  | String _ _, EmptyString => None
  | String p prefix', String c s' =>
      if Ascii.eqb (lowerChar c) p then afterIgnoringCase prefix' s' else None
  end.

Fixpoint allSpaces (s : string) : bool :=
  match s with
  | EmptyString => true
  | String c r => isSpace c && allSpaces r
  end.

(** The words of [/\s*(Information|Guide|Overview)\s*$/i]. *)
Definition titleWords : list string := [ "information"; "guide"; "overview" ].

(** The pattern matches the whole of [s]: white space, one of the words
    in any letter case, white space up to the end. *)
Definition trailingWord (s : string) : bool :=
  existsb (fun word =>
             match afterIgnoringCase word (trimStart s) with
             | Some rest => allSpaces rest
             | None => false
             end)
          titleWords.

(** [title.replace(/\s*(Information|Guide|Overview)\s*$/i, '')]: the
    first position from which the pattern matches up to the end is where
    the title is cut. *)
Fixpoint cutTrailingWord (title : string) : string :=
  if trailingWord title then EmptyString
  else match title with
       | EmptyString => EmptyString
       | String c r => String c (cutTrailingWord r)
       end.

(** [extractDiseaseNameFromTitle(title)] *)
Definition extractDiseaseNameFromTitle (title : string) : string :=
  trim (cutTrailingWord title).

(** The table [categoryMap] of [extractCategoryFromTags]. *)
Definition categoryMap : list (string * string) :=
  [ ("cancer", "Cancer");
    ("lung-disease", "Lung Disease");
    ("occupational-disease", "Occupational Disease") ].

(** [extractCategoryFromTags(tags)]: the loop over [tags || []]. A tag
    whose lowercased text names an inherited member makes the lookup
    truthy, and that member is returned. *)
Fixpoint categoryOfTags (tags : list string) : JsObject.Lookup string :=
  match tags with
  | [] => JsObject.Own "Other"
  | tag :: rest =>
      match JsObject.get categoryMap (toLowerCase tag) with
      | JsObject.Own category =>
          if truthy category then JsObject.Own category else categoryOfTags rest
      | JsObject.Inherited => JsObject.Inherited
      | JsObject.Undefined => categoryOfTags rest
      end
  end.

Definition extractCategoryFromTags (tags : option (list string))
  : JsObject.Lookup string :=
  categoryOfTags (match tags with Some l => l | None => [] end).

(** *** Notions for the statements about the text helpers *)

(** No [<] of [s] has a [>] after it: [s] holds nothing that the tag
    pattern matches. *)
Fixpoint tagFree (s : string) : bool :=
  match s with
  | EmptyString => true
  | String c r => negb (isLt c && hasGt r) && tagFree r
  end.

(** The only white space in [s] is single spaces between other
    characters. [afterChar] tells that the previous character was not
    white space. *)
Fixpoint singleSpaced (afterChar : bool) (s : string) : bool :=
  match s with
  | EmptyString => afterChar
  | String c r =>
      if isSpace c
      then Ascii.eqb c " " && afterChar && singleSpaced false r
      else singleSpaced true r
  end.

(** A text as [cleanHtmlContent] leaves it. *)
Definition cleanText (s : string) : bool :=
  tagFree s && match s with EmptyString => true | _ => singleSpaced false s end.

(** Every white space character of [s] is a space that follows a
    character other than white space. [prevSpace] tells that the
    previous character was white space. *)
Fixpoint spacesApart (prevSpace : bool) (s : string) : bool :=
  match s with
  | EmptyString => true
  | String c r =>
      if isSpace c
      then Ascii.eqb c " " && negb prevSpace && spacesApart true r
      else spacesApart false r
  end.

(** No character of [s] is white space. *)
Fixpoint noSpace (s : string) : bool :=
  match s with
  | EmptyString => true
  | String c r => negb (isSpace c) && noSpace r
  end.

(** [s] and the strings left when characters are taken from its start. *)
Fixpoint suffixes (s : string) : list string :=
  s :: match s with
       | EmptyString => []
       | String _ r => suffixes r
       end.

(** The pattern of [extractDiseaseNameFromTitle] matches somewhere in
    [title]. *)
Definition endsInTitleWord (title : string) : bool :=
  existsb trailingWord (suffixes title).

(** The lowercased tags that end the loop of [extractCategoryFromTags]:
    the keys of the table and the two names of [Object.prototype] that
    are written in lower case. *)
Definition decidingLabels : list string :=
  List.map fst categoryMap ++ [ "constructor"; "__proto__" ].

Definition undecided (tag : string) : bool :=
  negb (existsb (String.eqb (toLowerCase tag)) decidingLabels).

(** * Properties *)

(** ** Slugs *)

Lemma slug_char_not_hyphen c :
  isSlugChar c = true -> Ascii.eqb c hyphen = false.
Proof.
  destruct c as [[] [] [] [] [] [] [] []]; vm_compute; congruence.
Qed.

Lemma append_nil_l (s : string) : EmptyString +:+ s = s.
Proof. reflexivity. Qed.

Lemma append_cons c (s r : string) : String c s +:+ r = String c (s +:+ r).
Proof. reflexivity. Qed.

Lemma append_empty_r (s : string) : s +:+ EmptyString = s.
Proof.
  induction s as [|c s IH]; [reflexivity|].
  now rewrite append_cons, IH.
Qed.

Lemma append_assoc_char (s : string) c r :
  (s +:+ String c EmptyString) +:+ r = s +:+ String c r.
Proof.
  induction s as [|d s IH]; [reflexivity|].
  now rewrite !append_cons, IH.
Qed.

Lemma append_truthy (s : string) c : truthy (s +:+ String c EmptyString) = true.
Proof. destruct s; reflexivity. Qed.

Lemma slugWordsAux_nonempty cur s :
  truthy cur = true -> slugWordsAux cur s <> [].
Proof.
  revert cur. induction s as [|c s IH]; intros cur Hcur; simpl.
  - rewrite Hcur. discriminate.
  - destruct (isSlugChar c).
    + apply IH, append_truthy.
    + rewrite Hcur. discriminate.
Qed.

(** After a run has been opened, nothing more is emitted exactly when no
    word follows. *)
Lemma replaceRuns_empty_iff s :
  replaceRuns true s = EmptyString <-> slugWordsAux EmptyString s = [].
Proof.
  induction s as [|c s IH]; simpl; [tauto|].
  destruct (isSlugChar c) eqn:Hc; [|exact IH].
  rewrite append_nil_l.
  split; [discriminate|].
  intros H. exfalso. revert H.
  apply (slugWordsAux_nonempty (String c EmptyString) s). reflexivity.
Qed.

Lemma joinHyphen_cons w ws :
  joinHyphen (w :: ws) =
  match ws with [] => w | _ :: _ => w +:+ String hyphen (joinHyphen ws) end.
Proof. destruct ws; reflexivity. Qed.

Lemma stripEnds_slug_char b c r :
  isSlugChar c = true ->
  stripEnds b (String c r) = String c (stripEnds false r).
Proof.
  intros Hc. simpl. now rewrite (slug_char_not_hyphen c Hc).
Qed.

Lemma stripEnds_inner_hyphen r :
  stripEnds false (String hyphen r) =
  if truthy r then String hyphen (stripEnds false r) else EmptyString.
Proof. destruct r; reflexivity. Qed.

(** The two scans composed, inside a word ([cur] is the word so far) and
    inside a run. *)
Lemma scans_words s :
  (forall cur, truthy cur = true ->
     cur +:+ stripEnds false (replaceRuns false s)
     = joinHyphen (slugWordsAux cur s))
  /\ stripEnds false (replaceRuns true s)
     = joinHyphen (slugWordsAux EmptyString s).
Proof.
  induction s as [|c s [IHword IHrun]].
  - split; [|reflexivity].
    intros cur Hcur. simpl. rewrite Hcur. apply append_empty_r.
  - cbn [replaceRuns slugWordsAux]. destruct (isSlugChar c) eqn:Hc.
    + assert (Hstep : forall cur,
               cur +:+ stripEnds false (String c (replaceRuns false s))
               = joinHyphen (slugWordsAux (cur +:+ String c EmptyString) s)).
      { intros cur. rewrite (stripEnds_slug_char _ _ _ Hc).
        rewrite <- append_assoc_char. apply IHword, append_truthy. }
      split.
      * intros cur _. apply Hstep.
      * apply (Hstep EmptyString).
    + split; [|exact IHrun].
      intros cur Hcur. rewrite Hcur, joinHyphen_cons, stripEnds_inner_hyphen.
      destruct (slugWordsAux EmptyString s) as [|w ws] eqn:Hws.
      * apply replaceRuns_empty_iff in Hws. rewrite Hws.
        apply append_empty_r.
      * destruct (replaceRuns true s) as [|d r] eqn:Hr.
        { apply replaceRuns_empty_iff in Hr. congruence. }
        cbn [truthy]. now rewrite IHrun.
Qed.

Lemma createSlug_words text : createSlug text = specSlug text.
Proof.
  unfold createSlug, specSlug, slugWords.
  destruct (toLowerCase text) as [|c s]; [reflexivity|].
  cbn [replaceRuns slugWordsAux]. destruct (isSlugChar c) eqn:Hc.
  - rewrite (stripEnds_slug_char _ _ _ Hc), append_nil_l.
    exact (proj1 (scans_words s) (String c EmptyString) eq_refl).
  - change (stripEnds true (String hyphen (replaceRuns true s)))
      with (stripEnds false (replaceRuns true s)).
    exact (proj2 (scans_words s)).
Qed.

Lemma allSlugChars_snoc cur c :
  allSlugChars cur = true -> isSlugChar c = true ->
  allSlugChars (cur +:+ String c EmptyString) = true.
Proof.
  intros Hcur Hc. induction cur as [|d cur IH].
  - rewrite append_nil_l. cbn [allSlugChars]. now rewrite Hc.
  - rewrite append_cons. cbn [allSlugChars] in *.
    apply andb_prop in Hcur as [Hd Hcur]. rewrite Hd. now apply IH.
Qed.

Lemma slugWordsAux_words cur s :
  allSlugChars cur = true ->
  Forall (fun w => truthy w = true /\ allSlugChars w = true)
         (slugWordsAux cur s).
Proof.
  revert cur. induction s as [|c s IH]; intros cur Hcur; cbn [slugWordsAux].
  - destruct (truthy cur) eqn:Ht; repeat constructor; assumption.
  - destruct (isSlugChar c) eqn:Hc.
    + apply IH. now apply allSlugChars_snoc.
    + destruct (truthy cur) eqn:Ht.
      * constructor; [now split | now apply IH].
      * now apply IH.
Qed.

Lemma validSlugFrom_word w rest b :
  truthy w = true -> allSlugChars w = true ->
  validSlugFrom b (w +:+ rest) = validSlugFrom true rest.
Proof.
  revert b. induction w as [|c w IH]; intros b Ht Hall; [discriminate|].
  rewrite append_cons. cbn in Hall. apply andb_prop in Hall as [Hc Hall].
  cbn [validSlugFrom]. rewrite Hc.
  destruct w as [|d w']; [reflexivity|]. now apply IH.
Qed.

Lemma validSlugFrom_join ws b :
  ws <> [] ->
  Forall (fun w => truthy w = true /\ allSlugChars w = true) ws ->
  validSlugFrom b (joinHyphen ws) = true.
Proof.
  intros Hne Hall. revert b.
  induction Hall as [|w ws [Ht Hw] Hws IH]; intros b; [contradiction|].
  rewrite joinHyphen_cons. destruct ws as [|w' ws'].
  - rewrite <- (append_empty_r w). now rewrite validSlugFrom_word.
  - rewrite validSlugFrom_word by assumption.
    cbn [validSlugFrom]. change (isSlugChar hyphen) with false.
    cbn. apply IH. discriminate.
Qed.

Lemma createSlug_valid text : validSlug (createSlug text) = true.
Proof.
  rewrite createSlug_words. unfold specSlug, slugWords, validSlug.
  pose proof (slugWordsAux_words EmptyString (toLowerCase text) eq_refl) as H.
  destruct (slugWordsAux EmptyString (toLowerCase text)) as [|w ws] eqn:E;
    [reflexivity|].
  destruct (joinHyphen (w :: ws)) eqn:J; [reflexivity|].
  rewrite <- J. apply validSlugFrom_join; [discriminate | exact H].
Qed.

(** C6. [createSlug] lowercases its input, turns every maximal run of
    characters outside [a-z0-9] into one hyphen and drops a leading and a
    trailing hyphen: its value is the list of the lowercased title's
    alphanumeric words joined by single hyphens. On
    "3M Combat Arms Earplugs!" it yields "3m-combat-arms-earplugs", two
    titles with the same lowercased words have the same slug, and a slug
    is made of characters of [a-z0-9] and of single hyphens between
    them. *)
Theorem createSlug_spec :
  (forall text, createSlug text = specSlug text)
  /\ createSlug "3M Combat Arms Earplugs!" = "3m-combat-arms-earplugs"
  /\ (forall t1 t2,
        slugWords (toLowerCase t1) = slugWords (toLowerCase t2) ->
        createSlug t1 = createSlug t2)
  /\ (forall text, validSlug (createSlug text) = true).
Proof.
  split; [exact createSlug_words|]. split; [reflexivity|].
  split; [|exact createSlug_valid].
  intros t1 t2 H. rewrite !createSlug_words. unfold specSlug. now rewrite H.
Qed.

Lemma createSlug_spec_witness :
  createSlug "Mesothelioma  Guide" = createSlug "mesothelioma-guide!".
Proof.
  apply (proj1 (proj2 (proj2 createSlug_spec))). reflexivity.
Defined.

(** ** Computations that always return *)

Lemma total_ret {A} (a : A) : total (ret a).
Proof. intros s. now exists a, s. Qed.

Lemma total_bind {A B} (m : M A) (k : A -> M B) :
  total m -> (forall a, total (k a)) -> total (bind m k).
Proof.
  intros Hm Hk s. unfold bind.
  destruct (Hm s) as (a & s' & ->). apply Hk.
Qed.

Lemma total_tryCatch {A} (body : M A) (handler : string -> M A) :
  (forall e, total (handler e)) -> total (tryCatch body handler).
Proof.
  intros Hh s. unfold tryCatch.
  destruct (body s) as [[a|e] s']; [now exists a, s' | apply Hh].
Qed.

Lemma total_getThis {A} (field : State -> A) : total (getThis field).
Proof. intros s. now exists (field s), s. Qed.

Lemma total_if {A} (b : bool) (m1 m2 : M A) :
  total m1 -> total m2 -> total (if b then m1 else m2).
Proof. now destruct b. Qed.

Lemma joinTwo_pair {A} (secondFirst : bool) (x y : A) :
  joinTwo secondFirst x y = Returns (x, y).
Proof. now destruct secondFirst. Qed.

Lemma promiseAll2_returns {A} env (first second : M A) s x s1 y s2 :
  first s = (Returns x, s1) ->
  second (withClock (clock s) s1) = (Returns y, s2) ->
  promiseAll2 env first second s = (Returns (x, y), joined s s1 s2).
Proof.
  intros H1 H2. unfold promiseAll2. rewrite H1, H2. cbn.
  now rewrite joinTwo_pair.
Qed.

Lemma total_promiseAll2 {A} env (first second : M A) :
  total first -> total second -> total (promiseAll2 env first second).
Proof.
  intros H1 H2 s.
  destruct (H1 s) as (x & s1 & E1).
  destruct (H2 (withClock (clock s) s1)) as (y & s2 & E2).
  exists (x, y), (joined s s1 s2).
  now apply (promiseAll2_returns env first second s x s1).
Qed.

(** The provider-facing methods catch whatever goes wrong and resolve with
    a list. *)
Lemma total_getArticlesFromGoogleSheets env :
  total (getArticlesFromGoogleSheets env).
Proof.
  unfold getArticlesFromGoogleSheets.
  apply total_bind; [apply total_getThis|]. intros configured.
  apply total_if; [apply total_ret|].
  apply total_tryCatch. intros _. apply total_ret.
Qed.

Lemma total_getArticlesFromHubSpot env : total (getArticlesFromHubSpot env).
Proof.
  unfold getArticlesFromHubSpot.
  apply total_bind; [apply total_getThis|]. intros configured.
  apply total_if; [apply total_ret|].
  apply total_tryCatch. intros _. apply total_ret.
Qed.

Lemma total_getLawFirmsFromGoogleSheets env specialty location :
  total (getLawFirmsFromGoogleSheets env specialty location).
Proof.
  unfold getLawFirmsFromGoogleSheets.
  apply total_bind; [apply total_getThis|]. intros configured.
  apply total_if; [apply total_ret|].
  apply total_tryCatch. intros _. apply total_ret.
Qed.

Lemma total_getLawFirmsFromHubSpot env specialty location :
  total (getLawFirmsFromHubSpot env specialty location).
Proof.
  unfold getLawFirmsFromHubSpot.
  apply total_bind; [apply total_getThis|]. intros configured.
  apply total_if; [apply total_ret|].
  apply total_tryCatch. intros _. apply total_ret.
Qed.

Lemma total_getSettlementDataFromGoogleSheets env condition state :
  total (getSettlementDataFromGoogleSheets env condition state).
Proof.
  unfold getSettlementDataFromGoogleSheets.
  apply total_bind; [apply total_getThis|]. intros configured.
  apply total_if; [apply total_ret|].
  apply total_tryCatch. intros _. apply total_ret.
Qed.

Lemma total_getSettlementDataFromHubSpot env condition state :
  total (getSettlementDataFromHubSpot env condition state).
Proof.
  unfold getSettlementDataFromHubSpot.
  apply total_bind; [apply total_getThis|]. intros configured.
  apply total_if; [apply total_ret|].
  apply total_tryCatch. intros _. apply total_ret.
Qed.

(** ** The cache *)

Lemma getFromCache_hit key s e :
  cache s !! key = Some e -> fresh s e ->
  getFromCache key s = (Returns (Some (data e)), s).
Proof.
  unfold getFromCache, fresh. intros -> H.
  apply Z.ltb_lt in H. now rewrite H.
Qed.

Lemma getFromCache_stale key s e :
  cache s !! key = Some e -> ~ fresh s e ->
  getFromCache key s = (Returns None, withCache (delete key (cache s)) s).
Proof.
  unfold getFromCache, fresh. intros -> H.
  apply Z.ltb_nlt in H. now rewrite H.
Qed.

Lemma getFromCache_absent key s :
  cache s !! key = None ->
  getFromCache key s = (Returns None, withCache (delete key (cache s)) s).
Proof. unfold getFromCache. now intros ->. Qed.

(** The three ways a read can go. *)
Lemma getFromCache_cases key s :
  (exists e, cache s !! key = Some e /\ fresh s e
             /\ getFromCache key s = (Returns (Some (data e)), s))
  \/ ((forall e, cache s !! key = Some e -> ~ fresh s e)
      /\ getFromCache key s
         = (Returns None, withCache (delete key (cache s)) s)).
Proof.
  destruct (cache s !! key) as [e|] eqn:He.
  - destruct (Z_lt_dec (clock s - timestamp e) cacheTimeout) as [Hf|Hf].
    + left. exists e. auto using getFromCache_hit.
    + right. split; [|now apply (getFromCache_stale key s e)].
      intros e' [= <-]. exact Hf.
  - right. split; [discriminate | now apply getFromCache_absent].
Qed.

(** C4, as the code has it. [getFromCache(key)] takes no ttl: it returns
    the stored data exactly when an entry is stored under the key and
    [now - timestamp < cacheTimeout], the fixed five minutes, and signals
    a miss otherwise. A hit leaves the store as it is; a miss deletes the
    entry under that key, so an expired entry is evicted by the read; the
    entries under all other keys are never touched. [setCache(key, data)]
    puts the data under the key with the current time, whatever was there,
    and [clearCache()] empties the store. *)
Theorem getFromCache_spec (key : string) (s : State) :
  (forall d,
     fst (getFromCache key s) = Returns (Some d)
     <-> exists e, cache s !! key = Some e /\ data e = d
                   /\ clock s - timestamp e < cacheTimeout)
  /\ (fst (getFromCache key s) = Returns None
      <-> forall e, cache s !! key = Some e ->
                    ~ clock s - timestamp e < cacheTimeout)
  /\ (forall d, fst (getFromCache key s) = Returns (Some d) ->
                snd (getFromCache key s) = s)
  /\ (fst (getFromCache key s) = Returns None ->
      snd (getFromCache key s) = withCache (delete key (cache s)) s
      /\ cache (snd (getFromCache key s)) !! key = None)
  /\ (forall other, other <> key ->
        cache (snd (getFromCache key s)) !! other = cache s !! other)
  /\ (forall d,
        cache (snd (setCache key d s)) !! key
        = Some {| data := d; timestamp := clock s |}
        /\ forall other, other <> key ->
             cache (snd (setCache key d s)) !! other = cache s !! other)
  /\ cache (snd (clearCache s)) = ∅.
Proof.
  assert (Hset : forall d,
            cache (snd (setCache key d s)) !! key
            = Some {| data := d; timestamp := clock s |}
            /\ forall other, other <> key ->
                 cache (snd (setCache key d s)) !! other = cache s !! other).
  { intros d. cbn. split; [apply lookup_insert_eq|].
    intros other Hne. apply lookup_insert_ne. congruence. }
  destruct (getFromCache_cases key s) as [(e & He & Hf & ->)|[Hstale ->]];
    cbn [fst snd];
    refine (conj _ (conj _ (conj _ (conj _ (conj _ (conj Hset eq_refl)))))).
  - intros d. split.
    + intros [= <-]. now exists e.
    + intros (e' & He' & <- & _). congruence.
  - split; [discriminate|]. intros H. exfalso. exact (H e He Hf).
  - reflexivity.
  - discriminate.
  - reflexivity.
  - intros d. split; [discriminate|].
    intros (e & He & _ & Hf). exfalso. exact (Hstale e He Hf).
  - split; [intros _; exact Hstale | reflexivity].
  - discriminate.
  - intros _. split; [reflexivity | apply lookup_delete_eq].
  - intros other Hne. cbn. now apply lookup_delete_ne.
Qed.

Lemma getFromCache_spec_witness :
  fst (getFromCache "all_articles" staleState) = Returns None
  /\ cache (snd (getFromCache "all_articles" staleState)) !! "all_articles"
     = None.
Proof.
  pose proof (getFromCache_spec "all_articles" staleState)
    as (_ & Hmiss & _ & Hevict & _ & _ & _).
  assert (H : fst (getFromCache "all_articles" staleState) = Returns None).
  { apply Hmiss. intros e He.
    unfold staleState in He. cbn in He.
    rewrite lookup_singleton_eq in He. injection He as <-. cbn.
    unfold cacheTimeout. lia. }
  split; [exact H | exact (proj2 (Hevict H))].
Defined.

(** C4 as stated fails: a read of an expired entry removes it from the
    store. *)
Lemma getFromCache_evicts_expired :
  ~ (forall key s, cache (snd (getFromCache key s)) = cache s).
Proof.
  intros H. specialize (H "all_articles" staleState).
  assert (E : cache (snd (getFromCache "all_articles" staleState))
              !! "all_articles" = None).
  { rewrite (getFromCache_stale "all_articles" staleState
               {| data := DArticles []; timestamp := 0 |}).
    - cbn. apply lookup_delete_eq.
    - unfold staleState. cbn. apply lookup_singleton_eq.
    - unfold fresh, staleState, cacheTimeout. cbn. lia. }
  rewrite H in E. unfold staleState in E. cbn in E.
  rewrite lookup_singleton_eq in E. discriminate.
Qed.

(** ** One run of each facade method *)

Lemma stored_lookup key d s :
  cache (stored key d s) !! key = Some {| data := d; timestamp := clock s |}.
Proof. unfold stored. cbn. apply lookup_insert_eq. Qed.

Lemma getAllArticles_miss env s s0 x s1 y s2 :
  getFromCache "all_articles" s = (Returns None, s0) ->
  getArticlesFromGoogleSheets env s0 = (Returns x, s1) ->
  getArticlesFromHubSpot env (withClock (clock s0) s1) = (Returns y, s2) ->
  getAllArticles env s
  = (Returns (articlesOutcome env x y (joined s0 s1 s2)),
     stored "all_articles"
            (DArticles (articlesOutcome env x y (joined s0 s1 s2)))
            (joined s0 s1 s2)).
Proof.
  intros Hmiss Hx Hy. unfold getAllArticles, bind at 1. rewrite Hmiss.
  unfold tryCatch, bind at 1.
  rewrite (promiseAll2_returns env _ _ s0 x s1 y s2 Hx Hy).
  unfold articlesOutcome. cbn [fst snd].
  destruct (length (mergeArticles x y) =? 0)%nat; reflexivity.
Qed.

Lemma getAllArticles_hit env s e hit :
  cache s !! "all_articles" = Some e -> fresh s e -> data e = DArticles hit ->
  getAllArticles env s = (Returns hit, s).
Proof.
  intros He Hf Hd. unfold getAllArticles, bind.
  rewrite (getFromCache_hit _ _ _ He Hf), Hd. reflexivity.
Qed.

(** A run of [getAllArticles] that returns leaves its result in the
    cache. *)
Lemma getAllArticles_stores env s r s' :
  getAllArticles env s = (Returns r, s') ->
  exists e, cache s' !! "all_articles" = Some e /\ data e = DArticles r.
Proof.
  intros Hrun.
  destruct (getFromCache_cases "all_articles" s)
    as [(e & He & Hf & Hhit)|[_ Hmiss]].
  - unfold getAllArticles, bind in Hrun. rewrite Hhit in Hrun.
    destruct (data e) as [hit| | |] eqn:Hd; try discriminate.
    injection Hrun as <- <-. now exists e.
  - destruct (total_getArticlesFromGoogleSheets env
                (withCache (delete "all_articles" (cache s)) s))
      as (x & s1 & Hx).
    destruct (total_getArticlesFromHubSpot env (withClock (clock s) s1)) as (y & s2 & Hy).
    rewrite (getAllArticles_miss env s _ x s1 y s2 Hmiss Hx Hy) in Hrun.
    injection Hrun as <- <-. eexists. split; [apply stored_lookup|reflexivity].
Qed.

(** C5. Once [getAllArticles()] has returned, its result is in the cache;
    a second call made while [now - timestamp < cacheTimeout] (five
    minutes), with the cache not cleared in between, returns the very same
    list and leaves the whole state, the log of provider calls included,
    as it was: it calls no provider. *)
Theorem getAllArticles_twice env s r s1 :
  getAllArticles env s = (Returns r, s1) ->
  exists e,
    cache s1 !! "all_articles" = Some e /\ data e = DArticles r
    /\ forall now,
         now - timestamp e < cacheTimeout ->
         getAllArticles env (withClock now s1) = (Returns r, withClock now s1)
         /\ calls (snd (getAllArticles env (withClock now s1))) = calls s1.
Proof.
  intros Hrun.
  destruct (getAllArticles_stores env s r s1 Hrun) as (e & He & Hd).
  exists e. repeat split; trivial.
  - now apply (getAllArticles_hit env (withClock now s1) e r).
  - rewrite (getAllArticles_hit env (withClock now s1) e r); trivial.
Qed.

Lemma getAllArticles_twice_witness :
  let first := getAllArticles sampleEnv sampleStart in
  exists r,
    fst first = Returns r
    /\ getAllArticles sampleEnv (withClock 299000 (snd first))
       = (Returns r, withClock 299000 (snd first)).
Proof.
  intros first.
  exists (mergeArticles sampleSheetsArticles sampleHubspotArticles).
  split; [vm_compute; reflexivity|].
  destruct (getAllArticles_twice sampleEnv sampleStart
              (mergeArticles sampleSheetsArticles sampleHubspotArticles)
              (snd first))
    as (e & He & _ & Hsecond).
  - vm_compute. reflexivity.
  - apply Hsecond.
    assert (Ht : timestamp e = clock (snd first)).
    { unfold first in He. vm_compute in He. injection He as <-. reflexivity. }
    rewrite Ht. vm_compute. reflexivity.
Defined.

(** *** Law firms *)

Lemma getLawFirms_miss env specialty location s s0 x s1 y s2 :
  getFromCache (lawFirmsKey specialty location) s = (Returns None, s0) ->
  getLawFirmsFromGoogleSheets env specialty location s0 = (Returns x, s1) ->
  getLawFirmsFromHubSpot env specialty location (withClock (clock s0) s1)
  = (Returns y, s2) ->
  getLawFirms env specialty location s
  = (Returns (firmsOutcome specialty x y),
     stored (lawFirmsKey specialty location)
            (DFirms (firmsOutcome specialty x y)) (joined s0 s1 s2)).
Proof.
  intros Hmiss Hx Hy. unfold getLawFirms, bind at 1. rewrite Hmiss.
  unfold tryCatch, bind at 1.
  rewrite (promiseAll2_returns env _ _ s0 x s1 y s2 Hx Hy).
  unfold firmsOutcome. cbn [fst snd].
  destruct (length (x ++ y) =? 0)%nat; reflexivity.
Qed.

Lemma getLawFirms_hit env specialty location s e hit :
  cache s !! lawFirmsKey specialty location = Some e -> fresh s e ->
  data e = DFirms hit ->
  getLawFirms env specialty location s = (Returns hit, s).
Proof.
  intros He Hf Hd. unfold getLawFirms, bind.
  rewrite (getFromCache_hit _ _ _ He Hf), Hd. reflexivity.
Qed.

Lemma getLawFirms_stores env specialty location s r s' :
  getLawFirms env specialty location s = (Returns r, s') ->
  exists e, cache s' !! lawFirmsKey specialty location = Some e
            /\ data e = DFirms r.
Proof.
  intros Hrun.
  destruct (getFromCache_cases (lawFirmsKey specialty location) s)
    as [(e & He & Hf & Hhit)|[_ Hmiss]].
  - unfold getLawFirms, bind in Hrun. rewrite Hhit in Hrun.
    destruct (data e) as [|hit| |] eqn:Hd; try discriminate.
    injection Hrun as <- <-. now exists e.
  - destruct (total_getLawFirmsFromGoogleSheets env specialty location
                (withCache (delete (lawFirmsKey specialty location) (cache s)) s))
      as (x & s1 & Hx).
    destruct (total_getLawFirmsFromHubSpot env specialty location (withClock (clock s) s1))
      as (y & s2 & Hy).
    rewrite (getLawFirms_miss env _ _ s _ x s1 y s2 Hmiss Hx Hy) in Hrun.
    injection Hrun as <- <-. eexists. split; [apply stored_lookup|reflexivity].
Qed.

(** ** Settlement data from the two providers *)

(** Whatever [searchSheet] returns has the properties [results] and
    [total] (and [query] and [column] after a search), and no property
    [data]. *)
Lemma searchRows_no_data sheetName headers rows query column limit found :
  searchRows sheetName headers rows query column limit = Returns found ->
  JsObject.get found "data" = JsObject.Undefined.
Proof.
  unfold searchRows. destruct rows as [|row rows].
  - intros [= <-]. reflexivity.
  - match goal with
    | |- match ?f with _ => _ end = _ -> _ => destruct f as [filtered|e]
    end; [|discriminate].
    intros [= <-]. reflexivity.
Qed.

Lemma getSettlementDataFromGoogleSheets_empty env condition state s :
  exists s', getSettlementDataFromGoogleSheets env condition state s
             = (Returns [], s').
Proof.
  unfold getSettlementDataFromGoogleSheets, bind at 1, getThis.
  destruct (googleSheets s); cbn [negb]; [|now exists s].
  unfold tryCatch, bind, searchSheet, bind, lift.
  destruct (readSheet env "Settlements" s) as [[sheet|e] s1];
    [|now exists s1].
  destruct (searchRows "Settlements" (fst sheet) (snd sheet) condition
                       (Some "Condition") (Some 20)) as [found|e] eqn:Hfound;
    [|now exists s1].
  rewrite (searchRows_no_data _ _ _ _ _ _ _ Hfound). now exists s1.
Qed.

Lemma getSettlementDataFromHubSpot_empty env condition state s :
  exists s', getSettlementDataFromHubSpot env condition state s
             = (Returns [], s').
Proof.
  unfold getSettlementDataFromHubSpot, bind at 1, getThis.
  destruct (hubspot s); cbn [negb]; [|now exists s].
  unfold tryCatch, bind, callProvider.
  destruct (hubspotGetSettlementData env (length (calls s)) condition state);
    eexists; reflexivity.
Qed.

Lemma getSettlementData_miss env condition state s s0 x s1 y s2 :
  getFromCache (settlementKey condition state) s = (Returns None, s0) ->
  getSettlementDataFromGoogleSheets env condition state s0 = (Returns x, s1) ->
  getSettlementDataFromHubSpot env condition state (withClock (clock s0) s1)
  = (Returns y, s2) ->
  getSettlementData env condition state s
  = (Returns (settlementOutcome condition x y),
     match mergeSettlementData x y with
     | Returns _ =>
         stored (settlementKey condition state)
                (DSettlements (settlementOutcome condition x y))
                (joined s0 s1 s2)
     | Throws _ => joined s0 s1 s2
     end).
Proof.
  intros Hmiss Hx Hy. unfold getSettlementData, bind at 1. rewrite Hmiss.
  unfold tryCatch, bind at 1.
  rewrite (promiseAll2_returns env _ _ s0 x s1 y s2 Hx Hy).
  unfold settlementOutcome, bind, lift. cbn [fst snd].
  destruct (mergeSettlementData x y) as [[|record records]|e]; reflexivity.
Qed.

Lemma getSettlementData_hit env condition state s e hit :
  cache s !! settlementKey condition state = Some e -> fresh s e ->
  data e = DSettlements hit ->
  getSettlementData env condition state s = (Returns hit, s).
Proof.
  intros He Hf Hd. unfold getSettlementData, bind.
  rewrite (getFromCache_hit _ _ _ He Hf), Hd. reflexivity.
Qed.

(** ** What the provider-facing methods leave alone

    They read [this.googleSheets] and [this.hubspot] and talk to the
    providers; the cache and the two connectors stay as they are. *)

Lemma sameService_refl s : sameService s s.
Proof. now repeat split. Qed.

Lemma sameService_trans s1 s2 s3 :
  sameService s1 s2 -> sameService s2 s3 -> sameService s1 s3.
Proof. unfold sameService. intuition congruence. Qed.

Lemma keeps_ret {A} (a : A) : keepsService (ret a).
Proof. intros s r s' [= _ <-]. apply sameService_refl. Qed.

Lemma keeps_throw {A} e : keepsService (@throw A e).
Proof. intros s r s' [= _ <-]. apply sameService_refl. Qed.

Lemma keeps_lift {A} (o : Outcome A) : keepsService (lift o).
Proof. intros s r s' [= _ <-]. apply sameService_refl. Qed.

Lemma keeps_getThis {A} (field : State -> A) : keepsService (getThis field).
Proof. intros s r s' [= _ <-]. apply sameService_refl. Qed.

Lemma keeps_bind {A B} (m : M A) (k : A -> M B) :
  keepsService m -> (forall a, keepsService (k a)) -> keepsService (bind m k).
Proof.
  intros Hm Hk s r s'. unfold bind.
  destruct (m s) as [[a|e] s1] eqn:E.
  - intros H. eapply sameService_trans; [eapply Hm, E | eapply Hk, H].
  - intros [= _ <-]. eapply Hm, E.
Qed.

Lemma keeps_tryCatch {A} (body : M A) (handler : string -> M A) :
  keepsService body -> (forall e, keepsService (handler e)) ->
  keepsService (tryCatch body handler).
Proof.
  intros Hb Hh s r s'. unfold tryCatch.
  destruct (body s) as [[a|e] s1] eqn:E.
  - intros [= _ <-]. eapply Hb, E.
  - intros H. eapply sameService_trans; [eapply Hb, E | eapply Hh, H].
Qed.

Lemma keeps_if {A} (b : bool) (m1 m2 : M A) :
  keepsService m1 -> keepsService m2 -> keepsService (if b then m1 else m2).
Proof. now destruct b. Qed.

Lemma keeps_mapM {A B} (f : A -> M B) (l : list A) :
  (forall a, keepsService (f a)) -> keepsService (mapM f l).
Proof.
  intros Hf. induction l as [|a l IH]; cbn [mapM]; [apply keeps_ret|].
  apply keeps_bind; [apply Hf|]. intros b.
  apply keeps_bind; [apply IH|]. intros bs. apply keeps_ret.
Qed.

Lemma keeps_foldM {A B} (f : B -> A -> M B) (l : list A) acc :
  (forall b a, keepsService (f b a)) -> keepsService (foldM f acc l).
Proof.
  intros Hf. revert acc.
  induction l as [|a l IH]; intros acc; cbn [foldM]; [apply keeps_ret|].
  apply keeps_bind; [apply Hf | intros b; apply IH].
Qed.

Lemma keeps_callProvider {A} env call (answer : nat -> Outcome A) :
  keepsService (callProvider env call answer).
Proof. intros s r s' [= _ <-]. now repeat split. Qed.

Lemma keeps_mathRandom env : keepsService (mathRandom env).
Proof. intros s r s' [= _ <-]. now repeat split. Qed.

Lemma keeps_newDateISO env : keepsService (newDateISO env).
Proof. intros s r s' [= _ <-]. apply sameService_refl. Qed.

Lemma keeps_orRandom env v : keepsService (orRandom env v).
Proof.
  unfold orRandom. apply keeps_if; [apply keeps_ret | apply keeps_mathRandom].
Qed.

Lemma keeps_orNow env v : keepsService (orNow env v).
Proof.
  unfold orNow. apply keeps_if; [apply keeps_ret | apply keeps_newDateISO].
Qed.

Lemma promiseAll2_state {A} env (first second : M A) s r s' :
  promiseAll2 env first second s = (r, s') ->
  exists t, s' = joinedAt t s (snd (first s))
                          (snd (second (withClock (clock s) (snd (first s))))).
Proof.
  unfold promiseAll2.
  destruct (first s) as [r1 s1]. cbn [snd].
  destruct (second (withClock (clock s) s1)) as [r2 s2]. cbn [snd].
  destruct (firstRejection _) as [[t e]|].
  - intros [= _ <-]. now exists t.
  - destruct r1, r2; intros [= _ <-]; now eexists.
Qed.

Lemma keeps_promiseAll2 {A} env (first second : M A) :
  keepsService first -> keepsService second ->
  keepsService (promiseAll2 env first second).
Proof.
  intros H1 H2 s r s' H.
  destruct (promiseAll2_state env first second s r s' H) as (t & ->).
  destruct (first s) as [r1 s1] eqn:E1. cbn [snd].
  destruct (second (withClock (clock s) s1)) as [r2 s2] eqn:E2. cbn [snd].
  eapply sameService_trans; [eapply H1, E1|].
  exact (H2 _ _ _ E2).
Qed.

(** The state after a join has the cache and the connectors the two
    promises found. *)
Lemma joined_sameService {A} (first second : M A) s r1 s1 r2 s2 :
  keepsService first -> keepsService second ->
  first s = (r1, s1) -> second (withClock (clock s) s1) = (r2, s2) ->
  sameService s (joined s s1 s2).
Proof.
  intros H1 H2 E1 E2.
  destruct (H1 _ _ _ E1) as (Hc1 & Hg1 & Hh1).
  destruct (H2 _ _ _ E2) as (Hc2 & Hg2 & Hh2).
  cbn in *. repeat split; cbn; congruence.
Qed.

Ltac keeps_step :=
  lazymatch goal with
  | |- forall _, _ => intro
  | |- keepsService (ret _) => apply keeps_ret
  | |- keepsService (throw _) => apply keeps_throw
  | |- keepsService (lift _) => apply keeps_lift
  | |- keepsService (getThis _) => apply keeps_getThis
  | |- keepsService (callProvider _ _ _) => apply keeps_callProvider
  | |- keepsService (mathRandom _) => apply keeps_mathRandom
  | |- keepsService (newDateISO _) => apply keeps_newDateISO
  | |- keepsService (orRandom _ _) => apply keeps_orRandom
  | |- keepsService (orNow _ _) => apply keeps_orNow
  | |- keepsService (bind _ _) => apply keeps_bind
  | |- keepsService (tryCatch _ _) => apply keeps_tryCatch
  | |- keepsService (if _ then _ else _) => apply keeps_if
  | |- keepsService (mapM _ _) => apply keeps_mapM
  | |- keepsService (foldM _ _ _) => apply keeps_foldM
  | |- keepsService (promiseAll2 _ _ _) => apply keeps_promiseAll2
  end.

Ltac keeps := repeat keeps_step.

Lemma keeps_readSheet env sheetName : keepsService (readSheet env sheetName).
Proof.
  unfold readSheet, makeRequest. apply keeps_bind; [keeps|].
  intros [[|headers rows]|]; keeps.
Qed.

Lemma keeps_searchSheet env sheetName query column limit :
  keepsService (searchSheet env sheetName query column limit).
Proof. unfold searchSheet. keeps. apply keeps_readSheet. Qed.

Lemma keeps_mapSheetRowToArticle env row sheetName :
  keepsService (mapSheetRowToArticle env row sheetName).
Proof.
  unfold mapSheetRowToArticle. apply keeps_tryCatch; [|keeps].
  repeat (apply keeps_if; [keeps|]). keeps.
Qed.

Lemma keeps_getArticlesFromGoogleSheets env :
  keepsService (getArticlesFromGoogleSheets env).
Proof.
  unfold getArticlesFromGoogleSheets, readArticleSheet. keeps.
  - apply keeps_readSheet.
  - apply keeps_mapSheetRowToArticle.
Qed.

Lemma keeps_getArticlesFromHubSpot env :
  keepsService (getArticlesFromHubSpot env).
Proof. unfold getArticlesFromHubSpot. keeps. Qed.

Lemma keeps_getLawFirmsFromGoogleSheets env specialty location :
  keepsService (getLawFirmsFromGoogleSheets env specialty location).
Proof.
  unfold getLawFirmsFromGoogleSheets, firmOfRow. keeps. apply keeps_readSheet.
Qed.

Lemma keeps_getLawFirmsFromHubSpot env specialty location :
  keepsService (getLawFirmsFromHubSpot env specialty location).
Proof. unfold getLawFirmsFromHubSpot. keeps. Qed.

Lemma keeps_getSettlementDataFromGoogleSheets env condition state :
  keepsService (getSettlementDataFromGoogleSheets env condition state).
Proof.
  unfold getSettlementDataFromGoogleSheets.
  apply keeps_bind; [keeps|]. intros configured.
  apply keeps_if; [keeps|]. apply keeps_tryCatch; [|keeps].
  apply keeps_bind; [apply keeps_searchSheet|]. intros found.
  destruct (JsObject.get found "data") as [[]| |]; keeps.
Qed.

Lemma keeps_getSettlementDataFromHubSpot env condition state :
  keepsService (getSettlementDataFromHubSpot env condition state).
Proof. unfold getSettlementDataFromHubSpot. keeps. Qed.

(** ** What a method returns *)

Lemma ensures_ret {A} (a : A) (P : A -> Prop) : P a -> ensures (ret a) P.
Proof. intros H s a' s' [= <- _]. exact H. Qed.

Lemma ensures_throw {A} e (P : A -> Prop) : ensures (throw e) P.
Proof. intros s a s'. discriminate. Qed.

Lemma ensures_bind {A B} (m : M A) (k : A -> M B) (Q : A -> Prop)
    (P : B -> Prop) :
  ensures m Q -> (forall a, Q a -> ensures (k a) P) -> ensures (bind m k) P.
Proof.
  intros Hm Hk s b s'. unfold bind.
  destruct (m s) as [[a|e] s1] eqn:E; [|discriminate].
  apply Hk. eapply Hm, E.
Qed.

Lemma ensures_bind_any {A B} (m : M A) (k : A -> M B) (P : B -> Prop) :
  (forall a, ensures (k a) P) -> ensures (bind m k) P.
Proof.
  intros Hk. apply (ensures_bind m k (fun _ => True)); [easy | auto].
Qed.

Lemma ensures_tryCatch {A} (body : M A) (handler : string -> M A)
    (P : A -> Prop) :
  ensures body P -> (forall e, ensures (handler e) P) ->
  ensures (tryCatch body handler) P.
Proof.
  intros Hb Hh s a s'. unfold tryCatch.
  destruct (body s) as [[a'|e] s1] eqn:E.
  - intros [= <- _]. eapply Hb, E.
  - apply Hh.
Qed.

Lemma ensures_if {A} (b : bool) (m1 m2 : M A) (P : A -> Prop) :
  ensures m1 P -> ensures m2 P -> ensures (if b then m1 else m2) P.
Proof. now destruct b. Qed.

Lemma ensures_mapM {A B} (f : A -> M B) (l : list A) (P : B -> Prop) :
  (forall a, ensures (f a) P) -> ensures (mapM f l) (Forall P).
Proof.
  intros Hf. induction l as [|a l IH]; cbn [mapM].
  - apply ensures_ret. constructor.
  - apply (ensures_bind _ _ P); [apply Hf|]. intros b Hb.
    apply (ensures_bind _ _ (Forall P)); [apply IH|]. intros bs Hbs.
    apply ensures_ret. now constructor.
Qed.

Lemma ensures_foldM {A B} (f : B -> A -> M B) (l : list A) (I : B -> Prop) acc :
  I acc -> (forall b a, I b -> ensures (f b a) I) -> ensures (foldM f acc l) I.
Proof.
  intros Hacc Hf. revert acc Hacc.
  induction l as [|a l IH]; intros acc Hacc; cbn [foldM].
  - now apply ensures_ret.
  - apply (ensures_bind _ _ I); [now apply Hf | intros b Hb; now apply IH].
Qed.

(** ** Provenance of the provider records *)

Lemma mapSheetRowToArticle_sheetArticle env row sheetName :
  ensures (mapSheetRowToArticle env row sheetName)
          (fun mapped => forall a, mapped = Some a -> sheetArticle a).
Proof.
  unfold mapSheetRowToArticle.
  apply ensures_tryCatch; [|intros e; apply ensures_ret; discriminate].
  repeat (apply ensures_if;
          [ apply ensures_bind_any; intros id;
            apply ensures_bind_any; intros date;
            apply ensures_ret; intros a [= <-]; split;
            [reflexivity | eexists; reflexivity] |]).
  apply ensures_ret. discriminate.
Qed.

Lemma keepMapped_Forall {A} (P : A -> Prop) (mapped : list (option A)) :
  Forall (fun o => forall a, o = Some a -> P a) mapped ->
  Forall P (keepMapped mapped).
Proof.
  unfold keepMapped. induction 1 as [|o l Ho _ IH]; [constructor|].
  destruct o as [a|]; cbn; [constructor; auto | exact IH].
Qed.

Lemma getArticlesFromGoogleSheets_sheetArticles env :
  ensures (getArticlesFromGoogleSheets env) (Forall sheetArticle).
Proof.
  unfold getArticlesFromGoogleSheets.
  apply ensures_bind_any. intros configured.
  apply ensures_if; [apply ensures_ret; constructor|].
  apply ensures_tryCatch; [|intros e; apply ensures_ret; constructor].
  apply ensures_foldM; [constructor|].
  intros articles sheetName Hacc. unfold readArticleSheet.
  apply ensures_tryCatch; [|intros e; now apply ensures_ret].
  apply ensures_bind_any. intros sheet.
  eapply ensures_bind;
    [apply ensures_mapM; intros row; apply mapSheetRowToArticle_sheetArticle|].
  intros mapped Hmapped. apply ensures_ret.
  apply Forall_app. split; [exact Hacc | now apply keepMapped_Forall].
Qed.

Lemma getArticlesFromHubSpot_hubspotArticles env :
  ensures (getArticlesFromHubSpot env) (Forall hubspotArticle).
Proof.
  unfold getArticlesFromHubSpot.
  apply ensures_bind_any. intros configured.
  apply ensures_if; [apply ensures_ret; constructor|].
  apply ensures_tryCatch; [|intros e; apply ensures_ret; constructor].
  apply ensures_bind_any. intros diseases. apply ensures_ret.
  apply Forall_map, Forall_forall. intros disease _.
  split; [reflexivity | eexists; reflexivity].
Qed.

Lemma getLawFirmsFromGoogleSheets_sheetFirms env specialty location :
  ensures (getLawFirmsFromGoogleSheets env specialty location)
          (Forall sheetFirm).
Proof.
  unfold getLawFirmsFromGoogleSheets.
  apply ensures_bind_any. intros configured.
  apply ensures_if; [apply ensures_ret; constructor|].
  apply ensures_tryCatch; [|intros e; apply ensures_ret; constructor].
  apply ensures_bind_any. intros sheet.
  apply ensures_mapM. intros firm. unfold firmOfRow.
  apply ensures_bind_any. intros id. apply ensures_ret.
  split; [reflexivity | eexists; reflexivity].
Qed.

Lemma getLawFirmsFromHubSpot_hubspotFirms env specialty location :
  ensures (getLawFirmsFromHubSpot env specialty location)
          (Forall hubspotFirm).
Proof.
  unfold getLawFirmsFromHubSpot.
  apply ensures_bind_any. intros configured.
  apply ensures_if; [apply ensures_ret; constructor|].
  apply ensures_tryCatch; [|intros e; apply ensures_ret; constructor].
  apply ensures_bind_any. intros firms. apply ensures_ret.
  apply Forall_map, Forall_forall. intros firm _.
  split; [reflexivity | eexists; reflexivity].
Qed.

Lemma getFallbackLawFirms_fallback : Forall fallbackFirmRecord getFallbackLawFirms.
Proof.
  unfold getFallbackLawFirms.
  repeat constructor; eexists; reflexivity.
Qed.

(** ** Merging articles *)

Lemma filterUnseen_titled seen merged key :
  List.filter (titled key) (filterUnseen seen merged)
  = if decide (key ∈ seen) then []
    else firstOnly (List.filter (titled key) merged).
Proof.
  revert seen. induction merged as [|a rest IH]; intros seen; cbn [filterUnseen].
  - cbn. now destruct (decide (key ∈ seen)).
  - cbn [List.filter]. unfold titled at 2.
    destruct (String.eqb_spec (toLowerCase (Article.title a)) key) as [Heq|Hne].
    + destruct (decide (toLowerCase (Article.title a) ∈ seen)) as [Hin|Hnin].
      * rewrite IH. rewrite Heq in Hin. now destruct (decide (key ∈ seen)).
      * cbn [List.filter]. unfold titled at 1. rewrite Heq, String.eqb_refl.
        rewrite IH. rewrite Heq in Hnin.
        destruct (decide (key ∈ {[key]} ∪ seen)) as [_|Hn]; [|set_solver].
        now destruct (decide (key ∈ seen)).
    + destruct (decide (toLowerCase (Article.title a) ∈ seen)) as [Hin|Hnin].
      * apply IH.
      * cbn [List.filter]. unfold titled at 1.
        destruct (String.eqb_spec (toLowerCase (Article.title a)) key);
          [contradiction|].
        rewrite IH.
        assert (Hiff : key ∈ {[toLowerCase (Article.title a)]} ∪ seen
                       <-> key ∈ seen).
        { rewrite elem_of_union, elem_of_singleton. intuition congruence. }
        destruct (decide (key ∈ {[toLowerCase (Article.title a)]} ∪ seen));
          destruct (decide (key ∈ seen)); tauto || reflexivity.
Qed.

(** Of the records that share a normalized title, [mergeArticles] keeps
    the first one of the spreadsheet list, if there is one there. *)
Lemma mergeArticles_titled sheetsArticles hubspotArticles key :
  List.filter (titled key) (mergeArticles sheetsArticles hubspotArticles)
  = firstOnly (List.filter (titled key) sheetsArticles
               ++ List.filter (titled key) hubspotArticles).
Proof.
  unfold mergeArticles. rewrite filterUnseen_titled, List.filter_app.
  destruct (decide (key ∈ (∅ : gset string))); [set_solver | reflexivity].
Qed.

Lemma filter_In_cons {A} (p : A -> bool) (l : list A) a :
  In a l -> p a = true -> exists b rest, List.filter p l = b :: rest.
Proof.
  intros Hin Hp.
  destruct (List.filter p l) as [|b rest] eqn:E; [|now exists b, rest].
  assert (Hf : In a (List.filter p l)) by (apply List.filter_In; auto).
  rewrite E in Hf. destruct Hf.
Qed.

(** The value of a join does not depend on the order in which the two
    promises settle. *)
Lemma promiseAll2_any_order {A} env order (first second : M A) s :
  promiseAll2 (withSettleOrder order env) first second s
  = promiseAll2 env first second s.
Proof.
  unfold promiseAll2.
  destruct (first s) as [[x|e1] s1];
    destruct (second (withClock (clock s) s1)) as [[y|e2] s2];
    try reflexivity.
  cbn. now rewrite !joinTwo_pair.
Qed.

Lemma getAllArticles_any_order env order s :
  getAllArticles (withSettleOrder order env) s = getAllArticles env s.
Proof.
  unfold getAllArticles, bind, tryCatch.
  destruct (getFromCache "all_articles" s) as [[[d|]|e] s0]; try reflexivity.
  rewrite promiseAll2_any_order. reflexivity.
Qed.

(** C2. When a spreadsheet article and a HubSpot article have the same
    lowercased title, the list [getAllArticles] fetches and merges holds
    exactly one record with that title; it is the first such record of the
    spreadsheet list (the spreadsheet record itself when no other
    spreadsheet record has its title), it is tagged [google_sheets], and
    the HubSpot record is not the one kept. What [getAllArticles] does is
    the same whichever of the two promises settles first. *)
Theorem getAllArticles_prefers_sheets env s s0 sheetsArticles s1
    hubspotArticles s2 a b :
  getFromCache "all_articles" s = (Returns None, s0) ->
  getArticlesFromGoogleSheets env s0 = (Returns sheetsArticles, s1) ->
  getArticlesFromHubSpot env (withClock (clock s0) s1)
  = (Returns hubspotArticles, s2) ->
  In a sheetsArticles -> In b hubspotArticles ->
  toLowerCase (Article.title a) = toLowerCase (Article.title b) ->
  exists kept others,
    getAllArticles env s
    = (Returns (mergeArticles sheetsArticles hubspotArticles),
       stored "all_articles"
              (DArticles (mergeArticles sheetsArticles hubspotArticles))
              (joined s0 s1 s2))
    /\ List.filter (titled (toLowerCase (Article.title a))) sheetsArticles
       = kept :: others
    /\ List.filter (titled (toLowerCase (Article.title b)))
                   (mergeArticles sheetsArticles hubspotArticles)
       = [kept]
    /\ Article.source kept = "google_sheets"
    /\ kept <> b
    /\ (others = [] -> kept = a)
    /\ forall order,
         getAllArticles (withSettleOrder order env) s = getAllArticles env s.
Proof.
  intros Hmiss Hx Hy Ha Hb Htitle.
  destruct (filter_In_cons (titled (toLowerCase (Article.title a)))
                           sheetsArticles a Ha)
    as (kept & others & Hkept).
  { unfold titled. apply String.eqb_refl. }
  assert (Hmerged :
    List.filter (titled (toLowerCase (Article.title b)))
                (mergeArticles sheetsArticles hubspotArticles) = [kept]).
  { rewrite mergeArticles_titled, <- Htitle, Hkept. reflexivity. }
  assert (Hsheet : sheetArticle kept).
  { pose proof (getArticlesFromGoogleSheets_sheetArticles env _ _ _ Hx) as Hall.
    rewrite Forall_forall in Hall. apply Hall.
    apply list_elem_of_In.
    apply (proj1 (List.filter_In (titled (toLowerCase (Article.title a)))
                                 kept sheetsArticles)).
    rewrite Hkept. now left. }
  assert (Hhub : hubspotArticle b).
  { pose proof (getArticlesFromHubSpot_hubspotArticles env _ _ _ Hy) as Hall.
    rewrite Forall_forall in Hall. apply Hall. now apply list_elem_of_In. }
  assert (Hout : articlesOutcome env sheetsArticles hubspotArticles
                                 (joined s0 s1 s2)
                 = mergeArticles sheetsArticles hubspotArticles).
  { unfold articlesOutcome.
    destruct (mergeArticles sheetsArticles hubspotArticles);
      [discriminate | reflexivity]. }
  exists kept, others. repeat split.
  - rewrite (getAllArticles_miss env s s0 _ s1 _ s2 Hmiss Hx Hy).
    now rewrite Hout.
  - exact Hkept.
  - exact Hmerged.
  - exact (proj1 Hsheet).
  - intros ->. destruct Hsheet as [Hs _], Hhub as [Hh _]. congruence.
  - intros ->.
    assert (Hin : In a [kept]).
    { rewrite <- Hkept. apply List.filter_In. split; [exact Ha|].
      unfold titled. apply String.eqb_refl. }
    destruct Hin as [Heq|[]]. exact Heq.
  - intros order. apply getAllArticles_any_order.
Qed.

(** The sheet holds "Mesothelioma Guide", HubSpot holds "mesothelioma
    guide" and "Roundup Lawsuit" and answers first: two records come back,
    and the one on mesothelioma is the sheet's. *)
Example getAllArticles_sample :
  exists r s',
    getAllArticles sampleEnv sampleStart = (Returns r, s')
    /\ List.map Article.title r = [ "Mesothelioma Guide"; "Roundup Lawsuit" ]
    /\ List.map Article.id r = [ IdStr "sheets_medical_7"; IdStr "hubspot_102" ]
    /\ List.map Article.source r = [ "google_sheets"; "hubspot" ].
Proof.
  eexists. eexists. split; [vm_compute; reflexivity|].
  repeat split.
Qed.

Lemma getAllArticles_prefers_sheets_witness :
  exists kept,
    List.filter (titled (toLowerCase (Article.title sampleHubspotArticle)))
                (mergeArticles sampleSheetsArticles sampleHubspotArticles)
    = [kept]
    /\ Article.source kept = "google_sheets".
Proof.
  pose (s0 := snd (getFromCache "all_articles" sampleStart)).
  pose (s1 := snd (getArticlesFromGoogleSheets sampleEnv s0)).
  pose (s2 := snd (getArticlesFromHubSpot sampleEnv (withClock (clock s0) s1))).
  destruct (getAllArticles_prefers_sheets sampleEnv sampleStart s0
              sampleSheetsArticles s1 sampleHubspotArticles s2
              sampleSheetArticle sampleHubspotArticle)
    as (kept & others & _ & _ & Hkept & Hsource & _).
  - reflexivity.
  - vm_compute. reflexivity.
  - vm_compute. reflexivity.
  - left. reflexivity.
  - left. reflexivity.
  - reflexivity.
  - exists kept. split; assumption.
Defined.

(** ** When the providers have nothing *)

Lemma lookup_after_miss (c : gmap string CacheEntry) key other e :
  other <> key -> (<[ key := e ]> (delete key c)) !! other = c !! other.
Proof.
  intros Hne. rewrite lookup_insert_ne by congruence.
  now apply lookup_delete_ne.
Qed.

(** A miss followed by provider calls and a store changes the cache under
    the key of the query only. *)
Lemma stored_after_miss key d s s2 other :
  cache s2 = delete key (cache s) -> other <> key ->
  cache (stored key d s2) !! other = cache s !! other.
Proof.
  intros Hc Hne. unfold stored. cbn. rewrite Hc. now apply lookup_after_miss.
Qed.

Lemma getFromCache_missed key s :
  missed key s -> getFromCache key s = (Returns None, afterMiss key s).
Proof.
  intros Hmissed.
  destruct (getFromCache_cases key s) as [(e & He & Hf & _)|[_ E]]; [|exact E].
  now destruct (Hmissed e He).
Qed.




Lemma getSettlementData_fallback env condition state s :
  missed (settlementKey condition state) s ->
  exists s',
    getSettlementData env condition state s
    = (Returns (getDefaultSettlementData condition), s')
    /\ forall other, other <> settlementKey condition state ->
                     cache s' !! other = cache s !! other.
Proof.
  intros Hmissed.
  pose proof (getFromCache_missed _ _ Hmissed) as Hmiss.
  destruct (getSettlementDataFromGoogleSheets_empty env condition state
              (afterMiss (settlementKey condition state) s))
    as (s1 & Hx).
  destruct (getSettlementDataFromHubSpot_empty env condition state
              (withClock (clock s) s1))
    as (s2 & Hy).
  rewrite (getSettlementData_miss env _ _ s _ [] s1 [] s2 Hmiss Hx Hy).
  eexists. split; [reflexivity|].
  intros other Hne. apply stored_after_miss; [|exact Hne].
  destruct (keeps_getSettlementDataFromGoogleSheets env _ _ _ _ _ Hx)
    as (Hc1 & _).
  destruct (keeps_getSettlementDataFromHubSpot env _ _ _ _ _ Hy) as (Hc2 & _).
  cbn in *. now rewrite Hc2, Hc1.
Qed.

(** The four families of cache keys do not meet. *)
Lemma keys_apart condition specialty location state :
  lawFirmsKey specialty location <> "all_articles"
  /\ settlementKey condition state <> "all_articles"
  /\ searchKey condition <> "all_articles"
  /\ settlementKey condition state <> lawFirmsKey specialty location
  /\ searchKey condition <> lawFirmsKey specialty location
  /\ forall condition', searchKey condition' <> settlementKey condition state.
Proof.
  unfold lawFirmsKey, settlementKey, searchKey. repeat split;
    try intros condition'; cbv [String.append]; discriminate.
Qed.


Lemma getFallbackArticles_fallback now :
  getFallbackArticles now <> []
  /\ Forall (fun a => Article.source a = "fallback") (getFallbackArticles now).
Proof. split; [discriminate | repeat constructor]. Qed.







(** ** Identifiers *)

Lemma filterUnseen_Forall (P : Article.t -> Prop) seen merged :
  Forall P merged -> Forall P (filterUnseen seen merged).
Proof.
  intros H. revert seen. induction H as [|a rest Ha _ IH]; intros seen;
    cbn [filterUnseen]; [constructor|].
  destruct (decide (toLowerCase (Article.title a) ∈ seen)); [apply IH|].
  constructor; [exact Ha | apply IH].
Qed.

(** C7, as the code has it. Every article and every law firm built from a
    spreadsheet row carries a string id that starts with [sheets_], every
    one built from a HubSpot result an id that starts with [hubspot_], and
    every built-in law firm an id that starts with [fallback_]; the three
    prefixes keep ids of different sources apart. What [getLawFirms]
    fetches consists of such records only, and what [getAllArticles]
    fetches consists of such records or of records tagged [fallback].
    (Settlement records have no id.) *)
Theorem ids_carry_source_prefix env :
  (forall s l s', getArticlesFromGoogleSheets env s = (Returns l, s') ->
                  Forall sheetArticle l)
  /\ (forall s l s', getArticlesFromHubSpot env s = (Returns l, s') ->
                     Forall hubspotArticle l)
  /\ (forall specialty location s l s',
        getLawFirmsFromGoogleSheets env specialty location s = (Returns l, s') ->
        Forall sheetFirm l)
  /\ (forall specialty location s l s',
        getLawFirmsFromHubSpot env specialty location s = (Returns l, s') ->
        Forall hubspotFirm l)
  /\ Forall fallbackFirmRecord getFallbackLawFirms
  /\ (forall a b, sheetArticle a -> hubspotArticle b ->
                  Article.id a <> Article.id b)
  /\ (forall f g, sheetFirm f -> hubspotFirm g -> LawFirm.id f <> LawFirm.id g)
  /\ (forall f g, sheetFirm f -> fallbackFirmRecord g ->
                  LawFirm.id f <> LawFirm.id g)
  /\ (forall f g, hubspotFirm f -> fallbackFirmRecord g ->
                  LawFirm.id f <> LawFirm.id g)
  /\ (forall specialty location s s0 r s',
        getFromCache (lawFirmsKey specialty location) s = (Returns None, s0) ->
        getLawFirms env specialty location s = (Returns r, s') ->
        Forall (fun f => sheetFirm f \/ hubspotFirm f \/ fallbackFirmRecord f) r)
  /\ (forall s s0 r s',
        getFromCache "all_articles" s = (Returns None, s0) ->
        getAllArticles env s = (Returns r, s') ->
        Forall (fun a => sheetArticle a \/ hubspotArticle a
                         \/ Article.source a = "fallback") r).
Proof.
  repeat apply conj.
  - apply getArticlesFromGoogleSheets_sheetArticles.
  - apply getArticlesFromHubSpot_hubspotArticles.
  - intros specialty location.
    apply getLawFirmsFromGoogleSheets_sheetFirms.
  - intros specialty location. apply getLawFirmsFromHubSpot_hubspotFirms.
  - apply getFallbackLawFirms_fallback.
  - intros a b (_ & ra & ->) (_ & rb & ->). discriminate.
  - intros f g (_ & rf & ->) (_ & rg & ->). discriminate.
  - intros f g (_ & rf & ->) (_ & rg & ->). discriminate.
  - intros f g (_ & rf & ->) (_ & rg & ->). discriminate.
  - intros specialty location s s0 r s' Hmiss Hrun.
    destruct (total_getLawFirmsFromGoogleSheets env specialty location s0)
      as (x & s1 & Hx).
    destruct (total_getLawFirmsFromHubSpot env specialty location
                (withClock (clock s0) s1))
      as (y & s2 & Hy).
    rewrite (getLawFirms_miss env _ _ s s0 x s1 y s2 Hmiss Hx Hy) in Hrun.
    injection Hrun as <- _.
    pose proof (getLawFirmsFromGoogleSheets_sheetFirms env _ _ _ _ _ Hx) as Fx.
    pose proof (getLawFirmsFromHubSpot_hubspotFirms env _ _ _ _ _ Hy) as Fy.
    unfold firmsOutcome. destruct (length (x ++ y) =? 0)%nat.
    + unfold filterFallbackFirms.
      assert (Hall : Forall (fun f => sheetFirm f \/ hubspotFirm f
                                      \/ fallbackFirmRecord f)
                            getFallbackLawFirms).
      { eapply Forall_impl; [apply getFallbackLawFirms_fallback|]. auto. }
      destruct specialty as [sp|]; [|exact Hall].
      destruct (truthy sp); [|exact Hall].
      rewrite Forall_forall in *. intros f Hf. apply Hall.
      apply list_elem_of_In in Hf. apply List.filter_In in Hf.
      apply list_elem_of_In, Hf.
    + apply Forall_app. split; (eapply Forall_impl; [eassumption|]); auto.
  - intros s s0 r s' Hmiss Hrun.
    destruct (total_getArticlesFromGoogleSheets env s0) as (x & s1 & Hx).
    destruct (total_getArticlesFromHubSpot env (withClock (clock s0) s1))
      as (y & s2 & Hy).
    rewrite (getAllArticles_miss env s s0 x s1 y s2 Hmiss Hx Hy) in Hrun.
    injection Hrun as <- _.
    pose proof (getArticlesFromGoogleSheets_sheetArticles env _ _ _ Hx) as Fx.
    pose proof (getArticlesFromHubSpot_hubspotArticles env _ _ _ Hy) as Fy.
    unfold articlesOutcome.
    destruct (length (mergeArticles x y) =? 0)%nat.
    + eapply Forall_impl; [apply getFallbackArticles_fallback|]. auto.
    + apply filterUnseen_Forall, Forall_app.
      split; (eapply Forall_impl; [eassumption|]); auto.
Qed.

Lemma ids_carry_source_prefix_witness :
  Forall sheetArticle sampleSheetsArticles
  /\ Forall hubspotArticle sampleHubspotArticles.
Proof.
  split.
  - apply (proj1 (ids_carry_source_prefix sampleEnv) sampleStart
                 sampleSheetsArticles
                 (snd (getArticlesFromGoogleSheets sampleEnv sampleStart))).
    vm_compute. reflexivity.
  - apply (proj1 (proj2 (ids_carry_source_prefix sampleEnv)) sampleStart
                 sampleHubspotArticles
                 (snd (getArticlesFromHubSpot sampleEnv sampleStart))).
    vm_compute. reflexivity.
Defined.

(** C7 as stated fails: the built-in articles, which [getAllArticles]
    returns when the providers have nothing, carry the numbers 1 to 6 as
    ids, not strings that start with [fallback_]. *)
Lemma fallback_article_ids_are_numbers :
  fst (getAllArticles failingEnv (newService None 0))
  = Returns (getFallbackArticles "2024-06-01T00:00:00.000Z")
  /\ List.map Article.id (getFallbackArticles "2024-06-01T00:00:00.000Z")
     = [ IdNum 1; IdNum 2; IdNum 3; IdNum 4; IdNum 5; IdNum 6 ]
  /\ ~ (forall a, In a (getFallbackArticles "2024-06-01T00:00:00.000Z") ->
                  exists rest, Article.id a = IdStr ("fallback_" +:+ rest)).
Proof.
  split; [reflexivity|]. split; [reflexivity|].
  intros H. destruct (H _ (or_introl eq_refl)) as (rest & Hrest).
  discriminate Hrest.
Qed.

(** ** Searching a sheet *)

Lemma own_put_same {V} (o : list (string * V)) k v :
  JsObject.own (JsObject.put o k v) k = Some v.
Proof.
  induction o as [|[k' v'] o IH]; cbn.
  - now rewrite String.eqb_refl.
  - destruct (String.eqb k k') eqn:E; cbn; rewrite E; [reflexivity | exact IH].
Qed.

Lemma own_put_other {V} (o : list (string * V)) k v k' :
  k' <> k -> JsObject.own (JsObject.put o k v) k' = JsObject.own o k'.
Proof.
  intros Hne. induction o as [|[k0 v0] o IH]; cbn.
  - destruct (String.eqb_spec k' k); [contradiction | reflexivity].
  - destruct (String.eqb_spec k k0) as [->|Hk]; cbn.
    + destruct (String.eqb_spec k' k0); [contradiction | reflexivity].
    + destruct (String.eqb k' k0); [reflexivity | exact IH].
Qed.

Lemma own_assignString_keeps (o : Row) k v h :
  is_Some (JsObject.own o h) ->
  is_Some (JsObject.own (JsObject.assignString o k v) h).
Proof.
  intros Hsome. unfold JsObject.assignString.
  destruct (String.eqb k "__proto__"); [exact Hsome|].
  destruct (String.eqb_spec h k) as [->|Hne].
  - rewrite own_put_same. now eexists.
  - now rewrite own_put_other.
Qed.

Lemma own_assignColumns_keeps headers obj index row h :
  is_Some (JsObject.own obj h) ->
  is_Some (JsObject.own (assignColumns obj index headers row) h).
Proof.
  revert obj index. induction headers as [|header rest IH]; intros obj index H;
    cbn [assignColumns]; [exact H|].
  apply IH, own_assignString_keeps, H.
Qed.

(** Every header but [__proto__] is an own property of the rows. *)
Lemma own_assignColumns headers obj index row h :
  In h headers -> h <> "__proto__" ->
  is_Some (JsObject.own (assignColumns obj index headers row) h).
Proof.
  revert obj index. induction headers as [|header rest IH]; intros obj index Hin Hne;
    [destruct Hin|].
  cbn [assignColumns]. destruct Hin as [->|Hin]; [|now apply IH].
  apply own_assignColumns_keeps. unfold JsObject.assignString.
  destruct (String.eqb_spec h "__proto__"); [contradiction|].
  rewrite own_put_same. now eexists.
Qed.

(** No row has a property [__proto__] of its own. *)
Lemma own_assignColumns_proto headers obj index row :
  JsObject.own (assignColumns obj index headers row) "__proto__"
  = JsObject.own obj "__proto__".
Proof.
  revert obj index. induction headers as [|header rest IH]; intros obj index;
    cbn [assignColumns]; [reflexivity|].
  rewrite IH. unfold JsObject.assignString.
  destruct (String.eqb_spec header "__proto__") as [_|Hne]; [reflexivity|].
  apply own_put_other. congruence.
Qed.

Lemma columnMatches_proto headers cells searchQuery :
  columnMatches "__proto__" searchQuery (rowObject headers cells)
  = Throws "TypeError: value.toLowerCase is not a function".
Proof.
  unfold columnMatches, JsObject.get, rowObject.
  now rewrite own_assignColumns_proto.
Qed.

Lemma columnMatches_own header searchQuery row :
  is_Some (JsObject.own row header) ->
  columnMatches header searchQuery row
  = Returns (includes (toLowerCase (prop row header)) searchQuery).
Proof.
  intros [v Hv]. unfold columnMatches, JsObject.get, prop. rewrite Hv.
  unfold orElse. now destruct v.
Qed.

Lemma filterOutcome_returns {A} (f : A -> Outcome bool) (g : A -> bool) l :
  (forall x, In x l -> f x = Returns (g x)) ->
  filterOutcome f l = Returns (List.filter g l).
Proof.
  induction l as [|x l IH]; intros H; cbn; [reflexivity|].
  rewrite (H x (or_introl eq_refl)), IH by (intros y Hy; apply H; now right).
  reflexivity.
Qed.

Lemma findIndexFrom_In {A} (p : A -> bool) (l : list A) start i d :
  findIndexFrom p start l = Some i ->
  (start <= i)%nat /\ In (List.nth (i - start) l d) l
  /\ p (List.nth (i - start) l d) = true.
Proof.
  revert start. induction l as [|x l IH]; intros start; cbn [findIndexFrom];
    [discriminate|].
  destruct (p x) eqn:Hp.
  - intros [= <-]. rewrite Nat.sub_diag. cbn. auto.
  - intros H. destruct (IH _ H) as (Hle & Hin & Hpi).
    replace (i - start)%nat with (S (i - S start)) by lia.
    cbn. split; [lia | auto].
Qed.

Lemma findIndex_In {A} (p : A -> bool) (l : list A) i d :
  findIndex p l = Some i -> In (List.nth i l d) l /\ p (List.nth i l d) = true.
Proof.
  intros H. destruct (findIndexFrom_In p l 0 i d H) as (_ & Hin & Hp).
  now rewrite Nat.sub_0_r in Hin, Hp.
Qed.

Lemma readSheet_rows env sheetName s headers data s' :
  readSheet env sheetName s = (Returns (headers, data), s') ->
  exists rows, data = List.map (rowObject headers) rows.
Proof.
  unfold readSheet, bind.
  destruct (makeRequest env sheetName s) as [[[[|hs rows]|]|e] s1];
    try discriminate; intros [= <- <- _].
  - now exists [].
  - now exists rows.
  - now exists [].
Qed.

Lemma slice0_firstn {A} (limit : Z) (l : list A) :
  0 <= limit -> slice0 limit l = firstn (Z.to_nat limit) l.
Proof.
  intros H. unfold slice0.
  destruct (Z.ltb_spec limit 0) as [Hlt|_]; [lia|].
  destruct (Z.le_gt_cases limit (Z.of_nat (length l))) as [Hle|Hgt].
  - now rewrite Z.min_l.
  - rewrite Z.min_r by lia. rewrite Nat2Z.id.
    rewrite firstn_all. symmetry. apply firstn_all2. lia.
Qed.




(** ** Merging settlement records *)

Lemma own_None_not_In {V} (o : list (string * V)) k :
  JsObject.own o k = None -> ~ In k (List.map fst o).
Proof.
  induction o as [|[k' v] o IH]; cbn; [tauto|].
  destruct (String.eqb_spec k k'); [discriminate|].
  intros H [Heq|Hin]; [congruence | now apply IH].
Qed.

Lemma own_of_In {V} (o : list (string * V)) k v :
  List.NoDup (List.map fst o) -> In (k, v) o -> JsObject.own o k = Some v.
Proof.
  induction o as [|[k' v'] o IH]; cbn; [tauto|].
  intros Hnd [[= -> ->]|Hin].
  - now rewrite String.eqb_refl.
  - apply List.NoDup_cons_iff in Hnd as [Hnotin Hnd].
    destruct (String.eqb_spec k k') as [->|_]; [|now apply IH].
    exfalso. apply Hnotin. apply List.in_map_iff. now exists (k', v).
Qed.

Lemma map_fst_put {V} (o : list (string * V)) k v :
  List.map fst (JsObject.put o k v)
  = match JsObject.own o k with
    | Some _ => List.map fst o
    | None => List.map fst o ++ [k]
    end.
Proof.
  induction o as [|[k' v'] o IH]; cbn; [reflexivity|].
  destruct (String.eqb k k'); cbn; [reflexivity|].
  rewrite IH. now destruct (JsObject.own o k).
Qed.

Lemma NoDup_snoc {A} (l : list A) a :
  List.NoDup l -> ~ In a l -> List.NoDup (l ++ [a]).
Proof.
  intros Hnd Hnotin. induction Hnd as [|b l Hb Hnd IH]; cbn.
  - constructor; [tauto | constructor].
  - constructor.
    + rewrite List.in_app_iff. cbn. intros [H|[H|[]]]; [tauto|].
      apply Hnotin. now left.
    + apply IH. intros H. apply Hnotin. now right.
Qed.

Lemma expected_snoc_same seen item :
  expected (seen ++ [item]) (groupKey item)
  = Some (List.filter (hasKey (groupKey item)) seen ++ [item]).
Proof.
  unfold expected. rewrite List.filter_app. cbn [List.filter].
  unfold hasKey at 2. rewrite String.eqb_refl.
  now destruct (List.filter (hasKey (groupKey item)) seen).
Qed.

Lemma expected_snoc_other seen item key :
  key <> groupKey item -> expected (seen ++ [item]) key = expected seen key.
Proof.
  intros Hne. unfold expected. rewrite List.filter_app. cbn [List.filter].
  unfold hasKey at 2.
  destruct (String.eqb_spec (groupKey item) key); [congruence|].
  now rewrite List.app_nil_r.
Qed.

Lemma expected_group seen key :
  match expected seen key with Some group => group | None => [] end
  = List.filter (hasKey key) seen.
Proof. unfold expected. now destruct (List.filter (hasKey key) seen). Qed.

(** One visit: a key that names no inherited member gets the record
    appended to its group. *)
Lemma groupStep_groupedAs seen grouped item :
  groupedAs seen grouped ->
  JsObject.inherited (groupKey item) = false ->
  exists grouped',
    groupStep grouped item = Returns grouped'
    /\ groupedAs (seen ++ [item]) grouped'.
Proof.
  intros [Hown Hnd] Hni. unfold groupStep, JsObject.get. rewrite Hni.
  pose proof (expected_group seen (groupKey item)) as Hgroup.
  rewrite <- Hown in Hgroup.
  exists (JsObject.put grouped (groupKey item)
            (List.filter (hasKey (groupKey item)) seen ++ [item])).
  split.
  - destruct (JsObject.own grouped (groupKey item)); now rewrite <- Hgroup.
  - split.
    + intros key. destruct (String.eqb_spec key (groupKey item)) as [->|Hne].
      * now rewrite own_put_same, expected_snoc_same.
      * rewrite own_put_other by exact Hne.
        now rewrite expected_snoc_other.
    + rewrite map_fst_put.
      destruct (JsObject.own grouped (groupKey item)) eqn:E; [exact Hnd|].
      apply NoDup_snoc; [exact Hnd | now apply own_None_not_In].
Qed.

Lemma groupAll_groupedAs merged seen grouped :
  groupedAs seen grouped ->
  (forall item, In item merged -> JsObject.inherited (groupKey item) = false) ->
  exists grouped',
    groupAll grouped merged = Returns grouped'
    /\ groupedAs (seen ++ merged) grouped'.
Proof.
  revert seen grouped.
  induction merged as [|item rest IH]; intros seen grouped Hg Hkeys.
  - exists grouped. now rewrite List.app_nil_r.
  - cbn [groupAll].
    destruct (groupStep_groupedAs seen grouped item Hg) as (g1 & -> & Hg1).
    { apply Hkeys. now left. }
    destruct (IH (seen ++ [item]) g1 Hg1) as (g2 & Hrun & Hg2).
    { intros i Hi. apply Hkeys. now right. }
    exists g2. split; [exact Hrun|]. now rewrite <- List.app_assoc in Hg2.
Qed.

(** The record [reduce] settles on is one of the group, and it has a
    settlement range if any record of the group has one. *)
Lemma fold_moreComplete_In rest first :
  In (fold_left moreComplete rest first) (first :: rest).
Proof.
  revert first. induction rest as [|current rest IH]; intros first;
    cbn [fold_left].
  - now left.
  - destruct (IH (moreComplete first current)) as [H|H].
    + rewrite <- H. unfold moreComplete.
      destruct (_ && _); [right; now left | now left].
    + right. now right.
Qed.

Lemma fold_moreComplete_keeps rest first :
  complete first = true ->
  fold_left moreComplete rest first = first.
Proof.
  intros Hc. induction rest as [|current rest IH]; cbn [fold_left];
    [reflexivity|].
  replace (moreComplete first current) with first; [exact IH|].
  unfold moreComplete. unfold complete in Hc. rewrite Hc.
  now rewrite Bool.andb_false_r.
Qed.

Lemma fold_moreComplete_complete rest first :
  (exists item, In item (first :: rest) /\ complete item = true) ->
  complete (fold_left moreComplete rest first) = true.
Proof.
  revert first. induction rest as [|current rest IH]; intros first (item & Hin & Hc).
  - destruct Hin as [<-|[]]. exact Hc.
  - cbn [fold_left]. apply IH.
    destruct (complete first) eqn:Hf.
    + exists first. split; [left|].
      * unfold moreComplete. unfold complete in Hf. rewrite Hf.
        now rewrite Bool.andb_false_r.
      * exact Hf.
    + destruct Hin as [<-|[<-|Hin]].
      * congruence.
      * exists current. split; [left|exact Hc].
        unfold moreComplete. unfold complete in Hf, Hc. now rewrite Hf, Hc.
      * exists item. split; [now right | exact Hc].
Qed.

Lemma mapOutcome_reduceGroup (grouped : list (string * list Settlement.t)) :
  (forall key group, In (key, group) grouped -> group <> []) ->
  exists out,
    mapOutcome reduceGroup (JsObject.values grouped) = Returns out
    /\ Forall2 (fun kg r => reduceGroup (snd kg) = Returns r) grouped out.
Proof.
  induction grouped as [|[key group] rest IH]; intros Hne.
  - exists []. split; [reflexivity | constructor].
  - destruct IH as (out & Hout & Hall).
    { intros k g Hin. apply (Hne k g). now right. }
    destruct group as [|first others]; [now destruct (Hne key [] (or_introl eq_refl))|].
    exists (fold_left moreComplete others first :: out). split.
    + unfold JsObject.values in *. cbn. cbn in Hout. now rewrite Hout.
    + now constructor.
Qed.

Lemma In_filter_hasKey key merged item :
  In item (List.filter (hasKey key) merged) <->
  In item merged /\ groupKey item = key.
Proof.
  rewrite List.filter_In. unfold hasKey.
  now destruct (String.eqb_spec (groupKey item) key).
Qed.

Lemma own_Some_In {V} (o : list (string * V)) k v :
  JsObject.own o k = Some v -> In (k, v) o.
Proof.
  induction o as [|[k' v'] o IH]; cbn; [discriminate|].
  destruct (String.eqb_spec k k') as [->|_].
  - intros [= ->]. now left.
  - intros H. right. now apply IH.
Qed.

Lemma Forall2_In_left {A B} (R : A -> B -> Prop) l k x :
  Forall2 R l k -> In x l -> exists y, In y k /\ R x y.
Proof.
  induction 1 as [|a b l k Hab _ IH]; intros Hin; [destruct Hin|].
  destruct Hin as [<-|Hin].
  - exists b. split; [now left | exact Hab].
  - destruct (IH Hin) as (y & Hy & Hxy). exists y. split; [now right | exact Hxy].
Qed.

Lemma Forall2_In_right {A B} (R : A -> B -> Prop) l k y :
  Forall2 R l k -> In y k -> exists x, In x l /\ R x y.
Proof.
  induction 1 as [|a b l k Hab _ IH]; intros Hin; [destruct Hin|].
  destruct Hin as [<-|Hin].
  - exists a. split; [now left | exact Hab].
  - destruct (IH Hin) as (x & Hx & Hxy). exists x. split; [now right | exact Hxy].
Qed.

Lemma Forall2_map_eq {A B C} (R : A -> B -> Prop) (f : A -> C) (g : B -> C) l k :
  Forall2 R l k -> (forall x y, In x l -> R x y -> f x = g y) ->
  List.map g k = List.map f l.
Proof.
  induction 1 as [|a b l k Hab _ IH]; intros H; [reflexivity|].
  cbn. f_equal.
  - symmetry. apply H; [now left | exact Hab].
  - apply IH. intros x y Hx. apply H. now right.
Qed.

(** Apart from the keys that name inherited members, the merge does what
    the specification says: one record per key, taken from the records
    with that key, and one with a settlement range if there is any. *)
Lemma mergeSettlementData_groups sheetsData hubspotData :
  (forall item, In item (sheetsData ++ hubspotData) ->
                JsObject.inherited (groupKey item) = false) ->
  exists out,
    mergeSettlementData sheetsData hubspotData = Returns out
    /\ List.NoDup (List.map groupKey out)
    /\ (forall r, In r out -> In r (sheetsData ++ hubspotData))
    /\ (forall item, In item (sheetsData ++ hubspotData) ->
          exists r, In r out /\ groupKey r = groupKey item
                    /\ (complete item = true -> complete r = true)).
Proof.
  intros Hkeys. unfold mergeSettlementData.
  set (merged := sheetsData ++ hubspotData) in *.
  destruct (groupAll_groupedAs merged [] []) as (grouped & -> & [Hown Hnd]).
  { split; [reflexivity | constructor]. }
  { exact Hkeys. }
  cbn [List.app] in Hown.
  assert (Hgroups : forall key group,
            In (key, group) grouped ->
            group = List.filter (hasKey key) merged /\ group <> []).
  { intros key group Hin. pose proof (own_of_In _ _ _ Hnd Hin) as E.
    rewrite Hown in E. unfold expected in E.
    destruct (List.filter (hasKey key) merged); [discriminate|].
    injection E as <-. split; [reflexivity | discriminate]. }
  destruct (mapOutcome_reduceGroup grouped) as (out & -> & Hall).
  { intros key group Hin. apply (Hgroups key group Hin). }
  exists out. split; [reflexivity|].
  assert (Hpoint : forall kg r,
            In kg grouped -> reduceGroup (snd kg) = Returns r ->
            groupKey r = fst kg /\ In r merged
            /\ ((exists item, In item (snd kg) /\ complete item = true) ->
                complete r = true)).
  { intros [key group] r Hin Hr. cbn [fst snd] in *.
    destruct (Hgroups key group Hin) as [Hgroup _].
    destruct group as [|first others]; [discriminate|].
    injection Hr as <-.
    assert (Hmem : In (fold_left moreComplete others first)
                      (List.filter (hasKey key) merged))
      by (rewrite <- Hgroup; apply fold_moreComplete_In).
    apply In_filter_hasKey in Hmem as [Hm Hk].
    split; [exact Hk|]. split; [exact Hm|].
    apply fold_moreComplete_complete. }
  repeat apply conj.
  - rewrite (Forall2_map_eq _ fst groupKey _ _ Hall); [exact Hnd|].
    intros kg r Hin Hr. symmetry. now apply (Hpoint kg r).
  - intros r Hr.
    destruct (Forall2_In_right _ _ _ _ Hall Hr) as (kg & Hkg & Hred).
    now apply (Hpoint kg r).
  - intros item Hitem.
    assert (Hin : In (groupKey item, List.filter (hasKey (groupKey item)) merged)
                     grouped).
    { apply own_Some_In. rewrite Hown. unfold expected.
      destruct (List.filter (hasKey (groupKey item)) merged) eqn:E;
        [|reflexivity].
      assert (H : In item (List.filter (hasKey (groupKey item)) merged))
        by now apply In_filter_hasKey.
      rewrite E in H. destruct H. }
    destruct (Forall2_In_left _ _ _ _ Hall Hin) as (r & Hr & Hred).
    destruct (Hpoint _ r Hin Hred) as (Hk & _ & Hc).
    exists r. repeat split; [exact Hr | exact Hk|].
    intros Hitemc. apply Hc. exists item. split; [|exact Hitemc].
    now apply In_filter_hasKey.
Qed.





(** A key that names an inherited member makes the merge throw. *)
Lemma groupAll_inherited_throws merged grouped :
  (forall key, JsObject.inherited key = true -> JsObject.own grouped key = None) ->
  (exists item, In item merged /\ JsObject.inherited (groupKey item) = true) ->
  exists e, groupAll grouped merged = Throws e.
Proof.
  revert grouped. induction merged as [|item rest IH]; intros grouped Hg (bad & Hin & Hbad);
    [destruct Hin|].
  cbn [groupAll]. unfold groupStep, JsObject.get.
  destruct (JsObject.inherited (groupKey item)) eqn:Hi.
  - rewrite (Hg _ Hi). now eexists.
  - assert (Hrest : exists item', In item' rest
                      /\ JsObject.inherited (groupKey item') = true).
    { destruct Hin as [->|Hin]; [congruence | now exists bad]. }
    destruct (JsObject.own grouped (groupKey item)) eqn:Ho; apply IH; trivial;
      intros key Hk; (rewrite own_put_other; [now apply Hg | congruence]).
Qed.

Lemma mergeSettlementData_throws_iff sheetsData hubspotData :
  (exists e, mergeSettlementData sheetsData hubspotData = Throws e)
  <-> exists item, In item (sheetsData ++ hubspotData)
                   /\ JsObject.inherited (groupKey item) = true.
Proof.
  split.
  - intros (e & He).
    destruct (List.existsb
                (fun item => JsObject.inherited (groupKey item))
                (sheetsData ++ hubspotData)) eqn:Hex.
    + apply List.existsb_exists in Hex. exact Hex.
    + destruct (mergeSettlementData_groups sheetsData hubspotData)
        as (out & Hout & _); [|congruence].
      intros item Hin.
      destruct (JsObject.inherited (groupKey item)) eqn:Hi; [|reflexivity].
      assert (Hyes : List.existsb
                       (fun item => JsObject.inherited (groupKey item))
                       (sheetsData ++ hubspotData) = true)
        by (apply List.existsb_exists; now exists item).
      congruence.
  - intros Hbad. unfold mergeSettlementData.
    destruct (groupAll_inherited_throws (sheetsData ++ hubspotData) [])
      as (e & ->); [reflexivity | exact Hbad | now exists e].
Qed.

Lemma mergeSettlementData_members sheetsData hubspotData out :
  mergeSettlementData sheetsData hubspotData = Returns out ->
  forall r, In r out -> In r (sheetsData ++ hubspotData).
Proof.
  intros Hout.
  destruct (mergeSettlementData_groups sheetsData hubspotData)
    as (out' & Hout' & _ & Hmem & _).
  - intros item Hin.
    destruct (JsObject.inherited (groupKey item)) eqn:Hi; [|reflexivity].
    destruct (proj2 (mergeSettlementData_throws_iff sheetsData hubspotData))
      as (e & He); [now exists item | congruence].
  - assert (out' = out) as -> by congruence. exact Hmem.
Qed.






Lemma getSettlementData_stores env condition state s r s' :
  getSettlementData env condition state s = (Returns r, s') ->
  exists e, cache s' !! settlementKey condition state = Some e
            /\ data e = DSettlements r.
Proof.
  intros Hrun.
  destruct (getFromCache_cases (settlementKey condition state) s)
    as [(e & He & Hf & Hhit)|[_ Hmiss]].
  - unfold getSettlementData, bind in Hrun. rewrite Hhit in Hrun.
    destruct (data e) as [| |hit|] eqn:Hd; try discriminate.
    injection Hrun as <- <-. now exists e.
  - destruct (getSettlementDataFromGoogleSheets_empty env condition state
                (withCache (delete (settlementKey condition state) (cache s)) s))
      as (s1 & Hx).
    destruct (getSettlementDataFromHubSpot_empty env condition state (withClock (clock s) s1))
      as (s2 & Hy).
    rewrite (getSettlementData_miss env _ _ s _ [] s1 [] s2 Hmiss Hx Hy) in Hrun.
    injection Hrun as <- <-. eexists. split; [apply stored_lookup|reflexivity].
Qed.

(** C9. With the Google Sheets connector configured (and without it as
    well) [getSettlementDataFromGoogleSheets] resolves with the empty
    list: what [searchSheet] returns has no property [data], so the read
    of [data.filter] throws and the handler returns []. Hence, on a cache
    miss, what [getSettlementData] returns is built from the HubSpot list
    alone: every record of it is a record of that list or one of the
    defaults. *)
Theorem sheets_settlements_always_empty env condition state :
  (forall s, googleSheets s = true ->
     exists s', getSettlementDataFromGoogleSheets env condition state s
                = (Returns [], s'))
  /\ (forall sheetName headers rows query column limit found,
        searchRows sheetName headers rows query column limit = Returns found ->
        JsObject.get found "data" = JsObject.Undefined)
  /\ (forall s s0,
        getFromCache (settlementKey condition state) s = (Returns None, s0) ->
        exists s1 hubspotData s2,
          getSettlementDataFromGoogleSheets env condition state s0
          = (Returns [], s1)
          /\ getSettlementDataFromHubSpot env condition state
               (withClock (clock s0) s1)
             = (Returns hubspotData, s2)
          /\ fst (getSettlementData env condition state s)
             = Returns (settlementOutcome condition [] hubspotData)
          /\ forall item,
               In item (settlementOutcome condition [] hubspotData) ->
               (exists record, item = SRecord record /\ In record hubspotData)
               \/ In item (getDefaultSettlementData condition)).
Proof.
  repeat apply conj.
  - intros s _. apply getSettlementDataFromGoogleSheets_empty.
  - apply searchRows_no_data.
  - intros s s0 Hmiss.
    destruct (getSettlementDataFromGoogleSheets_empty env condition state s0)
      as (s1 & Hx).
    destruct (total_getSettlementDataFromHubSpot env condition state
                (withClock (clock s0) s1))
      as (y & s2 & Hy).
    exists s1, y, s2. repeat split; trivial.
    + now rewrite (getSettlementData_miss env _ _ s s0 [] s1 y s2 Hmiss Hx Hy).
    + intros item. unfold settlementOutcome.
      destruct (mergeSettlementData [] y) as [[|record records]|e] eqn:Hmerge;
        auto.
      intros Hin. left. apply List.in_map_iff in Hin as (r & <- & Hr).
      exists r. split; [reflexivity|].
      exact (mergeSettlementData_members [] y _ Hmerge r Hr).
Qed.

Lemma sheets_settlements_always_empty_witness :
  exists s',
    getSettlementDataFromGoogleSheets sampleEnv "Mesothelioma" None sampleStart
    = (Returns [], s').
Proof.
  apply (proj1 (sheets_settlements_always_empty sampleEnv "Mesothelioma" None)).
  reflexivity.
Defined.

(** C10. The cache keys interpolate the raw arguments, so [null] and the
    string "null" give the same key: [getLawFirms(null, null)] and
    [getLawFirms("null", "null")] both use [law_firms_null_null], and
    [getSettlementData(c, null)] and [getSettlementData(c, "null")] share
    their key too. After the first query of such a pair has returned, the
    second one, made while the entry is fresh, returns the first one's
    result from the cache and calls no provider. *)
Theorem cache_keys_collide env :
  lawFirmsKey None None = "law_firms_null_null"
  /\ lawFirmsKey (Some "null") (Some "null") = "law_firms_null_null"
  /\ (forall condition,
        settlementKey condition None = settlementKey condition (Some "null"))
  /\ (forall s r s1,
        getLawFirms env None None s = (Returns r, s1) ->
        exists e,
          cache s1 !! "law_firms_null_null" = Some e /\ data e = DFirms r
          /\ forall now,
               now - timestamp e < cacheTimeout ->
               getLawFirms env (Some "null") (Some "null") (withClock now s1)
               = (Returns r, withClock now s1))
  /\ (forall condition s r s1,
        getSettlementData env condition None s = (Returns r, s1) ->
        exists e,
          cache s1 !! settlementKey condition None = Some e
          /\ data e = DSettlements r
          /\ forall now,
               now - timestamp e < cacheTimeout ->
               getSettlementData env condition (Some "null") (withClock now s1)
               = (Returns r, withClock now s1)).
Proof.
  repeat apply conj; try reflexivity.
  - intros s r s1 Hrun.
    destruct (getLawFirms_stores env None None s r s1 Hrun) as (e & He & Hd).
    exists e. repeat split; trivial.
    intros now Hnow.
    now apply (getLawFirms_hit env (Some "null") (Some "null")
                               (withClock now s1) e r).
  - intros condition s r s1 Hrun.
    destruct (getSettlementData_stores env condition None s r s1 Hrun)
      as (e & He & Hd).
    exists e. repeat split; trivial.
    intros now Hnow.
    now apply (getSettlementData_hit env condition (Some "null")
                                     (withClock now s1) e r).
Qed.

(** In [failingEnv], [getLawFirms("null", "null")] on a fresh service finds
    no firm; asked within five minutes after [getLawFirms(null, null)] it
    returns the three built-in firms that call cached. *)
Lemma cache_keys_collide_witness :
  let first := getLawFirms failingEnv None None (newService None 0) in
  fst (getLawFirms failingEnv (Some "null") (Some "null") (newService None 0))
  = Returns []
  /\ fst first = Returns getFallbackLawFirms
  /\ getLawFirms failingEnv (Some "null") (Some "null")
                 (withClock 299999 (snd first))
     = (Returns getFallbackLawFirms, withClock 299999 (snd first)).
Proof.
  intros first. split; [reflexivity|]. split; [reflexivity|].
  destruct (proj1 (proj2 (proj2 (proj2 (cache_keys_collide failingEnv))))
              (newService None 0) getFallbackLawFirms (snd first))
    as (e & He & _ & Hsecond).
  - reflexivity.
  - apply Hsecond.
    assert (Ht : timestamp e = clock (snd first)).
    { unfold first in He. vm_compute in He. injection He as <-. reflexivity. }
    rewrite Ht. vm_compute. reflexivity.
Defined.

(** ** The cache holds what its keys announce

    A cache filled by the service itself holds articles under
    [all_articles], law firms under the [law_firms_] keys, settlement data
    under the [settlement_] keys and search results under the [search_]
    keys. On such a cache no facade method meets a value of another kind,
    and every one of them returns. *)

Lemma missed_absent key s : cache s !! key = None -> missed key s.
Proof. intros Hnone e He. congruence. Qed.

Lemma wellKinded_newService googleApiKey now :
  wellKinded (newService googleApiKey now).
Proof. intros key e H. cbn in H. now rewrite lookup_empty in H. Qed.

Lemma wellKinded_sameService s s' :
  sameService s s' -> wellKinded s -> wellKinded s'.
Proof. intros (Hc & _) H key e. rewrite Hc. apply H. Qed.

Lemma wellKinded_delete key s :
  wellKinded s -> wellKinded (withCache (delete key (cache s)) s).
Proof.
  intros H k e. cbn. intros Hk.
  apply lookup_delete_Some in Hk as [_ Hk]. now apply H.
Qed.

Lemma wellKinded_stored key d s :
  wellKinded s -> kinded key d -> wellKinded (stored key d s).
Proof.
  intros H Hd k e. unfold stored. cbn. intros Hk.
  apply lookup_insert_Some in Hk as [[<- <-]|[_ Hk]]; [exact Hd | now apply H].
Qed.

Lemma wellKinded_getFromCache key s r s' :
  getFromCache key s = (r, s') -> wellKinded s -> wellKinded s'.
Proof.
  intros Hrun H.
  destruct (getFromCache_cases key s) as [(e & _ & _ & E)|[_ E]];
    rewrite E in Hrun; injection Hrun as _ <-;
    [exact H | now apply wellKinded_delete].
Qed.

Lemma getAllArticles_returns env s :
  wellKinded s ->
  exists r s', getAllArticles env s = (Returns r, s') /\ wellKinded s'.
Proof.
  intros Hk.
  destruct (getFromCache_cases "all_articles" s)
    as [(e & He & Hf & _)|[_ Hmiss]].
  - pose proof (Hk _ _ He) as Hkind.
    destruct (keys_apart "" None None None) as (K1 & K2 & K3 & _).
    destruct (data e) as [hit| | |] eqn:Hd; cbn in Hkind.
    + exists hit, s. split; [|exact Hk].
      now apply (getAllArticles_hit env s e hit).
    + destruct Hkind as (sp & loc & Hkey).
      now destruct (keys_apart "" sp loc None) as (K & _).
    + destruct Hkind as (c & st & Hkey).
      now destruct (keys_apart c None None st) as (_ & K & _).
    + destruct Hkind as (c & Hkey).
      now destruct (keys_apart c None None None) as (_ & _ & K & _).
  - destruct (total_getArticlesFromGoogleSheets env
                (withCache (delete "all_articles" (cache s)) s))
      as (x & s1 & Hx).
    destruct (total_getArticlesFromHubSpot env (withClock (clock s) s1)) as (y & s2 & Hy).
    rewrite (getAllArticles_miss env s _ x s1 y s2 Hmiss Hx Hy).
    eexists. eexists. split; [reflexivity|].
    apply wellKinded_stored; [|reflexivity].
    eapply wellKinded_sameService;
      [exact (joined_sameService _ _ _ _ _ _ _
                (keeps_getArticlesFromGoogleSheets env)
                (keeps_getArticlesFromHubSpot env) Hx Hy)|].
    now apply wellKinded_delete.
Qed.

Lemma getLawFirms_returns env specialty location s :
  wellKinded s ->
  exists r s',
    getLawFirms env specialty location s = (Returns r, s') /\ wellKinded s'.
Proof.
  intros Hk.
  destruct (getFromCache_cases (lawFirmsKey specialty location) s)
    as [(e & He & Hf & _)|[_ Hmiss]].
  - pose proof (Hk _ _ He) as Hkind.
    destruct (data e) as [|hit| |] eqn:Hd; cbn in Hkind.
    + now destruct (keys_apart "" specialty location None) as (K & _).
    + exists hit, s. split; [|exact Hk].
      now apply (getLawFirms_hit env _ _ s e hit).
    + destruct Hkind as (c & st & Hkey).
      destruct (keys_apart c specialty location st) as (_ & _ & _ & K & _).
      congruence.
    + destruct Hkind as (c & Hkey).
      destruct (keys_apart c specialty location None)
        as (_ & _ & _ & _ & K & _).
      congruence.
  - destruct (total_getLawFirmsFromGoogleSheets env specialty location
                (withCache (delete (lawFirmsKey specialty location) (cache s)) s))
      as (x & s1 & Hx).
    destruct (total_getLawFirmsFromHubSpot env specialty location (withClock (clock s) s1))
      as (y & s2 & Hy).
    rewrite (getLawFirms_miss env _ _ s _ x s1 y s2 Hmiss Hx Hy).
    eexists. eexists. split; [reflexivity|].
    apply wellKinded_stored; [|now exists specialty, location].
    eapply wellKinded_sameService;
      [exact (joined_sameService _ _ _ _ _ _ _
                (keeps_getLawFirmsFromGoogleSheets env specialty location)
                (keeps_getLawFirmsFromHubSpot env specialty location) Hx Hy)|].
    now apply wellKinded_delete.
Qed.

Lemma getSettlementData_returns env condition state s :
  wellKinded s ->
  exists r s',
    getSettlementData env condition state s = (Returns r, s')
    /\ wellKinded s'.
Proof.
  intros Hk.
  destruct (getFromCache_cases (settlementKey condition state) s)
    as [(e & He & Hf & _)|[_ Hmiss]].
  - pose proof (Hk _ _ He) as Hkind.
    destruct (data e) as [| |hit|] eqn:Hd; cbn in Hkind.
    + now destruct (keys_apart condition None None state) as (_ & K & _).
    + destruct Hkind as (sp & loc & Hkey).
      now destruct (keys_apart condition sp loc state) as (_ & _ & _ & K & _).
    + exists hit, s. split; [|exact Hk].
      now apply (getSettlementData_hit env _ _ s e hit).
    + destruct Hkind as (c & Hkey).
      destruct (keys_apart condition None None state)
        as (_ & _ & _ & _ & _ & K).
      now destruct (K c).
  - destruct (getSettlementDataFromGoogleSheets_empty env condition state
                (withCache (delete (settlementKey condition state) (cache s)) s))
      as (s1 & Hx).
    destruct (getSettlementDataFromHubSpot_empty env condition state (withClock (clock s) s1))
      as (s2 & Hy).
    rewrite (getSettlementData_miss env _ _ s _ [] s1 [] s2 Hmiss Hx Hy).
    eexists. eexists. split; [reflexivity|].
    apply wellKinded_stored; [|now exists condition, state].
    eapply wellKinded_sameService;
      [exact (joined_sameService _ _ _ _ _ _ _
                (keeps_getSettlementDataFromGoogleSheets env condition state)
                (keeps_getSettlementDataFromHubSpot env condition state) Hx Hy)|].
    now apply wellKinded_delete.
Qed.

Lemma searchCondition_returns env condition s :
  wellKinded s ->
  exists r s', searchCondition env condition s = (Returns r, s') /\ wellKinded s'.
Proof.
  intros Hk.
  destruct (getFromCache_cases (searchKey condition) s)
    as [(e & He & Hf & Hhit)|[_ Hmiss]].
  - pose proof (Hk _ _ He) as Hkind.
    destruct (data e) as [| | |hit] eqn:Hd; cbn in Hkind.
    + now destruct (keys_apart condition None None None) as (_ & _ & K & _).
    + destruct Hkind as (sp & loc & Hkey).
      now destruct (keys_apart condition sp loc None)
        as (_ & _ & _ & _ & K & _).
    + destruct Hkind as (c & st & Hkey).
      destruct (keys_apart c None None st) as (_ & _ & _ & _ & _ & K).
      now destruct (K condition).
    + exists hit, s. split; [|exact Hk].
      unfold searchCondition, bind. now rewrite Hhit.
  - pose proof (wellKinded_delete (searchKey condition) s Hk) as Hk0.
    destruct (getAllArticles_returns env _ Hk0) as (articles & sa & Ha & Hka).
    destruct (getLawFirms_returns env (Some condition) None
                (withClock (clock s) sa) Hka)
      as (firms & sf & Hf & Hkf).
    destruct (getSettlementData_returns env condition None
                (withClock (clock s) sf) Hkf)
      as (settlements & sd & Hd & Hkd).
    unfold searchCondition, bind at 1. rewrite Hmiss.
    unfold tryCatch, bind at 1, promiseAll3, searchArticles, bind at 1.
    rewrite Ha. cbn [ret clock withCache]. rewrite Hf, Hd.
    eexists. eexists. split; [reflexivity|].
    apply (wellKinded_stored _ _ (withClock _ sd)); [exact Hkd|].
    now exists condition.
Qed.

Lemma clearCache_wellKinded s : wellKinded (snd (clearCache s)).
Proof. intros key e H. cbn in H. now rewrite lookup_empty in H. Qed.

Lemma afterCall_wellKinded env call s :
  wellKinded s -> exists s', afterCall env call s = Some s' /\ wellKinded s'.
Proof.
  intros Hk. destruct call as [|sp loc|c st|c| |now]; cbn [afterCall].
  - destruct (getAllArticles_returns env s Hk) as (r & s' & -> & Hk').
    now exists s'.
  - destruct (getLawFirms_returns env sp loc s Hk) as (r & s' & -> & Hk').
    now exists s'.
  - destruct (getSettlementData_returns env c st s Hk) as (r & s' & -> & Hk').
    now exists s'.
  - destruct (searchCondition_returns env c s Hk) as (r & s' & -> & Hk').
    now exists s'.
  - eexists. split; [reflexivity | apply clearCache_wellKinded].
  - exists (withClock now s). split; [reflexivity | exact Hk].
Qed.

(** On a service that starts with an empty cache, no facade call ever
    throws, whatever the providers do and however time passes. *)
Lemma facade_never_throws env googleApiKey now calls :
  is_Some (afterCalls env calls (newService googleApiKey now)).
Proof.
  assert (H : forall s, wellKinded s -> is_Some (afterCalls env calls s)).
  { induction calls as [|call rest IH]; intros s Hk; cbn [afterCalls].
    - now eexists.
    - destruct (afterCall_wellKinded env call s Hk) as (s' & -> & Hk').
      now apply IH. }
  apply H, wellKinded_newService.
Qed.

(** ** Queries in between

    A law-firm or a settlement query reads and writes the cache under its
    own key only, so the entry of [getAllArticles] survives any number of
    them. *)

Lemma getLawFirms_other_keys env specialty location s r s' other :
  getLawFirms env specialty location s = (r, s') ->
  other <> lawFirmsKey specialty location ->
  cache s' !! other = cache s !! other.
Proof.
  intros Hrun Hne.
  destruct (getFromCache_cases (lawFirmsKey specialty location) s)
    as [(e & _ & _ & Hhit)|[_ Hmiss]].
  - unfold getLawFirms, bind in Hrun. rewrite Hhit in Hrun.
    destruct (data e); injection Hrun as _ <-; reflexivity.
  - destruct (total_getLawFirmsFromGoogleSheets env specialty location
                (withCache (delete (lawFirmsKey specialty location) (cache s)) s))
      as (x & s1 & Hx).
    destruct (total_getLawFirmsFromHubSpot env specialty location (withClock (clock s) s1))
      as (y & s2 & Hy).
    rewrite (getLawFirms_miss env _ _ s _ x s1 y s2 Hmiss Hx Hy) in Hrun.
    injection Hrun as _ <-. apply stored_after_miss; [|exact Hne].
    destruct (keeps_getLawFirmsFromGoogleSheets env _ _ _ _ _ Hx) as (Hc1 & _).
    destruct (keeps_getLawFirmsFromHubSpot env _ _ _ _ _ Hy) as (Hc2 & _).
    cbn in *. now rewrite Hc2, Hc1.
Qed.

Lemma getSettlementData_other_keys env condition state s r s' other :
  getSettlementData env condition state s = (r, s') ->
  other <> settlementKey condition state ->
  cache s' !! other = cache s !! other.
Proof.
  intros Hrun Hne.
  destruct (getFromCache_cases (settlementKey condition state) s)
    as [(e & _ & _ & Hhit)|[_ Hmiss]].
  - unfold getSettlementData, bind in Hrun. rewrite Hhit in Hrun.
    destruct (data e); injection Hrun as _ <-; reflexivity.
  - destruct (getSettlementDataFromGoogleSheets_empty env condition state
                (withCache (delete (settlementKey condition state) (cache s)) s))
      as (s1 & Hx).
    destruct (getSettlementDataFromHubSpot_empty env condition state (withClock (clock s) s1))
      as (s2 & Hy).
    rewrite (getSettlementData_miss env _ _ s _ [] s1 [] s2 Hmiss Hx Hy) in Hrun.
    injection Hrun as _ <-. apply stored_after_miss; [|exact Hne].
    destruct (keeps_getSettlementDataFromGoogleSheets env _ _ _ _ _ Hx) as (Hc1 & _).
    destruct (keeps_getSettlementDataFromHubSpot env _ _ _ _ _ Hy) as (Hc2 & _).
    cbn in *. now rewrite Hc2, Hc1.
Qed.

Lemma afterCalls_keeps_articles env calls s s' :
  Forall otherQuery calls -> afterCalls env calls s = Some s' ->
  cache s' !! "all_articles" = cache s !! "all_articles".
Proof.
  intros Hcalls. revert s.
  induction Hcalls as [|call rest Hcall _ IH]; intros s Hrun;
    cbn [afterCalls] in Hrun; [now injection Hrun as <-|].
  destruct (afterCall env call s) as [s1|] eqn:Hstep; [|discriminate].
  rewrite (IH s1 Hrun).
  destruct call as [|sp loc|c st|c| |now]; try destruct Hcall;
    cbn [afterCall] in Hstep.
  - destruct (getLawFirms env sp loc s) as [[r|e] s2] eqn:E; [|discriminate].
    injection Hstep as <-.
    apply (getLawFirms_other_keys env sp loc s _ _ _ E).
    apply not_eq_sym. now destruct (keys_apart "" sp loc None) as (K & _).
  - destruct (getSettlementData env c st s) as [[r|e] s2] eqn:E; [|discriminate].
    injection Hstep as <-.
    apply (getSettlementData_other_keys env c st s _ _ _ E).
    apply not_eq_sym. now destruct (keys_apart c None None st) as (_ & K & _).
  - now injection Hstep as <-.
Qed.

(** After [getAllArticles()] has returned, law-firm and settlement queries
    and the passing of time leave its cache entry where it is: a second
    call made while the entry is fresh still returns the same list
    without calling a provider. *)
Lemma getAllArticles_twice_with_queries env s r s1 calls s2 :
  getAllArticles env s = (Returns r, s1) ->
  Forall otherQuery calls -> afterCalls env calls s1 = Some s2 ->
  exists e,
    cache s1 !! "all_articles" = Some e /\ data e = DArticles r
    /\ (clock s2 - timestamp e < cacheTimeout ->
        getAllArticles env s2 = (Returns r, s2)).
Proof.
  intros Hrun Hcalls Hafter.
  destruct (getAllArticles_stores env s r s1 Hrun) as (e & He & Hd).
  exists e. repeat split; trivial. intros Hfresh.
  apply (getAllArticles_hit env s2 e r); trivial.
  now rewrite (afterCalls_keeps_articles env calls s1 s2 Hcalls Hafter).
Qed.

(** ** Lists written in one cell *)

Lemma append_assoc (a b c : string) : (a +:+ b) +:+ c = a +:+ (b +:+ c).
Proof.
  induction a as [|x a IH]; [reflexivity|].
  now rewrite !append_cons, IH.
Qed.

Lemma trimEnd_cons_kept c r :
  isSpace c = false -> trimEnd (String c r) = String c (trimEnd r).
Proof.
  intros Hc. cbn [trimEnd]. rewrite Hc. now destruct (trimEnd r).
Qed.

Lemma trimEnd_idempotent s : trimEnd (trimEnd s) = trimEnd s.
Proof.
  induction s as [|c r IH]; [reflexivity|].
  cbn [trimEnd]. destruct (trimEnd r) as [|d r'] eqn:E.
  - destruct (isSpace c) eqn:Hc; [reflexivity|].
    cbn [trimEnd]. now rewrite Hc.
  - cbn [trimEnd]. cbn [trimEnd] in IH.
    destruct (trimEnd r') as [|d' r''] eqn:E'.
    + destruct (isSpace d) eqn:Hd; [discriminate|]. now rewrite IH.
    + now rewrite IH.
Qed.

Lemma trimStart_head s :
  trimStart s = EmptyString
  \/ exists c r, trimStart s = String c r /\ isSpace c = false.
Proof.
  induction s as [|c r IH]; [now left|].
  cbn [trimStart]. destruct (isSpace c) eqn:Hc; [exact IH|].
  right. now exists c, r.
Qed.

Lemma trimStart_kept c r : isSpace c = false -> trimStart (String c r) = String c r.
Proof. intros Hc. cbn [trimStart]. now rewrite Hc. Qed.

Lemma trim_idempotent s : trim (trim s) = trim s.
Proof.
  unfold trim.
  destruct (trimStart_head s) as [->|(c & r & -> & Hc)]; [reflexivity|].
  rewrite (trimEnd_cons_kept c r Hc), (trimStart_kept c _ Hc).
  rewrite <- (trimEnd_cons_kept c r Hc). apply trimEnd_idempotent.
Qed.

Lemma noListSep_trimStart s : noListSep s = true -> noListSep (trimStart s) = true.
Proof.
  induction s as [|c r IH]; [easy|].
  cbn [trimStart noListSep]. intros H.
  apply andb_true_iff in H as [Hc Hr].
  destruct (isSpace c); [now apply IH|].
  cbn [noListSep]. now rewrite Hc, Hr.
Qed.

Lemma noListSep_trimEnd s : noListSep s = true -> noListSep (trimEnd s) = true.
Proof.
  induction s as [|c r IH]; [easy|].
  cbn [trimEnd noListSep]. intros H.
  apply andb_true_iff in H as [Hc Hr]. specialize (IH Hr).
  destruct (trimEnd r) as [|d r'].
  - destruct (isSpace c); [reflexivity|]. cbn [noListSep]. now rewrite Hc.
  - cbn [noListSep] in *. now rewrite Hc, IH.
Qed.

Lemma noListSep_trim s : noListSep s = true -> noListSep (trim s) = true.
Proof. intros H. unfold trim. now apply noListSep_trimEnd, noListSep_trimStart. Qed.

Lemma splitOn_noListSep s :
  Forall (fun piece => noListSep piece = true) (splitOn isListSep s).
Proof.
  induction s as [|c r IH]; [now repeat constructor|].
  cbn [splitOn]. destruct (isListSep c) eqn:Hc.
  - now constructor.
  - destruct (splitOn isListSep r) as [|w ws]; [now repeat constructor; cbn; rewrite Hc|].
    inversion IH as [|? ? Hw Hws]; subst. constructor; [|exact Hws].
    cbn [noListSep]. now rewrite Hc, Hw.
Qed.

Lemma parseList_listItems text :
  Forall (fun item => listItem item = true) (parseList text).
Proof.
  unfold parseList. destruct (truthy text); [|constructor].
  apply Forall_forall. intros item Hin.
  apply list_elem_of_In, List.filter_In in Hin as [Hin Hitem].
  apply List.in_map_iff in Hin as (piece & <- & Hpiece).
  pose proof (splitOn_noListSep text) as Hall.
  rewrite Forall_forall in Hall.
  specialize (Hall piece (proj2 (list_elem_of_In _ _) Hpiece)).
  unfold listItem. rewrite Hitem, trim_idempotent, String.eqb_refl.
  now rewrite noListSep_trim.
Qed.

(** X1. Whatever the cell holds, every item [parseList] returns is a
    non-empty string without white space at its ends and without any of
    the separators [,], [;], [|]; an empty cell gives the empty list. *)
Theorem parseList_items (text : string) :
  Forall (fun item => listItem item = true) (parseList text)
  /\ parseList "" = [].
Proof. split; [apply parseList_listItems|reflexivity]. Qed.

Lemma splitOn_whole x :
  noListSep x = true -> splitOn isListSep x = [x].
Proof.
  induction x as [|c r IH]; [reflexivity|].
  cbn [noListSep splitOn]. intros H. apply andb_true_iff in H as [Hc Hr].
  apply negb_true_iff in Hc. now rewrite Hc, (IH Hr).
Qed.

Lemma splitOn_app_comma x rest :
  noListSep x = true ->
  splitOn isListSep (x +:+ String "," rest) = x :: splitOn isListSep rest.
Proof.
  induction x as [|c r IH]; [reflexivity|].
  cbn [noListSep]. intros H. apply andb_true_iff in H as [Hc Hr].
  apply negb_true_iff in Hc.
  rewrite append_cons. cbn [splitOn]. now rewrite Hc, (IH Hr).
Qed.

Lemma listItem_parts item :
  listItem item = true ->
  truthy item = true /\ trim item = item /\ noListSep item = true.
Proof.
  unfold listItem. intros H.
  apply andb_true_iff in H as [H Hsep]. apply andb_true_iff in H as [Ht Htrim].
  now apply String.eqb_eq in Htrim.
Qed.

Lemma split_joined items x pre :
  noListSep (pre +:+ x) = true -> trim (pre +:+ x) = x ->
  Forall (fun item => listItem item = true) items ->
  List.map trim (splitOn isListSep (pre +:+ joinWith ", " (x :: items)))
  = x :: items.
Proof.
  revert x pre. induction items as [|y items IH]; intros x pre Hsep Htrim Hall.
  - cbn [joinWith]. rewrite (splitOn_whole _ Hsep). cbn [List.map]. now rewrite Htrim.
  - inversion Hall as [|? ? Hy Hrest]; subst.
    destruct (listItem_parts y Hy) as (_ & Hytrim & Hysep).
    change (joinWith ", " (x :: y :: items))
      with (x +:+ ", " +:+ joinWith ", " (y :: items)).
    rewrite <- append_assoc.
    change (", " +:+ joinWith ", " (y :: items))
      with (String "," (" " +:+ joinWith ", " (y :: items))).
    rewrite (splitOn_app_comma _ _ Hsep). cbn [List.map]. rewrite Htrim.
    f_equal. apply IH; [exact Hysep | exact Hytrim | exact Hrest].
Qed.

(** X2. Round trip: a list of items (non-empty, trimmed, free of
    separators) joined with a comma and a space is parsed back into the
    same list. *)
Theorem parseList_join (items : list string) :
  Forall (fun item => listItem item = true) items ->
  parseList (joinWith ", " items) = items.
Proof.
  intros Hall. destruct items as [|x items]; [reflexivity|].
  inversion Hall as [|? ? Hx Hrest]; subst.
  destruct (listItem_parts x Hx) as (Hxt & Hxtrim & Hxsep).
  unfold parseList.
  assert (Htext : truthy (joinWith ", " (x :: items)) = true).
  { destruct x; [discriminate|]. now destruct items. }
  rewrite Htext.
  rewrite <- (append_nil_l (joinWith ", " (x :: items))).
  rewrite (split_joined items x "" Hxsep Hxtrim Hrest).
  clear Htext. induction Hall as [|y l Hy _ IH]; [reflexivity|].
  cbn [List.filter]. destruct (listItem_parts y Hy) as (-> & _).
  f_equal. apply IH.
Qed.

Lemma parseList_join_witness :
  parseList (joinWith ", " [ "Chest pain"; "Shortness of breath" ])
  = [ "Chest pain"; "Shortness of breath" ].
Proof. apply parseList_join. repeat constructor. Defined.

(** ** Merging articles keeps their order *)

Lemma filterUnseen_sublist seen merged :
  sublist (filterUnseen seen merged) merged.
Proof.
  revert seen. induction merged as [|a rest IH]; intros seen; cbn [filterUnseen];
    [constructor|].
  destruct (decide _); [apply sublist_cons | apply sublist_skip]; apply IH.
Qed.

Lemma filterUnseen_keys seen merged :
  NoDup (List.map lowerTitle (filterUnseen seen merged))
  /\ forall a, In a (filterUnseen seen merged) -> lowerTitle a ∉ seen.
Proof.
  revert seen. induction merged as [|a rest IH]; intros seen; cbn [filterUnseen].
  - split; [constructor | intros a []].
  - destruct (decide _) as [Hin|Hnot]; [apply IH|].
    destruct (IH ({[ toLowerCase (Article.title a) ]} ∪ seen)) as [Hnd Hout].
    split.
    + cbn [List.map]. constructor; [|exact Hnd].
      intros Hin. apply list_elem_of_In, List.in_map_iff in Hin as (b & Hb & Hin).
      apply (Hout b Hin). apply elem_of_union. left.
      apply elem_of_singleton. exact Hb.
    + intros b [<-|Hb]; [exact Hnot|].
      specialize (Hout b Hb). intros Hin. apply Hout, elem_of_union. now right.
Qed.

Lemma filterUnseen_distinct seen merged :
  NoDup (List.map lowerTitle merged) ->
  (forall a, In a merged -> lowerTitle a ∉ seen) ->
  filterUnseen seen merged = merged.
Proof.
  revert seen. induction merged as [|a rest IH]; intros seen Hnd Hout;
    cbn [filterUnseen]; [reflexivity|].
  cbn [List.map] in Hnd. apply NoDup_cons in Hnd as [Ha Hnd].
  destruct (decide _) as [Hin|_]; [now destruct (Hout a (or_introl eq_refl))|].
  f_equal. apply IH; [exact Hnd|].
  intros b Hb. specialize (Hout b (or_intror Hb)).
  intros Hin. apply elem_of_union in Hin as [Hin|Hin]; [|contradiction].
  apply elem_of_singleton in Hin. apply Ha.
  replace (lowerTitle a) with (lowerTitle b) by exact Hin.
  apply list_elem_of_In, List.in_map, Hb.
Qed.

Lemma filterUnseen_app seen first second :
  NoDup (List.map lowerTitle first) ->
  (forall a, In a first -> lowerTitle a ∉ seen) ->
  exists seen',
    filterUnseen seen (first ++ second) = first ++ filterUnseen seen' second.
Proof.
  revert seen. induction first as [|a rest IH]; intros seen Hnd Hout.
  - now exists seen.
  - cbn [List.map] in Hnd. apply NoDup_cons in Hnd as [Ha Hnd].
    cbn [List.app filterUnseen].
    destruct (decide _) as [Hin|_]; [now destruct (Hout a (or_introl eq_refl))|].
    destruct (IH ({[ toLowerCase (Article.title a) ]} ∪ seen) Hnd) as (seen' & ->).
    + intros b Hb. specialize (Hout b (or_intror Hb)).
      intros Hin. apply elem_of_union in Hin as [Hin|Hin]; [|contradiction].
      apply elem_of_singleton in Hin. apply Ha.
      replace (lowerTitle a) with (lowerTitle b) by exact Hin.
      apply list_elem_of_In, List.in_map, Hb.
    + now exists seen'.
Qed.

(** X3. [mergeArticles] only drops records: what it returns is a
    subsequence of the spreadsheet articles followed by the HubSpot
    articles, with pairwise different titles (case ignored). When the
    spreadsheet titles are pairwise different, every spreadsheet article
    is kept, in order, ahead of the HubSpot articles that survive; when
    all titles are, nothing is dropped. Merging a merged list again
    changes nothing. *)
Theorem mergeArticles_keeps_order (sheetsArticles hubspotArticles : list Article.t) :
  sublist (mergeArticles sheetsArticles hubspotArticles)
          (sheetsArticles ++ hubspotArticles)
  /\ NoDup (List.map lowerTitle (mergeArticles sheetsArticles hubspotArticles))
  /\ (NoDup (List.map lowerTitle sheetsArticles) ->
      exists rest,
        mergeArticles sheetsArticles hubspotArticles = sheetsArticles ++ rest
        /\ sublist rest hubspotArticles)
  /\ (NoDup (List.map lowerTitle (sheetsArticles ++ hubspotArticles)) ->
      mergeArticles sheetsArticles hubspotArticles
      = sheetsArticles ++ hubspotArticles)
  /\ mergeArticles (mergeArticles sheetsArticles hubspotArticles) []
     = mergeArticles sheetsArticles hubspotArticles.
Proof.
  unfold mergeArticles.
  pose proof (filterUnseen_keys ∅ (sheetsArticles ++ hubspotArticles)) as [Hnd _].
  repeat apply conj.
  - apply filterUnseen_sublist.
  - exact Hnd.
  - intros Hsheets.
    destruct (filterUnseen_app ∅ sheetsArticles hubspotArticles Hsheets)
      as (seen' & ->); [intros a _; apply not_elem_of_empty|].
    eexists. split; [reflexivity | apply filterUnseen_sublist].
  - intros Hall. apply filterUnseen_distinct; [exact Hall|].
    intros a _. apply not_elem_of_empty.
  - rewrite app_nil_r. apply filterUnseen_distinct; [exact Hnd|].
    intros a _. apply not_elem_of_empty.
Qed.

(** ** Searching the articles *)

Lemma includes_empty s : includes s "" = true.
Proof. now destruct s. Qed.

Lemma filter_all {A} (p : A -> bool) (l : list A) :
  (forall a, p a = true) -> List.filter p l = l.
Proof.
  intros Hp. induction l as [|a l IH]; [reflexivity|].
  cbn [List.filter]. now rewrite Hp, IH.
Qed.

Lemma filter_sublist {A} (p : A -> bool) (l : list A) :
  sublist (List.filter p l) l.
Proof.
  induction l as [|a l IH]; [constructor|].
  cbn [List.filter]. destruct (p a); [now apply sublist_skip | now apply sublist_cons].
Qed.

(** X4. [searchArticles(condition)] returns, in their order, exactly the
    articles of [getAllArticles()] whose title, description or overview
    contains the condition, upper and lower case taken as the same, and
    it leaves the state [getAllArticles()] leaves. The empty condition
    selects every article, and two conditions that differ in letter case
    only give the same run. *)
Theorem searchArticles_selects (env : Env) (condition : string) (s : State) :
  (forall allArticles s',
     getAllArticles env s = (Returns allArticles, s') ->
     exists found,
       searchArticles env condition s = (Returns found, s')
       /\ sublist found allArticles
       /\ forall article,
            In article found
            <-> In article allArticles
                /\ (includes (toLowerCase (Article.title article))
                             (toLowerCase condition) = true
                    \/ includes (toLowerCase (Article.description article))
                                (toLowerCase condition) = true
                    \/ includes (toLowerCase
                                   (Content.overview (Article.content article)))
                                (toLowerCase condition) = true))
  /\ searchArticles env "" s = getAllArticles env s
  /\ (forall other,
        toLowerCase other = toLowerCase condition ->
        searchArticles env other s = searchArticles env condition s).
Proof.
  repeat apply conj.
  - intros allArticles s' Hrun.
    exists (List.filter (matchesCondition condition) allArticles).
    split; [unfold searchArticles, bind; now rewrite Hrun|].
    split; [apply filter_sublist|].
    intros article. rewrite List.filter_In. unfold matchesCondition.
    rewrite !orb_true_iff. tauto.
  - unfold searchArticles.
    unfold bind. destruct (getAllArticles env s) as [[allArticles|e] s'];
      [|reflexivity].
    unfold ret. f_equal. f_equal. apply filter_all.
    intros a. unfold matchesCondition. cbn [toLowerCase].
    now rewrite includes_empty.
  - intros other Hcase. unfold searchArticles, bind.
    destruct (getAllArticles env s) as [[allArticles|e] s']; [|reflexivity].
    unfold ret. f_equal. f_equal. apply List.filter_ext.
    intros a. unfold matchesCondition. now rewrite Hcase.
Qed.

(** ** What a running service hands out *)

Lemma facadeEntry_kinded key d : facadeEntry key d -> kinded key d.
Proof.
  destruct d as [l|l|l|r]; cbn.
  - now intros [-> _].
  - now intros [H _].
  - intros (c & st & -> & _). now exists c, st.
  - intros [-> _]. now eexists.
Qed.

Lemma facadeCache_wellKinded s : facadeCache s -> wellKinded s.
Proof. intros H key e He. apply facadeEntry_kinded, (H key e He). Qed.

Lemma facadeCache_newService googleApiKey now :
  facadeCache (newService googleApiKey now).
Proof. intros key e H. cbn in H. now rewrite lookup_empty in H. Qed.

Lemma facadeCache_sameService s s' :
  sameService s s' -> facadeCache s -> facadeCache s'.
Proof. intros (Hc & _) H key e. rewrite Hc. apply H. Qed.

Lemma facadeCache_delete key s :
  facadeCache s -> facadeCache (withCache (delete key (cache s)) s).
Proof.
  intros H k e. cbn. intros Hk.
  apply lookup_delete_Some in Hk as [_ Hk]. now apply H.
Qed.

Lemma facadeCache_stored key d s :
  facadeCache s -> facadeEntry key d -> facadeCache (stored key d s).
Proof.
  intros H Hd k e. unfold stored. cbn. intros Hk.
  apply lookup_insert_Some in Hk as [[<- <-]|[_ Hk]]; [exact Hd | now apply H].
Qed.

Lemma searchKey_inj c1 c2 : searchKey c1 = searchKey c2 -> c1 = c2.
Proof. unfold searchKey. cbv [String.append]. now intros [= ->]. Qed.

Lemma Forall_app_2 {A} (P : A -> Prop) (l k : list A) :
  Forall P l -> Forall P k -> Forall P (l ++ k).
Proof. intros Hl Hk. apply Forall_app. now split. Qed.

Lemma articlesOutcome_articleList env x y s :
  Forall sheetArticle x -> Forall hubspotArticle y ->
  articleList (articlesOutcome env x y s).
Proof.
  intros Hx Hy. unfold articlesOutcome.
  destruct (mergeArticles x y) as [|a l] eqn:E; cbn [length Nat.eqb].
  - split; [apply getFallbackArticles_fallback|].
    left. apply getFallbackArticles_fallback.
  - split; [discriminate|]. right. rewrite <- E. unfold mergeArticles.
    apply filterUnseen_Forall, Forall_app_2.
    + eapply Forall_impl; [exact Hx|]. now left.
    + eapply Forall_impl; [exact Hy|]. now right.
Qed.

Lemma filterFallbackFirms_records specialty :
  Forall fallbackFirmRecord (filterFallbackFirms specialty).
Proof.
  pose proof getFallbackLawFirms_fallback as Hall.
  unfold filterFallbackFirms. destruct specialty as [sp|]; [|exact Hall].
  destruct (truthy sp); [|exact Hall].
  rewrite Forall_forall in *. intros f Hf. apply Hall.
  apply list_elem_of_In in Hf. apply List.filter_In in Hf.
  apply list_elem_of_In, Hf.
Qed.

Lemma firmsOutcome_firmList specialty x y :
  Forall sheetFirm x -> Forall hubspotFirm y ->
  firmList (firmsOutcome specialty x y).
Proof.
  intros Hx Hy. unfold firmsOutcome.
  destruct (x ++ y) as [|f l] eqn:E; cbn [length Nat.eqb].
  - left. apply filterFallbackFirms_records.
  - right. split; [discriminate|]. rewrite <- E. apply Forall_app_2.
    + eapply Forall_impl; [exact Hx|]. now left.
    + eapply Forall_impl; [exact Hy|]. now right.
Qed.

Lemma getAllArticles_facade env s :
  facadeCache s ->
  exists r s',
    getAllArticles env s = (Returns r, s') /\ facadeCache s' /\ articleList r.
Proof.
  intros Hk.
  destruct (getFromCache_cases "all_articles" s)
    as [(e & He & Hf & _)|[_ Hmiss]].
  - pose proof (Hk _ _ He) as Hentry.
    pose proof (facadeEntry_kinded _ _ Hentry) as Hkind.
    destruct (data e) as [hit|l|l|r] eqn:Hd; cbn in Hkind.
    + exists hit, s. split; [now apply (getAllArticles_hit env s e hit)|].
      split; [exact Hk | apply Hentry].
    + destruct Hkind as (sp & loc & Hkey).
      now destruct (keys_apart "" sp loc None) as (K & _).
    + destruct Hkind as (c & st & Hkey).
      now destruct (keys_apart c None None st) as (_ & K & _).
    + destruct Hkind as (c & Hkey).
      now destruct (keys_apart c None None None) as (_ & _ & K & _).
  - destruct (total_getArticlesFromGoogleSheets env
                (withCache (delete "all_articles" (cache s)) s))
      as (x & s1 & Hx).
    destruct (total_getArticlesFromHubSpot env (withClock (clock s) s1)) as (y & s2 & Hy).
    rewrite (getAllArticles_miss env s _ x s1 y s2 Hmiss Hx Hy).
    assert (Hlist : articleList
                      (articlesOutcome env x y
                         (joined (afterMiss "all_articles" s) s1 s2))).
    { apply articlesOutcome_articleList.
      - exact (getArticlesFromGoogleSheets_sheetArticles env _ _ _ Hx).
      - exact (getArticlesFromHubSpot_hubspotArticles env _ _ _ Hy). }
    eexists. eexists. split; [reflexivity|]. split; [|exact Hlist].
    apply facadeCache_stored; [|now split].
    eapply facadeCache_sameService;
      [exact (joined_sameService _ _ _ _ _ _ _
                (keeps_getArticlesFromGoogleSheets env)
                (keeps_getArticlesFromHubSpot env) Hx Hy)|].
    now apply facadeCache_delete.
Qed.

Lemma getLawFirms_facade env specialty location s :
  facadeCache s ->
  exists r s',
    getLawFirms env specialty location s = (Returns r, s')
    /\ facadeCache s' /\ firmList r.
Proof.
  intros Hk.
  destruct (getFromCache_cases (lawFirmsKey specialty location) s)
    as [(e & He & Hf & _)|[_ Hmiss]].
  - pose proof (Hk _ _ He) as Hentry.
    pose proof (facadeEntry_kinded _ _ Hentry) as Hkind.
    destruct (data e) as [l|hit|l|r] eqn:Hd; cbn in Hkind.
    + now destruct (keys_apart "" specialty location None) as (K & _).
    + exists hit, s. split; [now apply (getLawFirms_hit env _ _ s e hit)|].
      split; [exact Hk | apply Hentry].
    + destruct Hkind as (c & st & Hkey).
      destruct (keys_apart c specialty location st) as (_ & _ & _ & K & _).
      congruence.
    + destruct Hkind as (c & Hkey).
      destruct (keys_apart c specialty location None)
        as (_ & _ & _ & _ & K & _).
      congruence.
  - destruct (total_getLawFirmsFromGoogleSheets env specialty location
                (withCache (delete (lawFirmsKey specialty location) (cache s)) s))
      as (x & s1 & Hx).
    destruct (total_getLawFirmsFromHubSpot env specialty location (withClock (clock s) s1))
      as (y & s2 & Hy).
    rewrite (getLawFirms_miss env _ _ s _ x s1 y s2 Hmiss Hx Hy).
    assert (Hlist : firmList (firmsOutcome specialty x y)).
    { apply firmsOutcome_firmList.
      - exact (getLawFirmsFromGoogleSheets_sheetFirms env _ _ _ _ _ Hx).
      - exact (getLawFirmsFromHubSpot_hubspotFirms env _ _ _ _ _ Hy). }
    eexists. eexists. split; [reflexivity|]. split; [|exact Hlist].
    apply facadeCache_stored; [|split; [now exists specialty, location | exact Hlist]].
    eapply facadeCache_sameService;
      [exact (joined_sameService _ _ _ _ _ _ _
                (keeps_getLawFirmsFromGoogleSheets env specialty location)
                (keeps_getLawFirmsFromHubSpot env specialty location) Hx Hy)|].
    now apply facadeCache_delete.
Qed.

Lemma getSettlementData_facade env condition state s :
  facadeCache s ->
  exists served s',
    getSettlementData env condition state s
    = (Returns (getDefaultSettlementData served), s')
    /\ facadeCache s'
    /\ (exists state', settlementKey served state'
                       = settlementKey condition state)
    /\ (cache s !! settlementKey condition state = None -> served = condition).
Proof.
  intros Hk.
  destruct (getFromCache_cases (settlementKey condition state) s)
    as [(e & He & Hf & _)|[Hstale Hmiss]].
  - pose proof (Hk _ _ He) as Hentry.
    pose proof (facadeEntry_kinded _ _ Hentry) as Hkind.
    destruct (data e) as [l|l|hit|r] eqn:Hd; cbn in Hkind.
    + now destruct (keys_apart condition None None state) as (_ & K & _).
    + destruct Hkind as (sp & loc & Hkey).
      now destruct (keys_apart condition sp loc state) as (_ & _ & _ & K & _).
    + destruct Hentry as (served & state' & Hkey & ->).
      exists served, s.
      split; [now apply (getSettlementData_hit env _ _ s e)|].
      split; [exact Hk|]. split; [now exists state'|].
      intros Hnone. congruence.
    + destruct Hkind as (c & Hkey).
      destruct (keys_apart condition None None state)
        as (_ & _ & _ & _ & _ & K).
      now destruct (K c).
  - destruct (getSettlementDataFromGoogleSheets_empty env condition state
                (withCache (delete (settlementKey condition state) (cache s)) s))
      as (s1 & Hx).
    destruct (getSettlementDataFromHubSpot_empty env condition state (withClock (clock s) s1))
      as (s2 & Hy).
    rewrite (getSettlementData_miss env _ _ s _ [] s1 [] s2 Hmiss Hx Hy).
    exists condition. eexists. split; [reflexivity|].
    split; [|split; [now exists state | reflexivity]].
    apply facadeCache_stored; [|now exists condition, state].
    eapply facadeCache_sameService;
      [exact (joined_sameService _ _ _ _ _ _ _
                (keeps_getSettlementDataFromGoogleSheets env condition state)
                (keeps_getSettlementDataFromHubSpot env condition state) Hx Hy)|].
    now apply facadeCache_delete.
Qed.

Lemma filter_Forall_true {A} (p : A -> bool) (l : list A) :
  Forall (fun a => p a = true) (List.filter p l).
Proof.
  apply Forall_forall. intros a Ha.
  apply list_elem_of_In, List.filter_In in Ha. apply Ha.
Qed.

Lemma searchCondition_facade env condition s :
  facadeCache s ->
  exists r s',
    searchCondition env condition s = (Returns r, s')
    /\ facadeCache s'
    /\ SearchResult.condition r = condition /\ composed r
    /\ exists e, cache s' !! searchKey condition = Some e /\ data e = DSearch r.
Proof.
  intros Hk.
  destruct (getFromCache_cases (searchKey condition) s)
    as [(e & He & Hf & Hhit)|[_ Hmiss]].
  - pose proof (Hk _ _ He) as Hentry.
    pose proof (facadeEntry_kinded _ _ Hentry) as Hkind.
    destruct (data e) as [l|l|l|hit] eqn:Hd; cbn in Hkind.
    + now destruct (keys_apart condition None None None) as (_ & _ & K & _).
    + destruct Hkind as (sp & loc & Hkey).
      now destruct (keys_apart condition sp loc None)
        as (_ & _ & _ & _ & K & _).
    + destruct Hkind as (c & st & Hkey).
      destruct (keys_apart c None None st) as (_ & _ & _ & _ & _ & K).
      now destruct (K condition).
    + exists hit, s. destruct Hentry as [Hkey Hcomposed].
      split; [unfold searchCondition, bind; now rewrite Hhit|].
      split; [exact Hk|]. split; [|split; [exact Hcomposed | now exists e]].
      symmetry. now apply searchKey_inj.
  - pose proof (facadeCache_delete (searchKey condition) s Hk) as Hk0.
    destruct (getAllArticles_facade env _ Hk0)
      as (articles & sa & Ha & Hka & _).
    destruct (getLawFirms_facade env (Some condition) None
                (withClock (clock s) sa) Hka)
      as (firms & sf & Hf & Hkf & Hfirms).
    destruct (getSettlementData_facade env condition None
                (withClock (clock s) sf) Hkf)
      as (served & sd & Hd & Hkd & _).
    unfold searchCondition, bind at 1. rewrite Hmiss.
    unfold tryCatch, bind at 1, promiseAll3, searchArticles, bind at 1.
    rewrite Ha. cbn [ret clock withCache]. rewrite Hf, Hd.
    eexists. eexists. split; [reflexivity|].
    assert (Hcomposed :
      composed
        {| SearchResult.condition := condition;
           SearchResult.articles :=
             List.filter (matchesCondition condition) articles;
           SearchResult.lawFirms := firms;
           SearchResult.settlements := getDefaultSettlementData served;
           SearchResult.summary :=
             generateSummary condition
               (List.filter (matchesCondition condition) articles)
               (getDefaultSettlementData served) |}).
    { repeat split; cbn; [apply filter_Forall_true | exact Hfirms | now exists served]. }
    split; [|split; [reflexivity | split; [exact Hcomposed|]]].
    + apply (facadeCache_stored _ _ (withClock _ sd)); [exact Hkd|]. now split.
    + eexists. split; [apply stored_lookup | reflexivity].
Qed.

Lemma afterCall_facade env call s :
  facadeCache s -> exists s', afterCall env call s = Some s' /\ facadeCache s'.
Proof.
  intros Hk. destruct call as [|sp loc|c st|c| |now]; cbn [afterCall].
  - destruct (getAllArticles_facade env s Hk) as (r & s' & -> & Hk' & _).
    now exists s'.
  - destruct (getLawFirms_facade env sp loc s Hk) as (r & s' & -> & Hk' & _).
    now exists s'.
  - destruct (getSettlementData_facade env c st s Hk) as (r & s' & -> & Hk' & _).
    now exists s'.
  - destruct (searchCondition_facade env c s Hk) as (r & s' & -> & Hk' & _).
    now exists s'.
  - eexists. split; [reflexivity|].
    intros key e H. cbn in H. now rewrite lookup_empty in H.
  - exists (withClock now s). split; [reflexivity | exact Hk].
Qed.

Lemma afterCalls_facade env calls s :
  facadeCache s -> exists s', afterCalls env calls s = Some s' /\ facadeCache s'.
Proof.
  revert s. induction calls as [|call rest IH]; intros s Hk; cbn [afterCalls].
  - now exists s.
  - destruct (afterCall_facade env call s Hk) as (s1 & -> & Hk1).
    now apply IH.
Qed.

(** X5. A service that starts with an empty cache always answers:
    whatever the providers do and however the clock moves, after any
    sequence of facade calls each of [getAllArticles], [searchArticles],
    [getLawFirms], [getSettlementData] and [searchCondition] returns a
    value; none of them ever throws. *)
Theorem service_always_answers (env : Env) (googleApiKey : option string)
    (now : Z) (calls : list FacadeCall) :
  exists s,
    afterCalls env calls (newService googleApiKey now) = Some s
    /\ (exists r s', getAllArticles env s = (Returns r, s'))
    /\ (forall condition,
          exists r s', searchArticles env condition s = (Returns r, s'))
    /\ (forall specialty location,
          exists r s', getLawFirms env specialty location s = (Returns r, s'))
    /\ (forall condition state,
          exists r s', getSettlementData env condition state s = (Returns r, s'))
    /\ (forall condition,
          exists r s', searchCondition env condition s = (Returns r, s')).
Proof.
  destruct (afterCalls_facade env calls (newService googleApiKey now))
    as (s & Hrun & Hk); [apply facadeCache_newService|].
  exists s. split; [exact Hrun|].
  destruct (getAllArticles_facade env s Hk) as (r & s' & Hr & _).
  repeat apply conj.
  - now exists r, s'.
  - intros condition. unfold searchArticles, bind. rewrite Hr.
    now eexists; eexists.
  - intros specialty location.
    destruct (getLawFirms_facade env specialty location s Hk)
      as (firms & sf & Hf & _).
    now exists firms, sf.
  - intros condition state.
    destruct (getSettlementData_facade env condition state s Hk)
      as (served & sd & Hd & _).
    eexists. eexists. exact Hd.
  - intros condition.
    destruct (searchCondition_facade env condition s Hk)
      as (found & sc & Hc & _).
    now exists found, sc.
Qed.

(** X6. No settlement record ever comes from a provider. On a service
    that starts with an empty cache, whatever the spreadsheet and HubSpot
    answer, every [getSettlementData(condition, state)] returns the
    built-in default list of a condition whose cache key is the one of the
    query, of the queried condition itself when nothing is cached under
    the key; so does the [settlements] field of every [searchCondition]
    result. *)
Theorem settlements_are_built_in (env : Env) (googleApiKey : option string)
    (now : Z) (calls : list FacadeCall) :
  exists s,
    afterCalls env calls (newService googleApiKey now) = Some s
    /\ (forall condition state,
          exists served s',
            getSettlementData env condition state s
            = (Returns (getDefaultSettlementData served), s')
            /\ (exists state', settlementKey served state'
                               = settlementKey condition state)
            /\ (cache s !! settlementKey condition state = None ->
                served = condition))
    /\ (forall condition,
          exists r s',
            searchCondition env condition s = (Returns r, s')
            /\ exists served,
                 SearchResult.settlements r = getDefaultSettlementData served).
Proof.
  destruct (afterCalls_facade env calls (newService googleApiKey now))
    as (s & Hrun & Hk); [apply facadeCache_newService|].
  exists s. split; [exact Hrun|]. split.
  - intros condition state.
    destruct (getSettlementData_facade env condition state s Hk)
      as (served & s' & Hd & _ & Hkey & Hnone).
    now exists served, s'.
  - intros condition.
    destruct (searchCondition_facade env condition s Hk)
      as (r & s' & Hc & _ & _ & (_ & _ & Hsettle & _) & _).
    now exists r, s'.
Qed.

(** X7. On a service that starts with an empty cache, [getAllArticles()]
    never returns an empty list and never mixes sources: the list is
    either the built-in articles (all tagged [fallback]) or made of
    provider records only (tagged [google_sheets] or [hubspot], with the
    id prefix of their source). Likewise [getLawFirms] returns either
    built-in firms only (possibly none) or a non-empty list of provider
    records only. *)
Theorem lists_by_provenance (env : Env) (googleApiKey : option string)
    (now : Z) (calls : list FacadeCall) :
  exists s,
    afterCalls env calls (newService googleApiKey now) = Some s
    /\ (exists r s',
          getAllArticles env s = (Returns r, s')
          /\ r <> []
          /\ (Forall builtInArticle r \/ Forall providerArticle r))
    /\ (forall specialty location,
          exists r s',
            getLawFirms env specialty location s = (Returns r, s')
            /\ (Forall fallbackFirmRecord r
                \/ (r <> [] /\ Forall providerFirm r))).
Proof.
  destruct (afterCalls_facade env calls (newService googleApiKey now))
    as (s & Hrun & Hk); [apply facadeCache_newService|].
  exists s. split; [exact Hrun|]. split.
  - destruct (getAllArticles_facade env s Hk) as (r & s' & Hr & _ & Hne & Hlist).
    now exists r, s'.
  - intros specialty location.
    destruct (getLawFirms_facade env specialty location s Hk)
      as (r & s' & Hr & _ & Hlist).
    now exists r, s'.
Qed.

(** X8. On a service that starts with an empty cache the [catch] block
    of [searchCondition] is never reached: the result always carries the
    condition asked for, articles that all match it, and the summary
    [generateSummary] builds from its articles and settlements; it is
    never the placeholder that says the information is being updated. *)
Theorem searchCondition_is_composed (env : Env) (googleApiKey : option string)
    (now : Z) (calls : list FacadeCall) (condition : string) :
  exists s r s',
    afterCalls env calls (newService googleApiKey now) = Some s
    /\ searchCondition env condition s = (Returns r, s')
    /\ SearchResult.condition r = condition
    /\ Forall (fun a => matchesCondition condition a = true)
              (SearchResult.articles r)
    /\ SearchResult.summary r
       = generateSummary condition (SearchResult.articles r)
                         (SearchResult.settlements r)
    /\ r <> beingUpdated condition.
Proof.
  destruct (afterCalls_facade env calls (newService googleApiKey now))
    as (s & Hrun & Hk); [apply facadeCache_newService|].
  destruct (searchCondition_facade env condition s Hk)
    as (r & s' & Hc & _ & Hcond & (Harticles & _ & (served & Hsettle) & Hsum) & _).
  exists s, r, s'. rewrite Hcond in *.
  repeat split; trivial.
  intros ->. cbn in Hsettle. discriminate.
Qed.

(** ** The provider calls of a query *)

Lemma logs_ret {A} (a : A) : logs (ret a) [].
Proof. intros s r s' [= _ <-]. now rewrite app_nil_r. Qed.

Lemma logs_throw {A} e : logs (@throw A e) [].
Proof. intros s r s' [= _ <-]. now rewrite app_nil_r. Qed.

Lemma logs_lift {A} (o : Outcome A) : logs (lift o) [].
Proof. intros s r s' [= _ <-]. now rewrite app_nil_r. Qed.

Lemma logs_getThis {A} (field : State -> A) : logs (getThis field) [].
Proof. intros s r s' [= _ <-]. now rewrite app_nil_r. Qed.

Lemma logs_callProvider {A} env call (answer : nat -> Outcome A) :
  logs (callProvider env call answer) [call].
Proof. now intros s r s' [= _ <-]. Qed.

Lemma logs_mathRandom env : logs (mathRandom env) [].
Proof. intros s r s' [= _ <-]. cbn. now rewrite app_nil_r. Qed.

Lemma logs_newDateISO env : logs (newDateISO env) [].
Proof. intros s r s' [= _ <-]. now rewrite app_nil_r. Qed.

Lemma logs_if {A} (b : bool) (m1 m2 : M A) l :
  logs m1 l -> logs m2 l -> logs (if b then m1 else m2) l.
Proof. now destruct b. Qed.

(** A computation followed by one that calls no provider. *)
Lemma logs_bind {A B} (m : M A) (k : A -> M B) l :
  logs m l -> (forall a, logs (k a) []) -> logs (bind m k) l.
Proof.
  intros Hm Hk s r s'. unfold bind.
  destruct (m s) as [[a|e] s1] eqn:E.
  - intros Hrun. rewrite (Hk a _ _ _ Hrun), app_nil_r. exact (Hm _ _ _ E).
  - intros [= _ <-]. exact (Hm _ _ _ E).
Qed.

(** A computation that always returns, followed by another one. *)
Lemma logs_bind_total {A B} (m : M A) (k : A -> M B) l1 l2 :
  total m -> logs m l1 -> (forall a, logs (k a) l2) ->
  logs (bind m k) (l1 ++ l2).
Proof.
  intros Ht Hm Hk s r s'. unfold bind.
  destruct (Ht s) as (a & s1 & E). rewrite E. intros Hrun.
  rewrite (Hk a _ _ _ Hrun), (Hm _ _ _ E). now rewrite app_assoc.
Qed.

Lemma logs_tryCatch {A} (body : M A) (handler : string -> M A) l :
  logs body l -> (forall e, logs (handler e) []) ->
  logs (tryCatch body handler) l.
Proof.
  intros Hb Hh s r s'. unfold tryCatch.
  destruct (body s) as [[a|e] s1] eqn:E.
  - intros [= _ <-]. exact (Hb _ _ _ E).
  - intros Hrun. rewrite (Hh e _ _ _ Hrun), app_nil_r. exact (Hb _ _ _ E).
Qed.

Lemma logs_mapM {A B} (f : A -> M B) (l : list A) :
  (forall a, logs (f a) []) -> logs (mapM f l) [].
Proof.
  intros Hf. induction l as [|a l IH]; cbn [mapM]; [apply logs_ret|].
  apply logs_bind; [apply Hf|]. intros b.
  apply logs_bind; [exact IH|]. intros bs. apply logs_ret.
Qed.

Lemma logs_readSheet env sheetName :
  logs (readSheet env sheetName) [ ReadSheetCall sheetName ].
Proof.
  unfold readSheet, makeRequest. apply logs_bind.
  - apply logs_tryCatch; [apply logs_callProvider|]. intros e. apply logs_throw.
  - intros [[|headers rows]|]; apply logs_ret.
Qed.

Lemma logs_orRandom env v : logs (orRandom env v) [].
Proof. unfold orRandom. apply logs_if; [apply logs_ret | apply logs_mathRandom]. Qed.

Lemma logs_orNow env v : logs (orNow env v) [].
Proof. unfold orNow. apply logs_if; [apply logs_ret | apply logs_newDateISO]. Qed.

Lemma logs_mapSheetRowToArticle env row sheetName :
  logs (mapSheetRowToArticle env row sheetName) [].
Proof.
  unfold mapSheetRowToArticle.
  apply logs_tryCatch; [|intros e; apply logs_ret].
  repeat (apply logs_if);
    repeat first [ apply logs_ret
                 | apply logs_bind; [first [apply logs_orRandom | apply logs_orNow]|];
                   intros ? ].
Qed.

Lemma logs_readArticleSheet env articles sheetName :
  logs (readArticleSheet env articles sheetName) [ ReadSheetCall sheetName ].
Proof.
  unfold readArticleSheet.
  apply logs_tryCatch; [|intros e; apply logs_ret].
  apply logs_bind; [apply logs_readSheet|]. intros sheet.
  apply logs_bind; [|intros mapped; apply logs_ret].
  apply logs_mapM. intros row. apply logs_mapSheetRowToArticle.
Qed.

Lemma total_readArticleSheet env articles sheetName :
  total (readArticleSheet env articles sheetName).
Proof.
  unfold readArticleSheet. apply total_tryCatch. intros e. apply total_ret.
Qed.

Lemma logs_foldM_sheets env sheets articles :
  logs (foldM (readArticleSheet env) articles sheets)
       (List.map ReadSheetCall sheets).
Proof.
  revert articles. induction sheets as [|sheetName rest IH]; intros articles;
    cbn [foldM List.map]; [apply logs_ret|].
  apply (logs_bind_total _ _ [ ReadSheetCall sheetName ]).
  - apply total_readArticleSheet.
  - apply logs_readArticleSheet.
  - intros acc. apply IH.
Qed.

Lemma getArticlesFromGoogleSheets_calls env s r s' :
  getArticlesFromGoogleSheets env s = (r, s') ->
  calls s' = calls s ++ sheetReads s.
Proof.
  unfold getArticlesFromGoogleSheets, bind at 1, getThis, sheetReads.
  destruct (googleSheets s); cbn [negb].
  - apply logs_tryCatch; [apply logs_foldM_sheets | intros e; apply logs_ret].
  - intros [= _ <-]. now rewrite app_nil_r.
Qed.

Lemma getArticlesFromHubSpot_calls env s r s' :
  getArticlesFromHubSpot env s = (r, s') ->
  calls s' = calls s ++ diseaseSearch s.
Proof.
  unfold getArticlesFromHubSpot, bind at 1, getThis, diseaseSearch.
  destruct (hubspot s); cbn [negb].
  - apply logs_tryCatch; [|intros e; apply logs_ret].
    apply logs_bind; [apply logs_callProvider | intros a; apply logs_ret].
  - intros [= _ <-]. now rewrite app_nil_r.
Qed.

(** X9. What a refresh of the articles asks of the providers, in the
    order of the requests. When nothing fresh is cached,
    [getAllArticles()] asks for the sheet Medical Conditions, then
    searches HubSpot (empty query, limit 50), then asks for the sheets
    Legal Cases and Manufacturer Cases: the search goes out as soon as the
    first sheet has been asked for, before any answer. A connector that
    is not configured is not asked. The calls are made whatever the
    providers answer (a sheet that cannot be read does not stop the next
    one), no other call is made, and which connectors are configured does
    not change. *)
Theorem getAllArticles_requests (env : Env) (s : State) :
  missed "all_articles" s ->
  exists r s',
    getAllArticles env s = (Returns r, s')
    /\ calls s'
       = calls s
         ++ match googleSheets s, hubspot s with
            | true, true =>
                [ ReadSheetCall "Medical Conditions";
                  SearchDiseasesCall "" None 50;
                  ReadSheetCall "Legal Cases";
                  ReadSheetCall "Manufacturer Cases" ]
            | true, false =>
                [ ReadSheetCall "Medical Conditions";
                  ReadSheetCall "Legal Cases";
                  ReadSheetCall "Manufacturer Cases" ]
            | false, true => [ SearchDiseasesCall "" None 50 ]
            | false, false => []
            end
    /\ googleSheets s' = googleSheets s /\ hubspot s' = hubspot s.
Proof.
  intros Hmissed.
  pose proof (getFromCache_missed _ _ Hmissed) as Hmiss.
  set (s0 := afterMiss "all_articles" s) in *.
  destruct (total_getArticlesFromGoogleSheets env s0) as (x & s1 & Hx).
  destruct (total_getArticlesFromHubSpot env (withClock (clock s0) s1))
    as (y & s2 & Hy).
  rewrite (getAllArticles_miss env s _ x s1 y s2 Hmiss Hx Hy).
  pose proof (getArticlesFromGoogleSheets_calls env _ _ _ Hx) as Hc1.
  pose proof (getArticlesFromHubSpot_calls env _ _ _ Hy) as Hc2.
  destruct (joined_sameService _ _ _ _ _ _ _
              (keeps_getArticlesFromGoogleSheets env)
              (keeps_getArticlesFromHubSpot env) Hx Hy) as (_ & Hg & Hh).
  destruct (keeps_getArticlesFromGoogleSheets env _ _ _ Hx) as (_ & _ & Hh1).
  eexists. eexists. split; [reflexivity|].
  split; [|split; [exact Hg | exact Hh]].
  assert (Hd : diseaseSearch (withClock (clock s0) s1) = diseaseSearch s).
  { unfold diseaseSearch. cbn. now rewrite Hh1. }
  assert (Hs : sheetReads s0 = sheetReads s) by reflexivity.
  rewrite Hd in Hc2. rewrite Hs in Hc1.
  change (calls (withClock (clock s0) s1)) with (calls s1) in Hc2.
  change (calls s0) with (calls s) in Hc1.
  cbn [stored withCache joined joinedAt calls].
  unfold newCalls. rewrite Hc2, Hc1.
  change (calls s0) with (calls s).
  rewrite drop_app_length, drop_app_length.
  unfold sheetReads, diseaseSearch, articleSheets.
  destruct (googleSheets s), (hubspot s); reflexivity.
Qed.

Lemma getAllArticles_requests_witness :
  exists r s',
    getAllArticles sampleEnv sampleStart = (Returns r, s')
    /\ calls s'
       = [ ReadSheetCall "Medical Conditions"; SearchDiseasesCall "" None 50;
           ReadSheetCall "Legal Cases"; ReadSheetCall "Manufacturer Cases" ].
Proof.
  destruct (getAllArticles_requests sampleEnv sampleStart)
    as (r & s' & Hrun & Hcalls & _).
  - intros e He. cbn in He. now rewrite lookup_empty in He.
  - exists r, s'. split; [exact Hrun | exact Hcalls].
Defined.

(** ** The cache across time *)

(** X10. Round trip through the cache: what [setCache(key, data)] stores
    is what [getFromCache(key)] returns while less than 300000 ms have
    passed, and a miss from then on (the 300000th millisecond included);
    a second [setCache] under the key replaces the data, a [setCache]
    under another key changes nothing for this one, and after
    [clearCache()] every read is a miss. *)
Theorem cache_round_trip (key : string) (d : CacheData) (s : State) :
  cacheTimeout = 300000
  /\ (forall now,
        fst (getFromCache key (withClock now (snd (setCache key d s))))
        = Returns (if now - clock s <? cacheTimeout then Some d else None))
  /\ (forall d',
        fst (getFromCache key (snd (setCache key d' (snd (setCache key d s)))))
        = Returns (Some d'))
  /\ (forall other d',
        other <> key ->
        fst (getFromCache key (snd (setCache other d' (snd (setCache key d s)))))
        = Returns (Some d))
  /\ (forall other,
        fst (getFromCache other (snd (clearCache (snd (setCache key d s)))))
        = Returns None).
Proof.
  assert (Hfresh : (clock s - clock s <? cacheTimeout) = true)
    by (rewrite Z.sub_diag; reflexivity).
  repeat apply conj.
  - reflexivity.
  - intros now. unfold getFromCache, setCache. cbn.
    rewrite lookup_insert_eq. cbn. now destruct (now - clock s <? cacheTimeout).
  - intros d'. unfold getFromCache, setCache. cbn.
    rewrite lookup_insert_eq. cbn. now rewrite Hfresh.
  - intros other d' Hne. unfold getFromCache, setCache. cbn.
    rewrite lookup_insert_ne by congruence. rewrite lookup_insert_eq. cbn.
    now rewrite Hfresh.
  - intros other. unfold getFromCache, setCache, clearCache. cbn.
    now rewrite lookup_empty.
Qed.

Lemma searchCondition_hit env condition s e hit :
  cache s !! searchKey condition = Some e -> fresh s e ->
  data e = DSearch hit ->
  searchCondition env condition s = (Returns hit, s).
Proof.
  intros He Hf Hd. unfold searchCondition, bind.
  rewrite (getFromCache_hit _ _ _ He Hf), Hd. reflexivity.
Qed.

(** X11. Every query of the facade is served from the cache the second
    time. On a service that starts with an empty cache, once
    [getLawFirms], [getSettlementData] or [searchCondition] has returned,
    the same call made while less than five minutes have passed since the
    result was stored returns the same value and leaves the whole state,
    the log of provider calls included, as it was. *)
Theorem queries_are_cached (env : Env) (googleApiKey : option string)
    (now : Z) (calls : list FacadeCall) :
  exists s,
    afterCalls env calls (newService googleApiKey now) = Some s
    /\ (forall specialty location,
          exists r s1 e,
            getLawFirms env specialty location s = (Returns r, s1)
            /\ cache s1 !! lawFirmsKey specialty location = Some e
            /\ forall later,
                 later - timestamp e < cacheTimeout ->
                 getLawFirms env specialty location (withClock later s1)
                 = (Returns r, withClock later s1))
    /\ (forall condition state,
          exists r s1 e,
            getSettlementData env condition state s = (Returns r, s1)
            /\ cache s1 !! settlementKey condition state = Some e
            /\ forall later,
                 later - timestamp e < cacheTimeout ->
                 getSettlementData env condition state (withClock later s1)
                 = (Returns r, withClock later s1))
    /\ (forall condition,
          exists r s1 e,
            searchCondition env condition s = (Returns r, s1)
            /\ cache s1 !! searchKey condition = Some e
            /\ forall later,
                 later - timestamp e < cacheTimeout ->
                 searchCondition env condition (withClock later s1)
                 = (Returns r, withClock later s1)).
Proof.
  destruct (afterCalls_facade env calls (newService googleApiKey now))
    as (s & Hrun & Hk); [apply facadeCache_newService|].
  exists s. split; [exact Hrun|]. repeat apply conj.
  - intros specialty location.
    destruct (getLawFirms_facade env specialty location s Hk)
      as (r & s1 & Hr & _).
    destruct (getLawFirms_stores env _ _ _ _ _ Hr) as (e & He & Hd).
    exists r, s1, e. repeat split; trivial.
    intros later Hfresh.
    now apply (getLawFirms_hit env _ _ (withClock later s1) e r).
  - intros condition state.
    destruct (getSettlementData_facade env condition state s Hk)
      as (served & s1 & Hr & _).
    destruct (getSettlementData_stores env _ _ _ _ _ Hr) as (e & He & Hd).
    eexists. exists s1, e. repeat split; [exact Hr | exact He|].
    intros later Hfresh.
    now apply (getSettlementData_hit env _ _ (withClock later s1) e).
  - intros condition.
    destruct (searchCondition_facade env condition s Hk)
      as (r & s1 & Hr & _ & _ & _ & (e & He & Hd)).
    exists r, s1, e. repeat split; trivial.
    intros later Hfresh.
    now apply (searchCondition_hit env _ (withClock later s1) e r).
Qed.

(** ** The articles the providers give *)

Lemma toLowerCase_app a b :
  toLowerCase (a +:+ b) = toLowerCase a +:+ toLowerCase b.
Proof.
  induction a as [|c a IH]; [reflexivity|].
  rewrite append_cons. cbn [toLowerCase]. now rewrite append_cons, IH.
Qed.

Lemma replaceRuns_separator inRun a p :
  replaceRuns inRun (a +:+ " - " +:+ p) = replaceRuns inRun (a +:+ "-" +:+ p).
Proof.
  revert inRun. induction a as [|c a IH]; intros inRun.
  - rewrite !append_nil_l. now destruct inRun.
  - rewrite !append_cons. cbn [replaceRuns]. now rewrite !IH.
Qed.

Lemma createSlug_separator a p :
  createSlug (a +:+ "-" +:+ p) = createSlug (a +:+ " - " +:+ p).
Proof.
  unfold createSlug. rewrite !toLowerCase_app.
  change (toLowerCase " - ") with " - ". change (toLowerCase "-") with "-".
  now rewrite replaceRuns_separator.
Qed.

Lemma mapSheetRowToArticle_sheetRecord env row sheetName :
  ensures (mapSheetRowToArticle env row sheetName)
          (fun mapped => forall a, mapped = Some a -> sheetRecord a).
Proof.
  unfold mapSheetRowToArticle.
  apply ensures_tryCatch; [|intros e; apply ensures_ret; discriminate].
  apply ensures_if; [|apply ensures_if; [|apply ensures_if]].
  - apply ensures_bind_any; intros id. apply ensures_bind_any; intros date.
    apply ensures_ret. intros a [= <-]. unfold sheetRecord. cbn.
    split; [reflexivity|]. split; [now eexists|].
    split; [exists "medical", id; split; [tauto | now split]|].
    repeat first [apply parseList_listItems | apply Forall_nil | apply Forall_app_2].
  - apply ensures_bind_any; intros id. apply ensures_bind_any; intros date.
    apply ensures_ret. intros a [= <-]. unfold sheetRecord. cbn.
    split; [reflexivity|]. split; [now eexists|].
    split; [exists "legal", id; split; [tauto | now split]|].
    repeat first [apply parseList_listItems | apply Forall_nil | apply Forall_app_2].
  - apply ensures_bind_any; intros id. apply ensures_bind_any; intros date.
    apply ensures_ret. intros a [= <-]. unfold sheetRecord. cbn.
    split; [apply createSlug_separator|]. split; [now eexists|].
    split; [exists "manufacturer", id; split; [tauto | now split]|].
    repeat first [apply parseList_listItems | apply Forall_nil | apply Forall_app_2].
  - apply ensures_ret. discriminate.
Qed.

Lemma getArticlesFromGoogleSheets_sheetRecords env :
  ensures (getArticlesFromGoogleSheets env) (Forall sheetRecord).
Proof.
  unfold getArticlesFromGoogleSheets.
  apply ensures_bind_any. intros configured.
  apply ensures_if; [apply ensures_ret; constructor|].
  apply ensures_tryCatch; [|intros e; apply ensures_ret; constructor].
  apply ensures_foldM; [constructor|].
  intros articles sheetName Hacc. unfold readArticleSheet.
  apply ensures_tryCatch; [|intros e; now apply ensures_ret].
  apply ensures_bind_any. intros sheet.
  eapply ensures_bind;
    [apply ensures_mapM; intros row; apply mapSheetRowToArticle_sheetRecord|].
  intros mapped Hmapped. apply ensures_ret.
  apply Forall_app. split; [exact Hacc | now apply keepMapped_Forall].
Qed.

Lemma orElse_truthy a b : truthy b = true -> truthy (orElse a b) = true.
Proof. unfold orElse. now destruct (truthy a) eqn:E. Qed.

(** X12. The shape of the provider articles. Every article
    [getArticlesFromGoogleSheets] returns has the slug [createSlug] gives
    for its own title (for a manufacturer case too, whose title and slug
    are built from two cells), a date, the category of its sheet with the
    matching id prefix, and list fields whose items are non-empty,
    trimmed and free of separators. Every article
    [getArticlesFromHubSpot] returns has the slug of its title, a
    non-empty category, its description as overview, and no treatments,
    legal options or settlements. Three of the six built-in articles
    carry a slug that is not the slug of their title. *)
Theorem provider_articles_shape (env : Env) :
  (forall s l s',
     getArticlesFromGoogleSheets env s = (Returns l, s') ->
     Forall sheetRecord l)
  /\ (forall s l s',
        getArticlesFromHubSpot env s = (Returns l, s') ->
        Forall hubspotRecord l)
  /\ (forall now,
        List.map Article.id (List.filter ownSlug (getFallbackArticles now))
        = [ IdNum 1; IdNum 4; IdNum 6 ]).
Proof.
  repeat apply conj.
  - apply getArticlesFromGoogleSheets_sheetRecords.
  - change (ensures (getArticlesFromHubSpot env) (Forall hubspotRecord)).
    unfold getArticlesFromHubSpot.
    apply ensures_bind_any. intros configured.
    apply ensures_if; [apply ensures_ret; constructor|].
    apply ensures_tryCatch; [|intros e; apply ensures_ret; constructor].
    apply ensures_bind_any. intros diseases. apply ensures_ret.
    apply Forall_map, Forall_forall. intros disease _.
    unfold hubspotRecord, diseaseArticle. cbn.
    repeat split. now apply orElse_truthy.
  - intros now. vm_compute. reflexivity.
Qed.

(** ** The merge of settlement records, as a function of its input *)

Lemma existsb_own {V} (o : list (string * V)) key :
  existsb (String.eqb key) (List.map fst o)
  = match JsObject.own o key with Some _ => true | None => false end.
Proof.
  induction o as [|[k v] o IH]; cbn; [reflexivity|].
  destruct (String.eqb key k); [reflexivity | exact IH].
Qed.

Lemma map_fst_put_addKey {V} (o : list (string * V)) key v :
  List.map fst (JsObject.put o key v) = addKey (List.map fst o) key.
Proof.
  unfold addKey. rewrite map_fst_put, existsb_own.
  now destruct (JsObject.own o key).
Qed.

Lemma groupAll_keys merged grouped grouped' :
  groupAll grouped merged = Returns grouped' ->
  List.map fst grouped'
  = fold_left addKey (List.map groupKey merged) (List.map fst grouped).
Proof.
  revert grouped. induction merged as [|item rest IH]; intros grouped;
    cbn [groupAll List.map fold_left]; [now intros [= ->]|].
  destruct (groupStep grouped item) as [g1|e] eqn:Hstep; [|discriminate].
  intros Hrun. rewrite (IH g1 Hrun). f_equal.
  unfold groupStep in Hstep.
  destruct (JsObject.get grouped (groupKey item)); try discriminate;
    injection Hstep as <-; apply map_fst_put_addKey.
Qed.

Lemma fold_moreComplete_find rest first :
  complete first = false ->
  fold_left moreComplete rest first
  = match List.find complete rest with Some record => record | None => first end.
Proof.
  revert first. induction rest as [|current rest IH]; intros first Hfirst;
    cbn [fold_left List.find]; [reflexivity|].
  unfold moreComplete at 2. fold (complete current). fold (complete first).
  rewrite Hfirst. cbn [negb]. rewrite andb_true_r.
  destruct (complete current) eqn:Hc.
  - now apply fold_moreComplete_keeps.
  - now apply IH.
Qed.

Lemma reduceGroup_chosen group r :
  reduceGroup group = Returns r -> chosen group = Some r.
Proof.
  destruct group as [|first rest]; [discriminate|].
  cbn [reduceGroup chosen List.find]. intros [= <-]. f_equal.
  destruct (complete first) eqn:Hfirst; symmetry.
  - now apply fold_moreComplete_keeps.
  - now apply fold_moreComplete_find.
Qed.

Lemma Forall2_In_impl {A B} (R Q : A -> B -> Prop) l k :
  Forall2 R l k -> (forall x y, In x l -> R x y -> Q x y) -> Forall2 Q l k.
Proof.
  induction 1 as [|a b l k Hab _ IH]; intros H; constructor.
  - apply H; [now left | exact Hab].
  - apply IH. intros x y Hx. apply H. now right.
Qed.

(** X13. [mergeSettlementData] as a function of its input. When the key
    [condition_state] (state [all] when there is none) of some record is
    the name of a member every object inherits, the merge throws.
    Otherwise it returns one record for each key, the keys taken in the
    order in which they first appear in the spreadsheet records followed
    by the HubSpot records; the record of a key is the first record with
    that key that has a settlement range, and the first record with that
    key when none has one. *)
Theorem mergeSettlementData_exact (sheetsData hubspotData : list Settlement.t) :
  let merged := sheetsData ++ hubspotData in
  if existsb (fun item => JsObject.inherited (groupKey item)) merged
  then exists e, mergeSettlementData sheetsData hubspotData = Throws e
  else exists out,
         mergeSettlementData sheetsData hubspotData = Returns out
         /\ Forall2 (fun key record =>
                       chosen (List.filter (hasKey key) merged) = Some record)
                    (keysInOrder merged) out.
Proof.
  intros merged.
  destruct (existsb _ merged) eqn:Hex.
  - apply mergeSettlementData_throws_iff.
    apply List.existsb_exists in Hex. exact Hex.
  - assert (Hkeys : forall item, In item merged ->
                      JsObject.inherited (groupKey item) = false).
    { intros item Hin.
      destruct (JsObject.inherited (groupKey item)) eqn:Hi; [|reflexivity].
      assert (Hyes : existsb (fun item => JsObject.inherited (groupKey item))
                             merged = true)
        by (apply List.existsb_exists; now exists item).
      congruence. }
    unfold mergeSettlementData. fold merged.
    destruct (groupAll_groupedAs merged [] []) as (grouped & Hrun & [Hown Hnd]).
    { split; [reflexivity | constructor]. }
    { exact Hkeys. }
    rewrite Hrun. cbn [List.app] in Hown.
    assert (Hgroups : forall key group,
              In (key, group) grouped ->
              group = List.filter (hasKey key) merged /\ group <> []).
    { intros key group Hin. pose proof (own_of_In _ _ _ Hnd Hin) as E.
      rewrite Hown in E. unfold expected in E.
      destruct (List.filter (hasKey key) merged); [discriminate|].
      injection E as <-. split; [reflexivity | discriminate]. }
    destruct (mapOutcome_reduceGroup grouped) as (out & -> & Hall).
    { intros key group Hin. apply (Hgroups key group Hin). }
    exists out. split; [reflexivity|].
    unfold keysInOrder.
    change (@nil string) with (List.map fst (@nil (string * list Settlement.t))).
    rewrite <- (groupAll_keys merged [] grouped Hrun).
    apply Forall2_fmap_l.
    apply (Forall2_In_impl _ _ _ _ Hall).
    intros [key group] r Hin Hr. unfold compose. cbn [fst snd] in *.
    destruct (Hgroups key group Hin) as [-> _].
    now apply reduceGroup_chosen.
Qed.

(** ** The rows [readSheet] builds *)

Lemma map_fst_assignString o key value :
  List.map fst (JsObject.assignString o key value)
  = if String.eqb key "__proto__" then List.map fst o
    else match JsObject.own o key with
         | Some _ => List.map fst o
         | None => List.map fst o ++ [key]
         end.
Proof.
  unfold JsObject.assignString.
  destruct (String.eqb key "__proto__"); [reflexivity | apply map_fst_put].
Qed.

Lemma own_Some_keys {V} (o : list (string * V)) key v :
  JsObject.own o key = Some v -> In key (List.map fst o).
Proof.
  intros H. apply own_Some_In in H.
  apply List.in_map_iff. now exists (key, v).
Qed.

Lemma NoDup_assignString o key value :
  List.NoDup (List.map fst o) ->
  List.NoDup (List.map fst (JsObject.assignString o key value)).
Proof.
  intros Hnd. rewrite map_fst_assignString.
  destruct (String.eqb key "__proto__"); [exact Hnd|].
  destruct (JsObject.own o key) eqn:E; [exact Hnd|].
  apply NoDup_snoc; [exact Hnd | now apply own_None_not_In].
Qed.

Lemma keys_assignString o key value header :
  In header (List.map fst (JsObject.assignString o key value))
  <-> In header (List.map fst o) \/ (header = key /\ key <> "__proto__").
Proof.
  rewrite map_fst_assignString.
  destruct (String.eqb_spec key "__proto__") as [->|Hne]; [tauto|].
  destruct (JsObject.own o key) eqn:E.
  - pose proof (own_Some_keys _ _ _ E). intuition congruence.
  - rewrite List.in_app_iff. cbn. intuition congruence.
Qed.

Lemma own_assignString_other o key value header :
  header <> key ->
  JsObject.own (JsObject.assignString o key value) header = JsObject.own o header.
Proof.
  intros Hne. unfold JsObject.assignString.
  destruct (String.eqb key "__proto__"); [reflexivity|].
  now apply own_put_other.
Qed.

Lemma own_assignString_same o key value :
  key <> "__proto__" ->
  JsObject.own (JsObject.assignString o key value) key = Some value.
Proof.
  intros Hne. unfold JsObject.assignString.
  destruct (String.eqb_spec key "__proto__"); [contradiction|].
  apply own_put_same.
Qed.

Lemma NoDup_assignColumns headers obj index cells :
  List.NoDup (List.map fst obj) ->
  List.NoDup (List.map fst (assignColumns obj index headers cells)).
Proof.
  revert obj index. induction headers as [|header rest IH]; intros obj index Hnd;
    cbn [assignColumns]; [exact Hnd|].
  now apply IH, NoDup_assignString.
Qed.

Lemma keys_assignColumns headers obj index cells header :
  In header (List.map fst (assignColumns obj index headers cells))
  <-> In header (List.map fst obj)
      \/ (In header headers /\ header <> "__proto__").
Proof.
  revert obj index. induction headers as [|h rest IH]; intros obj index;
    cbn [assignColumns].
  - cbn. tauto.
  - rewrite IH, keys_assignString. cbn [In].
    split; [|intuition congruence].
    intros [[H|[-> H]]|[H1 H2]]; auto.
Qed.

Lemma own_assignColumns_other headers obj index cells header :
  ~ In header headers ->
  JsObject.own (assignColumns obj index headers cells) header
  = JsObject.own obj header.
Proof.
  revert obj index. induction headers as [|h rest IH]; intros obj index Hnot;
    cbn [assignColumns]; [reflexivity|].
  rewrite IH by (intros H; apply Hnot; now right).
  apply own_assignString_other. intros ->. apply Hnot. now left.
Qed.

Lemma own_assignColumns_last headers obj start cells index header :
  headers !! index = Some header -> header <> "__proto__" ->
  (forall later, (index < later)%nat -> headers !! later <> Some header) ->
  JsObject.own (assignColumns obj start headers cells) header
  = Some (List.nth (start + index) cells "").
Proof.
  revert obj start index.
  induction headers as [|h rest IH]; intros obj start index Hat Hne Hlast;
    [discriminate|].
  cbn [assignColumns]. destruct index as [|index].
  - injection Hat as ->. rewrite Nat.add_0_r.
    rewrite own_assignColumns_other.
    + now apply own_assignString_same.
    + intros Hin. apply list_elem_of_In, list_elem_of_lookup in Hin as (j & Hj).
      apply (Hlast (S j)); [lia | exact Hj].
  - cbn in Hat. rewrite (IH _ (S start) index Hat Hne).
    + f_equal. f_equal. lia.
    + intros later Hlater. apply (Hlast (S later)). lia.
Qed.

Lemma rowObject_rowOf headers cells : rowOf headers cells (rowObject headers cells).
Proof.
  unfold rowOf, rowObject. repeat apply conj.
  - apply NoDup_assignColumns. constructor.
  - intros header. rewrite keys_assignColumns. cbn. tauto.
  - intros index header Hat Hne Hlast.
    now rewrite (own_assignColumns_last headers [] 0 cells index header).
Qed.

(** X14. What [readSheet] resolves with. A failed request is rethrown
    with the message prefixed by [Google Sheets request failed: ]; an
    answer without values, or with no row at all, gives no headers and no
    data. Otherwise the first row is the header row and every other row
    becomes one object, in order: it has one property per header name
    (none for a header [__proto__]), each name once; a cell the row does
    not have reads as the empty string, cells beyond the header row are
    dropped, and of two columns with the same header the later one
    wins. *)
Theorem readSheet_shape (env : Env) (sheetName : string) (s : State) :
  match sheetsRequest env (length (calls s)) sheetName with
  | Throws message =>
      fst (readSheet env sheetName s)
      = Throws ("Google Sheets request failed: " +:+ message)
  | Returns None | Returns (Some []) =>
      fst (readSheet env sheetName s) = Returns ([], [])
  | Returns (Some (headers :: rows)) =>
      exists data,
        fst (readSheet env sheetName s) = Returns (headers, data)
        /\ Forall2 (rowOf headers) rows data
  end.
Proof.
  unfold readSheet, makeRequest, bind, tryCatch, callProvider, throw, ret.
  destruct (sheetsRequest env (length (calls s)) sheetName)
    as [[[|headers rows]|]|message]; cbn [fst]; try reflexivity.
  eexists. split; [reflexivity|].
  induction rows as [|cells rows IH]; cbn [List.map]; constructor;
    [apply rowObject_rowOf | exact IH].
Qed.

(** ** Validation of the header row, and the search by column *)









(** ** The statistics of a sheet *)

Lemma sameValueZero_eq a b : sameValueZero a b = true <-> a = b.
Proof.
  destruct a as [x| |], b as [y| |]; cbn; try (split; (discriminate || reflexivity)).
  rewrite String.eqb_eq. split; [now intros -> | now intros [= ->]].
Qed.

Lemma existsb_sameValueZero value seen :
  existsb (sameValueZero value) seen = true <-> In value seen.
Proof.
  rewrite List.existsb_exists. split.
  - intros (x & Hx & Heq). apply sameValueZero_eq in Heq. now subst.
  - intros Hin. exists value. split; [exact Hin | now apply sameValueZero_eq].
Qed.

Lemma uniqueFrom_length seen values :
  (length (uniqueFrom seen values) <= length values)%nat.
Proof.
  revert seen. induction values as [|value rest IH]; intros seen;
    cbn [uniqueFrom length]; [lia|].
  destruct (existsb _ seen); cbn [length].
  - specialize (IH seen). lia.
  - specialize (IH (value :: seen)). lia.
Qed.

Lemma uniqueFrom_In seen values value :
  In value (uniqueFrom seen values) -> In value values /\ ~ In value seen.
Proof.
  revert seen. induction values as [|v rest IH]; intros seen;
    cbn [uniqueFrom]; [intros []|].
  destruct (existsb _ seen) eqn:E.
  - intros H. destruct (IH seen H). split; [now right | assumption].
  - intros [<-|H].
    + split; [now left|]. intros Hin.
      apply existsb_sameValueZero in Hin. congruence.
    + destruct (IH (v :: seen) H) as [Hin Hnot].
      split; [now right|]. intros Hs. apply Hnot. now right.
Qed.

Lemma uniqueFrom_NoDup seen values : List.NoDup (uniqueFrom seen values).
Proof.
  revert seen. induction values as [|v rest IH]; intros seen;
    cbn [uniqueFrom]; [constructor|].
  destruct (existsb _ seen); [apply IH|].
  constructor; [|apply IH].
  intros Hin. apply uniqueFrom_In in Hin as [_ Hnot]. apply Hnot. now left.
Qed.

Lemma uniqueFrom_prefix seen values shown :
  shown `prefix_of` values ->
  exists kept,
    kept `prefix_of` uniqueFrom seen values
    /\ forall value, In value kept <-> In value shown /\ ~ In value seen.
Proof.
  revert seen shown. induction values as [|a rest IH]; intros seen shown Hp.
  - apply prefix_nil_inv in Hp as ->. exists []. split; [apply prefix_nil|].
    cbn. tauto.
  - destruct shown as [|b shown'].
    { exists []. split; [apply prefix_nil|]. cbn. tauto. }
    pose proof (prefix_cons_inv_1 _ _ _ _ Hp) as ->.
    pose proof (prefix_cons_inv_2 _ _ _ _ Hp) as Hp'.
    cbn [uniqueFrom]. destruct (existsb (sameValueZero a) seen) eqn:E.
    + apply existsb_sameValueZero in E.
      destruct (IH seen shown' Hp') as (kept & Hk & Hin).
      exists kept. split; [exact Hk|]. intros value. rewrite Hin. cbn [In].
      split; [tauto|]. intros [[<-|H] Hnot]; [contradiction | tauto].
    + assert (Hnot : ~ In a seen).
      { intros Hin. apply existsb_sameValueZero in Hin. congruence. }
      destruct (IH (a :: seen) shown' Hp') as (kept & Hk & Hin).
      exists (a :: kept). split; [now apply prefix_cons|].
      intros value. cbn [In]. rewrite Hin. cbn [In].
      split.
      * intros [<-|[H Hn]]; [tauto|]. split; [now right|]. tauto.
      * intros [Hor Hn]. destruct (sameValueZero a value) eqn:Ev.
        -- left. now apply sameValueZero_eq.
        -- right. assert (a <> value).
           { intros Heq. apply sameValueZero_eq in Heq. congruence. }
           destruct Hor as [Heq|Hs]; [contradiction|]. tauto.
Qed.

Lemma setOf_firstAppearances values : firstAppearances values (setOf values).
Proof.
  unfold firstAppearances, setOf.
  split; [apply uniqueFrom_NoDup|]. split.
  - intros value. split.
    + intros Hin. now apply uniqueFrom_In in Hin.
    + intros Hin.
      destruct (uniqueFrom_prefix [] values values) as (kept & Hk & Hkept);
        [reflexivity|].
      assert (Hv : In value kept) by (apply Hkept; cbn; tauto).
      destruct Hk as [later ->]. apply in_or_app. now left.
  - intros seen Hp.
    destruct (uniqueFrom_prefix [] values seen Hp) as (kept & Hk & Hkept).
    exists kept. split; [exact Hk|]. intros value. rewrite Hkept. cbn. tauto.
Qed.

Lemma firstAppearances_nil {A} (distinct : list A) :
  firstAppearances [] distinct -> distinct = [].
Proof.
  intros (_ & Hin & _). destruct distinct as [|v rest]; [reflexivity|].
  destruct (proj1 (Hin v) (or_introl eq_refl)).
Qed.

Lemma firstAppearances_again {A} (values distinct : list A) a :
  In a values ->
  firstAppearances (values ++ [a]) distinct -> firstAppearances values distinct.
Proof.
  intros Ha (Hnd & Hin & Hprefix). split; [exact Hnd|]. split.
  - intros v. rewrite Hin, List.in_app_iff. cbn. split; [|tauto].
    intros [H|[<-|[]]]; assumption.
  - intros seen Hseen. apply Hprefix. now apply prefix_app_r.
Qed.

Lemma firstAppearances_new {A} (values distinct : list A) a :
  ~ In a values ->
  firstAppearances (values ++ [a]) distinct ->
  exists earlier, distinct = earlier ++ [a] /\ firstAppearances values earlier.
Proof.
  intros Ha (Hnd & Hin & Hprefix).
  destruct (Hprefix values) as (shown & [later ->] & Hshown);
    [now apply prefix_app_r|].
  apply NoDup_ListNoDup, NoDup_app in Hnd as (Hnd1 & Hdisjoint & Hnd2).
  apply NoDup_ListNoDup in Hnd1, Hnd2.
  assert (Hlater : forall v, In v later -> v = a).
  { intros v Hv.
    assert (Hd : In v (values ++ [a])) by (apply Hin, List.in_app_iff; now right).
    apply List.in_app_iff in Hd as [Hd|[<-|[]]]; [|reflexivity].
    exfalso. apply (Hdisjoint v); apply list_elem_of_In;
      [now apply Hshown | exact Hv]. }
  assert (Hmember : In a later).
  { assert (Hd : In a (shown ++ later))
      by (apply Hin, List.in_app_iff; right; now left).
    apply List.in_app_iff in Hd as [Hd|Hd]; [|exact Hd].
    apply Hshown in Hd. contradiction. }
  assert (Hone : later = [a]).
  { destruct later as [|x [|y rest]]; [destruct Hmember| |].
    - now rewrite (Hlater x (or_introl eq_refl)).
    - exfalso. apply List.NoDup_cons_iff in Hnd2 as [Hx _]. apply Hx.
      rewrite (Hlater x), <- (Hlater y); cbn; tauto. }
  subst later. exists shown. split; [reflexivity|].
  split; [exact Hnd1|]. split; [exact Hshown|].
  intros seen Hseen.
  destruct (Hprefix seen) as (part & [rest Hrest] & Hpart);
    [now apply prefix_app_r|].
  exists part. split; [|exact Hpart].
  destruct rest as [|x rest _] using rev_ind.
  - exfalso. rewrite app_nil_r in Hrest. apply Ha.
    destruct Hseen as [k ->]. apply List.in_app_iff. left.
    apply Hpart. rewrite <- Hrest. apply List.in_app_iff. right. now left.
  - rewrite app_assoc in Hrest. apply app_inj_tail in Hrest as [-> _].
    now exists rest.
Qed.

Lemma firstAppearances_unique {A} (values first second : list A) :
  (forall x y : A, x = y \/ x <> y) ->
  firstAppearances values first -> firstAppearances values second ->
  first = second.
Proof.
  intros Hdec. revert first second.
  induction values as [|a values IH] using rev_ind; intros first second H1 H2.
  - now rewrite (firstAppearances_nil _ H1), (firstAppearances_nil _ H2).
  - assert (Hin : In a values \/ ~ In a values).
    { clear -Hdec. induction values as [|v rest IHr]; [now right|].
      destruct (Hdec v a) as [->|Hne]; [left; now left|].
      destruct IHr as [H|H]; [left; now right|].
      right. intros [Heq|Hr]; contradiction. }
    destruct Hin as [Hin|Hnew].
    + apply IH; now apply (firstAppearances_again _ _ a).
    + destruct (firstAppearances_new _ _ a Hnew H1) as (e1 & -> & He1).
      destruct (firstAppearances_new _ _ a Hnew H2) as (e2 & -> & He2).
      f_equal. now apply IH.
Qed.

Lemma setOf_empty values : setOf values = [] <-> values = [].
Proof.
  unfold setOf. destruct values as [|v rest]; cbn; [tauto|].
  split; discriminate.
Qed.

Lemma slice0_three {A} (l : list A) : slice0 3 l = firstn 3 l.
Proof. apply slice0_firstn. lia. Qed.

Lemma columnStats_facts data header :
  let c := columnStats data header in
  ColumnStats.name c = header
  /\ Z.of_nat (ColumnStats.totalValues c) + ColumnStats.emptyCells c
     = Z.of_nat (length data)
  /\ (ColumnStats.uniqueValues c <= ColumnStats.totalValues c)%nat
  /\ (ColumnStats.uniqueValues c = 0%nat <-> ColumnStats.totalValues c = 0%nat)
  /\ length (ColumnStats.sampleValues c)
     = Nat.min 3 (ColumnStats.uniqueValues c)
  /\ List.NoDup (ColumnStats.sampleValues c)
  /\ (forall value,
        In value (ColumnStats.sampleValues c) ->
        value <> JsObject.Own ""
        /\ exists row, In row data /\ JsObject.get row header = value)
  /\ (let values :=
        List.filter notEmptyString
                    (List.map (fun row => JsObject.get row header) data) in
      ColumnStats.totalValues c = length values
      /\ ColumnStats.emptyCells c
         = Z.of_nat (length data) - Z.of_nat (length values)
      /\ (exists distinct, firstAppearances values distinct)
      /\ forall distinct,
           firstAppearances values distinct ->
           ColumnStats.uniqueValues c = length distinct
           /\ ColumnStats.sampleValues c = firstn 3 distinct).
Proof.
  unfold columnStats. cbn zeta.
  cbn [ColumnStats.name ColumnStats.totalValues ColumnStats.uniqueValues
       ColumnStats.emptyCells ColumnStats.sampleValues].
  set (values := List.filter notEmptyString
                   (List.map (fun row => JsObject.get row header) data)).
  rewrite slice0_three.
  split; [reflexivity|]. split; [lia|].
  split; [apply uniqueFrom_length|].
  split; [rewrite !length_zero_iff_nil; apply setOf_empty|].
  split; [apply length_take|]. split; [|split].
  - apply NoDup_ListNoDup.
    apply (sublist_NoDup _ (setOf values)); [|apply sublist_take].
    apply NoDup_ListNoDup, uniqueFrom_NoDup.
  - intros value Hin.
    assert (Hv : In value values).
    { apply list_elem_of_In in Hin.
      apply (elem_of_sublist _ (setOf values)) in Hin; [|apply sublist_take].
      apply list_elem_of_In in Hin. now apply uniqueFrom_In in Hin. }
    apply List.filter_In in Hv as [Hmap Hne].
    split; [intros ->; discriminate|].
    apply List.in_map_iff in Hmap as (row & <- & Hrow). now exists row.
  - split; [reflexivity|]. split; [reflexivity|].
    split; [exists (setOf values); apply setOf_firstAppearances|].
    intros distinct Hdistinct.
    rewrite (firstAppearances_unique values distinct (setOf values));
      [split; reflexivity | | exact Hdistinct | apply setOf_firstAppearances].
    intros x y. destruct (sameValueZero x y) eqn:E.
    + left. now apply sameValueZero_eq.
    + right. intros Heq. apply sameValueZero_eq in Heq. congruence.
Qed.

Lemma sheetStatistics_data sheetName headers data :
  data <> [] ->
  sheetStatistics sheetName headers data
  = {| SheetStats.sheetName := sheetName;
       SheetStats.totalRows := length data;
       SheetStats.totalColumns := length headers;
       SheetStats.columns := List.map (columnStats data) headers;
       SheetStats.summary :=
         "Sheet contains " +:+ showNat (length data) +:+ " rows and "
         +:+ showNat (length headers) +:+ " columns" |}.
Proof. intros Hdata. destruct data; [contradiction | reflexivity]. Qed.

(** X16. [getSheetStatistics], once [readSheet] has resolved. A sheet
    without data rows is reported with zero rows, zero columns (also when
    it has a header row) and the summary [No data found]. Otherwise the
    statistics give the number of rows and of headers, the summary made
    of these two numbers, and the headers in order. For every column,
    with [values] what the rows hold under that header, in row order and
    without the empty strings: [totalValues] is the number of [values],
    [emptyCells] the number of the remaining rows, [uniqueValues] the
    number of distinct values, and [sampleValues] the first three of the
    distinct values in the order of their first appearance (all of them
    when there are fewer); there is one list of the distinct values in
    that order. Hence the non-empty values and the empty
    cells add up to the number of rows; the distinct values are at most
    as many as the values, and there is none only when there is no
    value; the samples are pairwise different, never the empty string,
    each read from some row under that header. Two columns with the same
    header get the same statistics. *)
Theorem getSheetStatistics_counts (env : Env) (sheetName : string) (s s' : State)
    (headers : list string) (data : list Row) :
  readSheet env sheetName s = (Returns (headers, data), s') ->
  exists stats,
    getSheetStatistics env sheetName s = (Returns stats, s')
    /\ SheetStats.sheetName stats = sheetName
    /\ (data = [] ->
        SheetStats.totalRows stats = 0%nat
        /\ SheetStats.totalColumns stats = 0%nat
        /\ SheetStats.columns stats = []
        /\ SheetStats.summary stats = "No data found")
    /\ (data <> [] ->
        SheetStats.totalRows stats = length data
        /\ SheetStats.totalColumns stats = length headers
        /\ SheetStats.summary stats
           = "Sheet contains " +:+ showNat (length data) +:+ " rows and "
             +:+ showNat (length headers) +:+ " columns"
        /\ List.map ColumnStats.name (SheetStats.columns stats) = headers
        /\ Forall
             (fun c =>
                Z.of_nat (ColumnStats.totalValues c) + ColumnStats.emptyCells c
                = Z.of_nat (length data)
                /\ (ColumnStats.uniqueValues c <= ColumnStats.totalValues c)%nat
                /\ (ColumnStats.uniqueValues c = 0%nat
                    <-> ColumnStats.totalValues c = 0%nat)
                /\ length (ColumnStats.sampleValues c)
                   = Nat.min 3 (ColumnStats.uniqueValues c)
                /\ List.NoDup (ColumnStats.sampleValues c)
                /\ (forall value,
                      In value (ColumnStats.sampleValues c) ->
                      value <> JsObject.Own ""
                      /\ exists row,
                           In row data
                           /\ JsObject.get row (ColumnStats.name c) = value)
                /\ (let values :=
                      List.filter
                        notEmptyString
                        (List.map
                           (fun row => JsObject.get row (ColumnStats.name c))
                           data) in
                    ColumnStats.totalValues c = length values
                    /\ ColumnStats.emptyCells c
                       = Z.of_nat (length data) - Z.of_nat (length values)
                    /\ (exists distinct, firstAppearances values distinct)
                    /\ forall distinct,
                         firstAppearances values distinct ->
                         ColumnStats.uniqueValues c = length distinct
                         /\ ColumnStats.sampleValues c = firstn 3 distinct))
             (SheetStats.columns stats)
        /\ (forall i j header,
              headers !! i = Some header -> headers !! j = Some header ->
              SheetStats.columns stats !! i = SheetStats.columns stats !! j)).
Proof.
  intros Hread.
  exists (sheetStatistics sheetName headers data).
  split; [unfold getSheetStatistics, bind; now rewrite Hread|].
  split; [now destruct data|]. split.
  - now intros ->.
  - intros Hdata. rewrite (sheetStatistics_data _ _ _ Hdata).
    cbn [SheetStats.totalRows SheetStats.totalColumns SheetStats.columns
         SheetStats.summary].
    repeat apply conj; try reflexivity.
    + rewrite List.map_map. clear. induction headers as [|h rest IH];
        [reflexivity|]. cbn [List.map]. now rewrite IH.
    + apply Forall_forall. intros c Hc.
      apply list_elem_of_In, List.in_map_iff in Hc as (header & <- & _).
      destruct (columnStats_facts data header) as (Hname & H).
      cbn zeta in Hname, H. cbn zeta. rewrite Hname. exact H.
    + intros i j header Hi Hj.
      change (List.map (columnStats data) headers)
        with (columnStats data <$> headers).
      now rewrite !list_lookup_fmap, Hi, Hj.
Qed.

Lemma getSheetStatistics_counts_witness :
  exists stats,
    fst (getSheetStatistics sampleEnv "Medical Conditions" sampleStart)
    = Returns stats
    /\ SheetStats.summary stats = "Sheet contains 1 rows and 3 columns"
    /\ List.map ColumnStats.uniqueValues (SheetStats.columns stats)
       = [ 1%nat; 1%nat; 1%nat ].
Proof.
  destruct (getSheetStatistics_counts sampleEnv "Medical Conditions" sampleStart
              (snd (readSheet sampleEnv "Medical Conditions" sampleStart))
              [ "ID"; "Condition Name"; "Description" ]
              [ rowObject [ "ID"; "Condition Name"; "Description" ]
                          [ "7"; "Mesothelioma Guide"; "From the sheet" ] ])
    as (stats & Hrun & _); [reflexivity|].
  exists stats. rewrite Hrun. split; [reflexivity|].
  vm_compute in Hrun. injection Hrun as <-. split; reflexivity.
Defined.

(** ** The comparison with HubSpot *)

Lemma related_sym a b : related a b = related b a.
Proof. unfold related. apply orb_comm. Qed.

Lemma arrayIncludes_In l id : arrayIncludes l id = true <-> In id l.
Proof.
  unfold arrayIncludes. rewrite List.existsb_exists. split.
  - intros (x & Hx & Heq). apply String.eqb_eq in Heq. now subst.
  - intros Hin. exists id. split; [exact Hin | apply String.eqb_refl].
Qed.

Lemma filter_lengths {A} (p : A -> bool) (l : list A) :
  (length (List.filter p l) + length (List.filter (fun a => negb (p a)) l)
   = length l)%nat.
Proof.
  induction l as [|a l IH]; [reflexivity|].
  cbn [List.filter]. destruct (p a); cbn [negb length]; lia.
Qed.

Lemma existsb_false {A} (p : A -> bool) (l : list A) :
  existsb p l = false <-> forall a, In a l -> p a = false.
Proof.
  induction l as [|a l IH]; cbn; [split; [intros _ ? [] | reflexivity]|].
  rewrite orb_false_iff, IH. split.
  - intros [Ha Hl] b [<-|Hb]; [exact Ha | now apply Hl].
  - intros H. split; [apply H; now left | intros b Hb; apply H; now right].
Qed.

Lemma compare_facts sheetName hubspotObject sheetData hubspotData :
  let c := compare sheetName hubspotObject sheetData hubspotData in
  let sheetIdentifiers :=
    List.filter truthy (List.map rowIdentifier sheetData) in
  let hubspotIdentifiers :=
    List.filter truthy (List.map recordIdentifier hubspotData) in
  (forall id,
     In id (Comparison.matches c)
     <-> In id sheetIdentifiers
         /\ exists hubId, In hubId hubspotIdentifiers /\ related hubId id = true)
  /\ (forall id,
        In id (Comparison.missingInHubSpot c)
        <-> In id sheetIdentifiers /\ ~ In id (Comparison.matches c))
  /\ (length (Comparison.matches c) + length (Comparison.missingInHubSpot c)
      = length sheetIdentifiers)%nat
  /\ (forall hubId,
        In hubId (Comparison.missingInSheet c)
        <-> In hubId hubspotIdentifiers
            /\ forall id, In id sheetIdentifiers -> related id hubId = false).
Proof.
  intros c sheetIdentifiers hubspotIdentifiers. subst c. unfold compare.
  fold sheetIdentifiers. fold hubspotIdentifiers.
  cbn [Comparison.matches Comparison.missingInHubSpot Comparison.missingInSheet].
  set (found := fun id =>
                  existsb (fun hubId => related hubId id) hubspotIdentifiers).
  set (matches := List.filter found sheetIdentifiers).
  assert (Hmatches : forall id,
            In id matches
            <-> In id sheetIdentifiers
                /\ exists hubId, In hubId hubspotIdentifiers
                                 /\ related hubId id = true).
  { intros id. unfold matches. rewrite List.filter_In. unfold found.
    now rewrite List.existsb_exists. }
  assert (Hmissing : List.filter (fun id => negb (arrayIncludes matches id))
                                 sheetIdentifiers
                     = List.filter (fun id => negb (found id)) sheetIdentifiers).
  { apply List.filter_ext_in. intros id Hid. f_equal.
    destruct (found id) eqn:Hf.
    - apply arrayIncludes_In. unfold matches. now apply List.filter_In.
    - destruct (arrayIncludes matches id) eqn:Hi; [|reflexivity].
      apply arrayIncludes_In in Hi. unfold matches in Hi.
      apply List.filter_In in Hi. destruct Hi. congruence. }
  split; [exact Hmatches|]. split; [|split].
  - intros id. rewrite List.filter_In, negb_true_iff.
    rewrite <- not_true_iff_false, arrayIncludes_In. reflexivity.
  - rewrite Hmissing. apply filter_lengths.
  - intros hubId. rewrite List.filter_In, negb_true_iff, existsb_false.
    split; intros [Hin H]; (split; [exact Hin|]).
    + intros id Hid. destruct (related id hubId) eqn:Hr; [|reflexivity].
      rewrite <- (H id), Hr; [reflexivity|].
      apply Hmatches. split; [exact Hid|]. exists hubId.
      split; [exact Hin | now rewrite related_sym].
    + intros id Hid. apply H. now apply Hmatches in Hid.
Qed.

(** X17. [compareWithHubSpot] with a connector that lists records. The
    identifiers of the sheet are the non-empty values of [Name], else
    [Company], else [Condition] of its rows (rows without any are
    counted in [sheetCount] but compared with nothing). An identifier is
    a match exactly when it contains, or is contained in, some HubSpot
    identifier, upper and lower case taken as the same; every sheet
    identifier is either a match or missing in HubSpot, never both, so
    the two lists add up to the identifiers; and a HubSpot identifier is
    missing in the sheet exactly when it is related in this way to no
    identifier of the sheet. *)
Theorem compareWithHubSpot_partition (env : Env) (sheetName hubspotObject : string)
    (hubspotConnector : HubSpotTarget)
    (records : string -> Outcome (list HubSpotRecord.t))
    (s s' : State) (headers : list string) (data : list Row)
    (hubspotData : list HubSpotRecord.t) :
  readSheet env sheetName s = (Returns (headers, data), s') ->
  getRecords hubspotConnector = Some records ->
  records hubspotObject = Returns hubspotData ->
  let sheetIdentifiers := List.filter truthy (List.map rowIdentifier data) in
  let hubspotIdentifiers :=
    List.filter truthy (List.map recordIdentifier hubspotData) in
  exists c,
    compareWithHubSpot env sheetName hubspotConnector hubspotObject s
    = (Returns c, s')
    /\ Comparison.sheetCount c = length data
    /\ Comparison.hubspotCount c = length hubspotData
    /\ (length sheetIdentifiers <= Comparison.sheetCount c)%nat
    /\ (forall id,
          In id (Comparison.matches c)
          <-> In id sheetIdentifiers
              /\ exists hubId,
                   In hubId hubspotIdentifiers /\ related hubId id = true)
    /\ (forall id,
          In id (Comparison.missingInHubSpot c)
          <-> In id sheetIdentifiers /\ ~ In id (Comparison.matches c))
    /\ (length (Comparison.matches c) + length (Comparison.missingInHubSpot c)
        = length sheetIdentifiers)%nat
    /\ (forall hubId,
          In hubId (Comparison.missingInSheet c)
          <-> In hubId hubspotIdentifiers
              /\ forall id, In id sheetIdentifiers -> related id hubId = false).
Proof.
  intros Hread Hmethod Hrecords sheetIdentifiers hubspotIdentifiers.
  exists (compare sheetName hubspotObject data hubspotData).
  split.
  { unfold compareWithHubSpot, bind. rewrite Hread, Hmethod.
    unfold lift. now rewrite Hrecords. }
  split; [reflexivity|]. split; [reflexivity|]. split.
  { cbn [compare Comparison.sheetCount]. subst sheetIdentifiers.
    rewrite <- (length_map rowIdentifier data).
    apply sublist_length, filter_sublist. }
  apply compare_facts.
Qed.

Lemma compareWithHubSpot_partition_witness :
  exists c,
    fst (compareWithHubSpot lawFirmsEnv "Law Firms" listingConnector "companies"
                            (newService (Some "key") 0))
    = Returns c
    /\ Comparison.matches c = [ "Saddle Rock Legal Group" ]
    /\ Comparison.missingInHubSpot c = [ "Veterans Legal Services" ]
    /\ Comparison.missingInSheet c = [ "National Injury Law Center" ]
    /\ Comparison.hubspotCount c = 3%nat.
Proof.
  pose (rows := snd (match fst (readSheet lawFirmsEnv "Law Firms"
                                          (newService (Some "key") 0)) with
                     | Returns sheet => sheet
                     | Throws _ => ([], [])
                     end)).
  destruct (compareWithHubSpot_partition lawFirmsEnv "Law Firms" "companies"
              listingConnector
              (fun _ =>
                 Returns
                   [ {| HubSpotRecord.properties :=
                          Some (Some "SADDLE ROCK LEGAL GROUP LLP", None) |};
                     {| HubSpotRecord.properties :=
                          Some (None, Some "National Injury Law Center") |};
                     {| HubSpotRecord.properties := None |} ])
              (newService (Some "key") 0)
              (snd (readSheet lawFirmsEnv "Law Firms" (newService (Some "key") 0)))
              [ "Name"; "City"; "Success Rate" ] rows _ eq_refl eq_refl eq_refl)
    as (c & Hrun & _).
  exists c. rewrite Hrun. split; [reflexivity|].
  vm_compute in Hrun. injection Hrun as <-. repeat split.
Defined.

(** ** The sync to HubSpot *)

Lemma mapToHubSpotFormat_runs env sheetName row s :
  exists payload,
    mapToHubSpotFormat env sheetName row s
    = (Returns (if knownSheet sheetName then Some payload else None), s).
Proof.
  unfold mapToHubSpotFormat, knownSheet. cbn [existsb].
  destruct (String.eqb (toLowerCase sheetName) "law firms");
    [now eexists|].
  destruct (String.eqb (toLowerCase sheetName) "manufacturer cases");
    [now eexists|].
  destruct (String.eqb (toLowerCase sheetName) "medical information");
    [now eexists|].
  now exists (Note "" "").
Qed.

Lemma withClock_zero s : withClock (clock s + 200 * 0) s = s.
Proof. destruct s. unfold withClock. cbn. f_equal. lia. Qed.

Lemma syncRow_counts env sheetName hubspotConnector synced errors row s :
  exists synced' errors',
    syncRow env sheetName hubspotConnector (synced, errors) row s
    = (Returns (synced', errors'), withClock (clock s + 200) s)
    /\ (synced' + errors'
        = synced + errors + (if knownSheet sheetName then 1 else 0))%nat
    /\ (synced <= synced')%nat /\ (errors <= errors')%nat
    /\ (createOrUpdateRecord hubspotConnector = None -> synced' = synced)
    /\ (forall write,
          createOrUpdateRecord hubspotConnector = Some write ->
          (forall index payload, write index payload = Returns tt) ->
          errors' = errors).
Proof.
  unfold syncRow, bind at 1, tryCatch, bind at 1.
  destruct (mapToHubSpotFormat_runs env sheetName row s) as (payload & ->).
  destruct (knownSheet sheetName).
  - unfold writeRecord.
    destruct (createOrUpdateRecord hubspotConnector) as [write|] eqn:Hmethod.
    + unfold bind at 1, lift.
      destruct (write (synced + errors)%nat payload) as [[]|e] eqn:Hwrite.
      * exists (S synced), errors. cbn.
        split; [reflexivity|]. split; [lia|]. split; [lia|]. split; [lia|].
        split; [discriminate | reflexivity].
      * exists synced, (S errors). cbn.
        split; [reflexivity|]. split; [lia|]. split; [lia|]. split; [lia|].
        split; [discriminate|].
        intros write' [= <-] Hall. rewrite Hall in Hwrite. discriminate.
    + exists synced, (S errors). cbn.
      split; [reflexivity|]. split; [lia|]. split; [lia|]. split; [lia|].
      split; [reflexivity | discriminate].
  - exists synced, errors. cbn.
    split; [reflexivity|]. split; [lia|]. split; [lia|]. split; [lia|].
    split; reflexivity.
Qed.

Lemma syncRows_counts env sheetName hubspotConnector data synced errors s :
  exists synced' errors',
    foldM (syncRow env sheetName hubspotConnector) (synced, errors) data s
    = (Returns (synced', errors'),
       withClock (clock s + 200 * Z.of_nat (length data)) s)
    /\ (synced' + errors'
        = synced + errors
          + (if knownSheet sheetName then length data else 0))%nat
    /\ (synced <= synced')%nat /\ (errors <= errors')%nat
    /\ (createOrUpdateRecord hubspotConnector = None -> synced' = synced)
    /\ (forall write,
          createOrUpdateRecord hubspotConnector = Some write ->
          (forall index payload, write index payload = Returns tt) ->
          errors' = errors).
Proof.
  revert synced errors s.
  induction data as [|row rest IH]; intros synced errors s; cbn [foldM length].
  - exists synced, errors. change (Z.of_nat 0) with 0.
    rewrite withClock_zero. unfold ret.
    repeat split; try lia. now destruct (knownSheet sheetName); lia.
  - destruct (syncRow_counts env sheetName hubspotConnector synced errors row s)
      as (a & b & Hrow & Hsum & Ha & Hb & Hnone & Hall).
    destruct (IH a b (withClock (clock s + 200) s))
      as (a' & b' & Hrest & Hsum' & Ha' & Hb' & Hnone' & Hall').
    exists a', b'. unfold bind. rewrite Hrow, Hrest.
    split.
    { f_equal. unfold withClock. cbn. f_equal. lia. }
    split; [destruct (knownSheet sheetName); lia|].
    split; [lia|]. split; [lia|]. split.
    + intros Hmethod. rewrite (Hnone' Hmethod). now apply Hnone.
    + intros write Hmethod Hwrite.
      rewrite (Hall' write Hmethod Hwrite). now apply (Hall write).
Qed.

(** X18. What [syncToHubSpot] reports, once [readSheet] has resolved.
    A sheet without data rows gives the failure object
    [{ success: false, message: 'No data to sync' }]. Otherwise the
    result has [success: true] whatever happened to the rows, [total] is
    the number of rows, and the sync waits 200 ms after every row. For
    the three sheet names the connector maps (in any letter case) every
    row is counted once, as synced or as an error; for any other sheet
    name nothing is sent and both counters stay at zero. No row errs
    with a connector whose [createOrUpdateRecord] always resolves; none
    is synced with a connector that has no such method. *)
Theorem syncToHubSpot_counts (env : Env) (sheetName : string)
    (hubspotConnector : HubSpotTarget) (syncType : option string)
    (s s1 : State) (headers : list string) (data : list Row) :
  readSheet env sheetName s = (Returns (headers, data), s1) ->
  exists result s',
    syncToHubSpot env sheetName hubspotConnector syncType s
    = (Returns result, s')
    /\ (data = [] -> result = NoDataToSync /\ success result = false /\ s' = s1)
    /\ (data <> [] ->
        exists synced errors,
          result = SyncDone synced errors (length data)
                            (match syncType with Some t => t | None => "full" end)
          /\ success result = true
          /\ (synced + errors
              = if knownSheet sheetName then length data else 0)%nat
          /\ (createOrUpdateRecord hubspotConnector = None -> synced = 0%nat)
          /\ (forall write,
                createOrUpdateRecord hubspotConnector = Some write ->
                (forall index payload, write index payload = Returns tt) ->
                errors = 0%nat)
          /\ s' = withClock (clock s1 + 200 * Z.of_nat (length data)) s1).
Proof.
  intros Hread. unfold syncToHubSpot, bind at 1. rewrite Hread. cbn [snd].
  destruct data as [|row rows] eqn:Edata.
  - exists NoDataToSync, s1. split; [reflexivity|].
    split; [now intros _ | now intros H].
  - rewrite <- Edata.
    destruct (syncRows_counts env sheetName hubspotConnector data 0 0 s1)
      as (synced & errors & Hrun & Hsum & _ & _ & Hnone & Hall).
    unfold bind. rewrite Hrun. cbn [fst snd ret].
    eexists. eexists. split; [reflexivity|].
    split; [intros E; rewrite E in Edata; discriminate|].
    intros _. exists synced, errors.
    split; [reflexivity|]. split; [reflexivity|].
    split; [exact Hsum|]. split; [exact Hnone|]. split; [|reflexivity].
    exact Hall.
Qed.

Lemma syncToHubSpot_counts_witness :
  fst (syncToHubSpot lawFirmsEnv "Law Firms" listingConnector None
                     (newService (Some "key") 0))
  = Returns (SyncDone 1 1 2 "full").
Proof.
  pose (rows := snd (match fst (readSheet lawFirmsEnv "Law Firms"
                                          (newService (Some "key") 0)) with
                     | Returns sheet => sheet
                     | Throws _ => ([], [])
                     end)).
  destruct (syncToHubSpot_counts lawFirmsEnv "Law Firms" listingConnector None
              (newService (Some "key") 0)
              (snd (readSheet lawFirmsEnv "Law Firms" (newService (Some "key") 0)))
              [ "Name"; "City"; "Success Rate" ] rows eq_refl)
    as (result & s' & Hrun & _).
  rewrite Hrun. vm_compute in Hrun. now injection Hrun as <- _.
Defined.

(** X19. With the connector the server hands over,
    [HubSpotInjuryInfoConnector], which has neither [getRecords] nor
    [createOrUpdateRecord]: [compareWithHubSpot] never returns, it
    throws after the sheet has been requested; and [syncToHubSpot] never
    syncs a record, yet reports [success: true] as soon as the sheet has
    a data row, with every row of a sheet it maps counted as an
    error. *)
Theorem server_connector_lacks_methods (env : Env)
    (sheetName hubspotObject : string) (syncType : option string) (s : State) :
  (exists e s',
     compareWithHubSpot env sheetName hubSpotInjuryInfoConnector hubspotObject s
     = (Throws e, s')
     /\ calls s' = calls s ++ [ ReadSheetCall sheetName ])
  /\ (forall result s',
        syncToHubSpot env sheetName hubSpotInjuryInfoConnector syncType s
        = (Returns result, s') ->
        result = NoDataToSync
        \/ exists total,
             total <> 0%nat
             /\ success result = true
             /\ result
                = SyncDone 0 (if knownSheet sheetName then total else 0) total
                           (match syncType with Some t => t | None => "full" end)).
Proof.
  split.
  - unfold compareWithHubSpot, bind. cbn [getRecords hubSpotInjuryInfoConnector].
    destruct (readSheet env sheetName s) as [[sheet|e] s'] eqn:Hread.
    + exists "TypeError: hubspotConnector.getRecords is not a function", s'.
      split; [reflexivity | exact (logs_readSheet env sheetName _ _ _ Hread)].
    + exists e, s'.
      split; [reflexivity | exact (logs_readSheet env sheetName _ _ _ Hread)].
  - intros result s' Hrun.
    destruct (readSheet env sheetName s) as [[[headers data]|e] s1] eqn:Hread.
    + unfold syncToHubSpot, bind at 1 in Hrun. rewrite Hread in Hrun.
      cbn [snd] in Hrun.
      destruct data as [|row rows] eqn:Edata;
        [left; now injection Hrun as <- _|].
      rewrite <- Edata in Hrun. right.
      destruct (syncRows_counts env sheetName hubSpotInjuryInfoConnector data
                  0 0 s1)
        as (synced & errors & Hsync & Hsum & _ & _ & Hnone & _).
      unfold bind in Hrun. rewrite Hsync in Hrun. injection Hrun as <- _.
      rewrite (Hnone eq_refl) in *. cbn [Nat.add fst snd] in *.
      exists (length data). split; [rewrite Edata; discriminate|].
      split; [reflexivity|]. rewrite Hsum. reflexivity.
    + unfold syncToHubSpot, bind in Hrun. rewrite Hread in Hrun. discriminate.
Qed.

(** ** Conditions that name an inherited member *)

Lemma toLowerCase_inherited condition :
  JsObject.inherited (toLowerCase condition) = true ->
  toLowerCase condition = "constructor" \/ toLowerCase condition = "__proto__".
Proof.
  unfold JsObject.inherited, JsObject.prototypeNames. cbn [existsb].
  rewrite !orb_true_iff, !String.eqb_eq.
  assert (Hlower : forall c, isUpper (lowerChar c) = false).
  { intros c. destruct c as [[] [] [] [] [] [] [] []]; reflexivity. }
  assert (Hnone : forall s, Forall (fun c => isUpper c = false)
                                   (list_ascii_of_string (toLowerCase s))).
  { intros s. induction s as [|c s IH]; cbn; constructor; [apply Hlower | exact IH]. }
  specialize (Hnone condition).
  intros H.
  repeat match type of H with
         | _ \/ _ => destruct H as [H|H]
         end;
    try (now left); try (now right); try contradiction;
    rewrite H in Hnone; cbn in Hnone;
    repeat match type of Hnone with
           | Forall _ (_ :: _) =>
               let Hc := fresh "Hc" in
               apply Forall_cons in Hnone as [Hc Hnone];
               try (vm_compute in Hc; discriminate Hc)
           end.
Qed.

Lemma getAllArticles_other_keys env s r s' other :
  getAllArticles env s = (r, s') ->
  other <> "all_articles" ->
  cache s' !! other = cache s !! other.
Proof.
  intros Hrun Hne.
  destruct (getFromCache_cases "all_articles" s)
    as [(e & _ & _ & Hhit)|[_ Hmiss]].
  - unfold getAllArticles, bind in Hrun. rewrite Hhit in Hrun.
    destruct (data e); injection Hrun as _ <-; reflexivity.
  - destruct (total_getArticlesFromGoogleSheets env
                (withCache (delete "all_articles" (cache s)) s))
      as (x & s1 & Hx).
    destruct (total_getArticlesFromHubSpot env (withClock (clock s) s1)) as (y & s2 & Hy).
    rewrite (getAllArticles_miss env s _ x s1 y s2 Hmiss Hx Hy) in Hrun.
    injection Hrun as _ <-. apply stored_after_miss; [|exact Hne].
    destruct (keeps_getArticlesFromGoogleSheets env _ _ _ Hx) as (Hc1 & _).
    destruct (keeps_getArticlesFromHubSpot env _ _ _ Hy) as (Hc2 & _).
    cbn in *. now rewrite Hc2, Hc1.
Qed.

(** X20. A condition that names a member every object inherits. When
    the lowercased condition is such a name (it is then [constructor] or
    [__proto__]), [getDefaultSettlementData] hands out that inherited
    member in place of a settlement record; a fresh service returns it
    from [getSettlementData], whatever the providers answer, and the
    summary of [searchCondition] then ends in [Typical settlements range
    from undefined.] *)
Theorem inherited_condition_defaults (env : Env) (googleApiKey : option string)
    (now : Z) (condition : string) (state : option string) :
  JsObject.inherited (toLowerCase condition) = true ->
  (toLowerCase condition = "constructor" \/ toLowerCase condition = "__proto__")
  /\ getDefaultSettlementData condition = [ SInherited (toLowerCase condition) ]
  /\ fst (getSettlementData env condition state (newService googleApiKey now))
     = Returns [ SInherited (toLowerCase condition) ]
  /\ exists r s' start,
       searchCondition env condition (newService googleApiKey now)
       = (Returns r, s')
       /\ SearchResult.settlements r = [ SInherited (toLowerCase condition) ]
       /\ SearchResult.summary r
          = start +:+ " Typical settlements range from undefined.".
Proof.
  intros Hinherited.
  assert (Hdefault : getDefaultSettlementData condition
                     = [ SInherited (toLowerCase condition) ]).
  { unfold getDefaultSettlementData, JsObject.get.
    destruct (toLowerCase_inherited condition Hinherited) as [E|E];
      rewrite E in *; reflexivity. }
  split; [now apply toLowerCase_inherited|]. split; [exact Hdefault|]. split.
  - destruct (getSettlementData_fallback env condition state
                (newService googleApiKey now)) as (s' & Hrun & _);
      [apply missed_absent, lookup_empty|].
    now rewrite Hrun, Hdefault.
  - pose (s := newService googleApiKey now).
    pose proof (facadeCache_newService googleApiKey now) as Hk.
    destruct (keys_apart condition (Some condition) None None)
      as (K1 & K2 & K3 & K4 & K5 & K6).
    pose proof (facadeCache_delete (searchKey condition) s Hk) as Hk0.
    destruct (getAllArticles_facade env _ Hk0)
      as (articles & sa & Ha & Hka & _).
    destruct (getLawFirms_facade env (Some condition) None
                (withClock (clock s) sa) Hka)
      as (firms & sf & Hf & Hkf & _).
    destruct (getSettlementData_fallback env condition None
                (withClock (clock s) sf))
      as (sd & Hd & _).
    { apply missed_absent. cbn [cache withClock].
      rewrite (getLawFirms_other_keys env _ _ _ _ _ _ Hf) by exact K4.
      cbn [cache withClock].
      rewrite (getAllArticles_other_keys env _ _ _ _ Ha) by exact K2.
      cbn. rewrite delete_empty. apply lookup_empty. }
    unfold searchCondition, bind at 1.
    rewrite (getFromCache_absent (searchKey condition) (newService googleApiKey now))
      by apply lookup_empty.
    fold s. unfold tryCatch, bind at 1, promiseAll3, searchArticles, bind at 1.
    rewrite Ha. cbn [ret clock withCache]. rewrite Hf, Hd.
    eexists. eexists. eexists. split; [reflexivity|].
    cbn [SearchResult.settlements SearchResult.summary].
    split; [exact Hdefault|].
    rewrite Hdefault. unfold generateSummary. cbn [rangeOf interpolate].
    reflexivity.
Qed.

Lemma inherited_condition_defaults_witness :
  fst (getSettlementData failingEnv "Constructor" None (newService None 0))
  = Returns [ SInherited "constructor" ].
Proof.
  destruct (inherited_condition_defaults failingEnv None 0 "Constructor" None)
    as (_ & _ & Hrun & _); [reflexivity | exact Hrun].
Defined.

(** ** The limit of a search *)

Lemma slice0_length {A} (limit : Z) (l : list A) :
  Z.of_nat (length (slice0 limit l))
  = if limit <? 0 then Z.max (Z.of_nat (length l) + limit) 0
    else Z.min limit (Z.of_nat (length l)).
Proof.
  unfold slice0. rewrite length_take.
  destruct (Z.ltb_spec limit 0); lia.
Qed.

Lemma slice0_nil {A} (limit : Z) : slice0 limit (@nil A) = [].
Proof. unfold slice0. apply firstn_nil. Qed.

Lemma slice0_prefix {A} (limit : Z) (l : list A) : slice0 limit l `prefix_of` l.
Proof. unfold slice0. apply prefix_take. Qed.

Lemma filterOutcome_sublist {A} (f : A -> Outcome bool) (l out : list A) :
  filterOutcome f l = Returns out -> sublist out l.
Proof.
  revert out. induction l as [|a l IH]; intros out; cbn [filterOutcome].
  - intros [= <-]. constructor.
  - destruct (f a) as [b|e]; [|discriminate].
    destruct (filterOutcome f l) as [rest|e]; [|discriminate].
    intros [= <-]. destruct b; [apply sublist_skip | apply sublist_cons];
      now apply IH.
Qed.

Lemma matchingRows_nil headers query column :
  matchingRows headers [] query column = [].
Proof.
  unfold matchingRows. destruct column as [name|]; [|reflexivity].
  destruct (truthy name); [|reflexivity].
  now destruct (findIndex _ headers).
Qed.

Lemma matchingRows_sublist headers data query column :
  sublist (matchingRows headers data query column) data.
Proof.
  unfold matchingRows. destruct column as [name|]; [|apply filter_sublist].
  destruct (truthy name); [|apply filter_sublist].
  destruct (findIndex _ headers); [apply filter_sublist | apply sublist_nil_l].
Qed.

(** X21. The limit of [searchSheet], for every limit (10 when none is
    given). Whenever the search returns, the sheet was read, and with
    [matching] the rows the search is for (without a column name, the
    rows of the sheet one of whose values contains the query,
    case-insensitively; with a column name, the rows whose value under
    the first header that equals the name up to case contains it), in
    the order of the sheet: [results] is [matching.slice(0, limit)] and
    [total] is the number of all matching rows, so the results are an
    initial part of the matching rows and never more than the total. A
    limit that is not negative caps the results at the limit; a negative
    limit drops that many matching rows from the end. A search that
    returns with a column name on a sheet with data rows has found a
    header for it, and that header is not [__proto__]. *)
Theorem searchSheet_limit (env : Env) (sheetName query : string)
    (column : option string) (limit : option Z) (s s' : State)
    (found : list (string * SheetField)) :
  searchSheet env sheetName query column limit s = (Returns found, s') ->
  let n := match limit with Some n => n | None => 10 end in
  exists headers data,
    readSheet env sheetName s = (Returns (headers, data), s')
    /\ let matching := matchingRows headers data query column in
       sublist matching data
       /\ JsObject.get found "results"
          = JsObject.Own (FRows (slice0 n matching))
       /\ JsObject.get found "total"
          = JsObject.Own (FNumber (Z.of_nat (length matching)))
       /\ slice0 n matching `prefix_of` matching
       /\ Z.of_nat (length (slice0 n matching))
          = (if n <? 0 then Z.max (Z.of_nat (length matching) + n) 0
             else Z.min n (Z.of_nat (length matching)))
       /\ (forall name,
             data <> [] -> column = Some name -> truthy name = true ->
             exists index,
               findIndex
                 (fun h => String.eqb (toLowerCase h) (toLowerCase name))
                 headers = Some index
               /\ List.nth index headers "" <> "__proto__").
Proof.
  intros Hrun n. unfold searchSheet, bind in Hrun.
  destruct (readSheet env sheetName s) as [[[headers data]|e] s1] eqn:Hread;
    [|discriminate].
  unfold lift in Hrun. injection Hrun as Hrows <-. cbn [fst snd] in Hrows.
  exists headers, data. split; [reflexivity|]. cbn zeta.
  split; [apply matchingRows_sublist|].
  assert (Hfound :
    (found = [ ("results", FRows (slice0 n (matchingRows headers data query column)));
               ("total", FNumber (Z.of_nat (length (matchingRows headers data query column))));
               ("query", FString query);
               ("column",
                FString (if truthyField column then interpolate column
                         else "all")) ]
     \/ (data = [] /\ found = [ ("results", FRows []); ("total", FNumber 0) ]))
    /\ forall name,
         data <> [] -> column = Some name -> truthy name = true ->
         exists index,
           findIndex (fun h => String.eqb (toLowerCase h) (toLowerCase name))
                     headers = Some index
           /\ List.nth index headers "" <> "__proto__").
  { unfold searchRows in Hrows. fold n in Hrows.
    destruct data as [|row rows] eqn:Edata.
    { injection Hrows as <-. split; [now right | intros name Hd; now contradiction Hd]. }
    rewrite <- Edata in *.
    assert (Hcolumn : truthyField column = false \/
                      exists name, column = Some name /\ truthy name = true).
    { destruct column as [name|]; [|now left]. cbn [truthyField].
      destruct (truthy name) eqn:Hname; [right; now exists name | now left]. }
    destruct Hcolumn as [Hno|(name & -> & Hname)].
    - rewrite Hno in Hrows. injection Hrows as <-. split.
      + left. unfold matchingRows. destruct column as [name|]; [|reflexivity].
        cbn [truthyField] in *. now rewrite Hno.
      + intros name _ -> Hname. cbn [truthyField] in Hno. congruence.
    - cbn [truthyField interpolate] in Hrows. rewrite Hname in Hrows.
      destruct (findIndex _ headers) as [index|] eqn:Hfind; [|discriminate].
      destruct (readSheet_rows env _ _ _ _ _ Hread) as (raw & Hraw).
      assert (Hproto : List.nth index headers "" <> "__proto__").
      { intros Hproto. rewrite Hproto in Hrows. rewrite Hraw in Edata, Hrows.
        destruct raw as [|cells raw]; [discriminate Edata|].
        cbn [List.map filterOutcome] in Hrows.
        now rewrite columnMatches_proto in Hrows. }
      rewrite (filterOutcome_returns _
                 (fun row => matchesQuery query
                               (prop row (List.nth index headers ""))))
        in Hrows.
      + injection Hrows as <-. split.
        * left. unfold matchingRows. cbn [truthyField]. now rewrite Hname, Hfind.
        * intros name' _ [= <-] _. now exists index.
      + intros r Hr. apply columnMatches_own.
        rewrite Hraw in Hr. apply List.in_map_iff in Hr as (cells & <- & _).
        apply own_assignColumns; [|exact Hproto].
        exact (proj1 (findIndex_In _ headers index "" Hfind)). }
  destruct Hfound as [[->|[-> ->]] Hheader].
  - split; [reflexivity|]. split; [reflexivity|].
    split; [apply slice0_prefix|]. split; [apply slice0_length | exact Hheader].
  - rewrite matchingRows_nil.
    split; [now rewrite slice0_nil|]. split; [reflexivity|].
    split; [apply slice0_prefix|]. split; [apply slice0_length | exact Hheader].
Qed.

Lemma searchSheet_limit_witness :
  exists found,
    fst (searchSheet lawFirmsEnv "Law Firms" "e" None (Some (-1))
                     (newService (Some "key") 0))
    = Returns found
    /\ JsObject.get found "total" = JsObject.Own (FNumber 2)
    /\ JsObject.get found "results"
       = JsObject.Own
           (FRows [ [ ("Name", "Saddle Rock Legal Group"); ("City", "Denver");
                      ("Success Rate", "95%") ] ]).
Proof.
  pose (run := searchSheet lawFirmsEnv "Law Firms" "e" None (Some (-1))
                           (newService (Some "key") 0)).
  assert (Hrun : exists found, run = (Returns found, snd run))
    by (eexists; vm_compute; reflexivity).
  destruct Hrun as (found & Hrun).
  destruct (searchSheet_limit lawFirmsEnv "Law Firms" "e" None (Some (-1))
              (newService (Some "key") 0) (snd run) found Hrun)
    as (headers & data & Hread & _ & Hresults & Htotal & _).
  exists found. fold run. rewrite Hrun. split; [reflexivity|].
  vm_compute in Hrun. injection Hrun as <-. split; reflexivity.
Defined.

(** ** Numbers in cells *)

Lemma roundToDouble_exact m : 0 <= m < 2 ^ 53 -> roundToDouble m = Some m.
Proof.
  intros [H0 H]. unfold roundToDouble. cbv zeta.
  destruct (Z.leb_spec (Z.log2 m + 1) 53) as [_|Hbits]; [reflexivity|].
  exfalso. destruct (Z.eq_dec m 0) as [->|Hm]; [cbn in Hbits; lia|].
  assert (Z.log2 m < 53) by (apply Z.log2_lt_pow2; lia). lia.
Qed.

(** From 2^53 on the result is the nearest multiple [q * 2^e] of the
    unit [2^e] that leaves 53 bits, the even one of two that are equally
    near. *)
Lemma roundToDouble_nearest m :
  2 ^ 53 <= m ->
  exists q e,
    0 < e /\ 2 ^ 52 * 2 ^ e <= m < 2 ^ 53 * 2 ^ e
    /\ 2 ^ 52 <= q <= 2 ^ 53
    /\ 2 * Z.abs (q * 2 ^ e - m) <= 2 ^ e
    /\ (2 * Z.abs (q * 2 ^ e - m) = 2 ^ e -> Z.even q = true)
    /\ roundToDouble m
       = if q * 2 ^ e <? 2 ^ 1024 then Some (q * 2 ^ e) else None.
Proof.
  intros Hm. unfold roundToDouble. cbv zeta.
  assert (Hpos : 0 < m)
    by (assert (0 < 2 ^ 53) by (apply Z.pow_pos_nonneg; lia); lia).
  assert (Hlog : 53 <= Z.log2 m) by (apply Z.log2_le_pow2; lia).
  destruct (Z.leb_spec (Z.log2 m + 1) 53) as [Hle|_]; [lia|].
  set (e := Z.log2 m + 1 - 53).
  assert (He : 0 < e) by (unfold e; lia).
  rewrite Z.shiftr_div_pow2, Z.land_ones, Z.shiftl_1_l by lia.
  destruct (Z.log2_spec m Hpos) as [Hlow Hhigh].
  assert (Hsplit : Z.log2 m = 52 + e) by (unfold e; lia).
  replace (Z.succ (Z.log2 m)) with (53 + e) in Hhigh by lia.
  rewrite Hsplit in Hlow. rewrite Z.pow_add_r in Hlow, Hhigh by lia.
  assert (HP : 2 ^ e = 2 * 2 ^ (e - 1)).
  { rewrite <- (Z.pow_succ_r 2 (e - 1)) by lia. f_equal. lia. }
  assert (Hhalf : 0 < 2 ^ (e - 1)) by (apply Z.pow_pos_nonneg; lia).
  pose proof (Z.div_mod m (2 ^ e) ltac:(lia)) as Hdm.
  pose proof (Z.mod_pos_bound m (2 ^ e) ltac:(lia)) as Hmod.
  set (P := 2 ^ e) in *. set (h := 2 ^ (e - 1)) in *.
  set (q0 := m / P) in *. set (r := m mod P) in *.
  assert (Hq : 2 ^ 52 <= q0 < 2 ^ 53).
  { change (2 ^ 52) with 4503599627370496 in *.
    change (2 ^ 53) with 9007199254740992 in *. nia. }
  set (up := (h <? r) || ((r =? h) && Z.odd q0)).
  exists (if up then q0 + 1 else q0), e.
  rewrite Z.shiftl_mul_pow2 by lia. fold P.
  split; [exact He|]. split; [lia|].
  assert (Hup : up = true -> h <= r /\ (r = h -> Z.odd q0 = true)).
  { unfold up. intros H. apply orb_true_iff in H as [H|H].
    - apply Z.ltb_lt in H. lia.
    - apply andb_true_iff in H as [H1 H2]. apply Z.eqb_eq in H1.
      now split; [lia|]. }
  assert (Hdown : up = false -> r <= h /\ (r = h -> Z.even q0 = true)).
  { unfold up. intros H. apply orb_false_iff in H as [H1 H2].
    apply Z.ltb_ge in H1. split; [lia|]. intros Hr.
    rewrite Hr, Z.eqb_refl in H2. cbn in H2.
    rewrite <- Z.negb_odd, H2. reflexivity. }
  destruct up.
  - destruct (Hup eq_refl) as [Hr Hodd].
    split; [lia|]. split; [nia|]. split; [|reflexivity].
    intros Htie. replace (q0 + 1) with (Z.succ q0) by lia.
    rewrite Z.even_succ. apply Hodd. nia.
  - destruct (Hdown eq_refl) as [Hr Heven].
    split; [lia|]. split; [nia|]. split; [|reflexivity].
    intros Htie. apply Heven. nia.
Qed.

Lemma parseIntOrZero_positive text m :
  parseInt text = toNumber false m -> parseIntOrZero text = toNumber false m.
Proof.
  unfold parseIntOrZero. intros ->. unfold toNumber.
  now destruct (roundToDouble m) as [[|v|v]|].
Qed.

Lemma digitsValue_stop acc suffix :
  endsNumeral suffix = true -> digitsValue 10 acc suffix = acc.
Proof.
  destruct suffix as [|c r]; [reflexivity|]. cbn [endsNumeral digitsValue].
  intros H. apply andb_true_iff in H as [H _]. apply andb_true_iff in H as [H _].
  apply negb_true_iff in H.
  destruct c as [[] [] [] [] [] [] [] []]; try discriminate H; reflexivity.
Qed.

Lemma digitsValue_numeral d a suffix :
  endsNumeral suffix = true ->
  digitsValue 10 (Some a) (NilEmpty.string_of_uint d +:+ suffix)
  = Some (numeralValue d a).
Proof.
  intros Hsuffix. revert a.
  induction d as [|d IH|d IH|d IH|d IH|d IH|d IH|d IH|d IH|d IH|d IH]; intros a;
    cbn [NilEmpty.string_of_uint numeralValue];
    [rewrite append_nil_l; now apply digitsValue_stop|..];
    rewrite append_cons; cbn [digitsValue].
  all: match goal with
    | |- context [digitValue 10 ?c] =>
        let v := eval vm_compute in (digitValue 10 c) in
        change (digitValue 10 c) with v
    end.
  all: cbv iota; apply IH.
Qed.

Lemma numeralValue_pos d acc :
  numeralValue d (Z.pos acc) = Z.pos (Pos.of_uint_acc d acc).
Proof.
  revert acc.
  induction d as [|d IH|d IH|d IH|d IH|d IH|d IH|d IH|d IH|d IH|d IH]; intros acc;
    cbn [numeralValue Pos.of_uint_acc]; [reflexivity|..].
  all: rewrite <- IH; f_equal; lia.
Qed.

Lemma nzhead_not_zero d d' : Decimal.nzhead d <> Decimal.D0 d'.
Proof. induction d; cbn; try discriminate; assumption. Qed.

Lemma to_uint_normal n :
  N.to_uint n = Decimal.D0 Decimal.Nil
  \/ (N.to_uint n <> Decimal.Nil
      /\ forall d', N.to_uint n <> Decimal.D0 d').
Proof.
  assert (Hnorm : Decimal.unorm (N.to_uint n) = N.to_uint n).
  { rewrite <- (DecimalN.Unsigned.of_to n) at 2.
    now rewrite DecimalN.Unsigned.to_of. }
  unfold Decimal.unorm in Hnorm.
  destruct (Decimal.nzhead (N.to_uint n)) eqn:E;
    try (right; rewrite <- Hnorm; split; discriminate).
  - now left.
  - now destruct (nzhead_not_zero (N.to_uint n) u).
Qed.

Lemma parseInt_digits c rest :
  isDigit c = true -> c <> "0"%char ->
  parseInt (String c rest)
  = match digitsValue 10 None (String c rest) with
    | Some value => toNumber false value
    | None => NaN
    end.
Proof.
  intros Hdigit Hzero.
  destruct c as [[] [] [] [] [] [] [] []]; try discriminate Hdigit;
    try (now destruct Hzero); unfold parseInt; cbn [trimStart];
    match goal with
    | |- context [isSpace ?c] => change (isSpace c) with false
    end;
    cbv iota; cbn [fst snd]; reflexivity.
Qed.

Lemma parseInt_numeral n suffix :
  endsNumeral suffix = true ->
  parseInt (showN n +:+ suffix) = toNumber false (Z.of_N n).
Proof.
  intros Hsuffix. unfold showN.
  pose proof (DecimalN.Unsigned.of_to n) as Hvalue.
  unfold N.of_uint in Hvalue.
  destruct (to_uint_normal n) as [Hzero|[Hnil Hlead]].
  - rewrite Hzero in *. cbn in Hvalue. subst n.
    cbn [NilZero.string_of_uint NilEmpty.string_of_uint].
    rewrite append_cons, append_nil_l.
    destruct suffix as [|c r]; [reflexivity|].
    cbn [endsNumeral] in Hsuffix.
    apply andb_true_iff in Hsuffix as [Hsuffix HX].
    apply andb_true_iff in Hsuffix as [Hdigit Hx].
    apply negb_true_iff in Hdigit, Hx, HX.
    destruct c as [[] [] [] [] [] [] [] []];
      try discriminate Hdigit; try discriminate Hx; try discriminate HX;
      reflexivity.
  - destruct (N.to_uint n) as [|d|d|d|d|d|d|d|d|d|d] eqn:E;
      try contradiction; try (now destruct (Hlead d));
      cbn [NilZero.string_of_uint NilEmpty.string_of_uint];
      rewrite append_cons;
      (rewrite parseInt_digits; [|reflexivity|discriminate]);
      cbn [digitsValue];
      match goal with
      | |- context [digitValue 10 ?c] =>
          let v := eval vm_compute in (digitValue 10 c) in
          change (digitValue 10 c) with v
      end;
      cbv iota;
      rewrite (digitsValue_numeral d _ suffix Hsuffix);
      cbn [Pos.of_uint] in Hvalue; rewrite <- Hvalue;
      f_equal; apply numeralValue_pos.
Qed.

(** X22. Numbers read from cells. [parseInt] reads the decimal numeral
    of a natural number, also when a unit follows it (as in [95%] or
    [20+ years]): what follows must not begin with a digit nor with the
    [x] that would make [0x] a hexadecimal prefix. What it returns is a
    double: the number itself below 2^53, and from there on the nearest
    number that fits in 53 bits (the even one of two equally near, as in
    9007199254740993, read as 9007199254740992), [Infinity] once that
    reaches 2^1024. An empty cell counts as 0. So [mapToHubSpotFormat]
    turns a row of the sheet Law Firms (in any letter case of the sheet
    name) whose cell Success Rate holds such a text into a company whose
    success rate is that double. *)
Theorem mapToHubSpotFormat_numbers (env : Env) (sheetName : string) (row : Row)
    (s : State) (rate : N) (suffix : string) :
  toLowerCase sheetName = "law firms" ->
  prop row "Success Rate" = showN rate +:+ suffix ->
  endsNumeral suffix = true ->
  let m := Z.of_N rate in
  parseInt (showN rate +:+ suffix) = toNumber false m
  /\ (m < 2 ^ 53 -> toNumber false m = Finite false m)
  /\ (2 ^ 53 <= m ->
      exists q e,
        0 < e /\ 2 ^ 52 * 2 ^ e <= m < 2 ^ 53 * 2 ^ e
        /\ 2 ^ 52 <= q <= 2 ^ 53
        /\ 2 * Z.abs (q * 2 ^ e - m) <= 2 ^ e
        /\ (2 * Z.abs (q * 2 ^ e - m) = 2 ^ e -> Z.even q = true)
        /\ toNumber false m
           = if q * 2 ^ e <? 2 ^ 1024 then Finite false (q * 2 ^ e)
             else Infinity false)
  /\ parseIntOrZero "" = Finite false 0
  /\ exists name phone email city state years fee,
       mapToHubSpotFormat env sheetName row s
       = (Returns (Some (Company name phone email city state
                                 (toNumber false m) years fee)), s).
Proof.
  intros Hname Hcell Hsuffix m.
  split; [now apply parseInt_numeral|]. split.
  { intros Hm. unfold toNumber. rewrite roundToDouble_exact; [reflexivity|].
    unfold m. lia. }
  split.
  { intros Hm.
    destruct (roundToDouble_nearest m Hm)
      as (q & e & He & Hme & Hq & Hnear & Htie & Hround).
    exists q, e. repeat (split; [assumption|]).
    unfold toNumber. rewrite Hround. now destruct (q * 2 ^ e <? 2 ^ 1024). }
  split; [reflexivity|].
  unfold mapToHubSpotFormat. rewrite Hname. cbn [String.eqb].
  change (String.eqb "law firms" "law firms") with true. cbv iota.
  rewrite Hcell,
    (parseIntOrZero_positive _ _ (parseInt_numeral rate suffix Hsuffix)).
  now repeat eexists.
Qed.

Lemma mapToHubSpotFormat_numbers_witness :
  (exists name phone email city state years fee,
     mapToHubSpotFormat lawFirmsEnv "Law Firms"
       [ ("Name", "Saddle Rock Legal Group"); ("Success Rate", "95%") ]
       (newService (Some "key") 0)
     = (Returns (Some (Company name phone email city state (Finite false 95)
                               years fee)),
        newService (Some "key") 0))
  /\ parseInt "9007199254740993%" = Finite false 9007199254740992.
Proof.
  split.
  - destruct (mapToHubSpotFormat_numbers lawFirmsEnv "Law Firms"
                [ ("Name", "Saddle Rock Legal Group"); ("Success Rate", "95%") ]
                (newService (Some "key") 0) 95 "%")
      as (_ & _ & _ & _ & H); [reflexivity | reflexivity | reflexivity | exact H].
  - destruct (mapToHubSpotFormat_numbers lawFirmsEnv "Law Firms"
                [ ("Success Rate", "9007199254740993%") ]
                (newService (Some "key") 0) 9007199254740993 "%")
      as (H & _); [reflexivity | reflexivity | reflexivity |].
    cbv zeta in H. exact H.
Defined.

(** ** Cleaning HTML *)

Lemma space_not_bracket c : isSpace c = true -> isLt c = false /\ isGt c = false.
Proof. destruct c as [[] [] [] [] [] [] [] []]; cbn; intros H; try discriminate H; now split. Qed.

Lemma hasGt_stripTags inTag s : hasGt (stripTags inTag s) = true -> hasGt s = true.
Proof.
  revert inTag. induction s as [|c r IH]; intros inTag; [easy|].
  cbn [stripTags hasGt]. destruct inTag.
  - destruct (isGt c); [intros _; reflexivity|].
    intros H. now rewrite (IH true H), orb_true_r.
  - destruct (isLt c && hasGt r) eqn:E.
    + intros H. now rewrite (IH true H), orb_true_r.
    + cbn [hasGt]. destruct (isGt c); [reflexivity|]. cbn. apply IH.
Qed.

Lemma tagFree_stripTags inTag s : tagFree (stripTags inTag s) = true.
Proof.
  revert inTag. induction s as [|c r IH]; intros inTag; [reflexivity|].
  cbn [stripTags]. destruct inTag.
  - destruct (isGt c); apply IH.
  - destruct (isLt c && hasGt r) eqn:E; [apply IH|].
    cbn [tagFree]. rewrite IH, andb_true_r. apply negb_true_iff.
    destruct (isLt c); [|reflexivity]. cbn in *.
    destruct (hasGt (stripTags false r)) eqn:H; [|reflexivity].
    apply hasGt_stripTags in H. congruence.
Qed.

Lemma hasGt_collapseSpaces inRun s : hasGt (collapseSpaces inRun s) = hasGt s.
Proof.
  revert inRun. induction s as [|c r IH]; intros inRun; [reflexivity|].
  cbn [collapseSpaces hasGt]. destruct (isSpace c) eqn:Hc.
  - destruct (space_not_bracket c Hc) as [_ ->]. cbn.
    destruct inRun; [apply IH|]. cbn [hasGt]. apply IH.
  - cbn [hasGt]. now rewrite IH.
Qed.

Lemma tagFree_collapseSpaces inRun s :
  tagFree (collapseSpaces inRun s) = tagFree s.
Proof.
  revert inRun. induction s as [|c r IH]; intros inRun; [reflexivity|].
  cbn [collapseSpaces tagFree]. destruct (isSpace c) eqn:Hc.
  - destruct (space_not_bracket c Hc) as [-> _]. cbn.
    destruct inRun; [apply IH|]. cbn [tagFree]. apply IH.
  - cbn [tagFree]. now rewrite IH, hasGt_collapseSpaces.
Qed.

Lemma tagFree_trimStart s : tagFree s = true -> tagFree (trimStart s) = true.
Proof.
  induction s as [|c r IH]; [easy|]. cbn [trimStart].
  destruct (isSpace c); [|easy]. cbn [tagFree].
  intros H. apply andb_true_iff in H as [_ H]. now apply IH.
Qed.

Lemma hasGt_trimEnd s : hasGt (trimEnd s) = hasGt s.
Proof.
  induction s as [|c r IH]; [reflexivity|]. cbn [trimEnd hasGt].
  destruct (trimEnd r) as [|d r'] eqn:E.
  - cbn [hasGt] in IH. rewrite <- IH.
    destruct (isSpace c) eqn:Hc.
    + now destruct (space_not_bracket c Hc) as [_ ->].
    + cbn. now rewrite orb_false_r.
  - cbn [hasGt]. now rewrite <- IH.
Qed.

Lemma tagFree_trimEnd s : tagFree s = true -> tagFree (trimEnd s) = true.
Proof.
  induction s as [|c r IH]; [easy|]. cbn [trimEnd tagFree].
  intros H. apply andb_true_iff in H as [Hc Hr]. specialize (IH Hr).
  pose proof (hasGt_trimEnd r) as Hgt.
  destruct (trimEnd r) as [|d r'] eqn:E.
  - destruct (isSpace c); [reflexivity|]. cbn. now rewrite andb_false_r.
  - change (negb (isLt c && hasGt (String d r')) && tagFree (String d r') = true).
    now rewrite IH, Hgt, Hc.
Qed.

Lemma spacesApart_collapseSpaces inRun s :
  spacesApart inRun (collapseSpaces inRun s) = true.
Proof.
  revert inRun. induction s as [|c r IH]; intros inRun; [reflexivity|].
  cbn [collapseSpaces]. destruct (isSpace c) eqn:Hc.
  - destruct inRun; [apply IH|].
    cbn [spacesApart]. change (isSpace " ") with true. cbn. apply IH.
  - cbn [spacesApart]. rewrite Hc. apply IH.
Qed.

Lemma spacesApart_trimStart prevSpace s :
  spacesApart prevSpace s = true -> spacesApart true (trimStart s) = true.
Proof.
  revert prevSpace. induction s as [|c r IH]; intros prevSpace; [easy|].
  cbn [spacesApart trimStart]. destruct (isSpace c) eqn:Hc.
  - intros H. apply andb_true_iff in H as [_ H]. now apply (IH true).
  - intros H. cbn [spacesApart]. now rewrite Hc.
Qed.

Lemma singleSpaced_trimEnd afterChar s :
  spacesApart (negb afterChar) s = true ->
  afterChar = true \/ trimEnd s <> EmptyString ->
  singleSpaced afterChar (trimEnd s) = true.
Proof.
  revert afterChar. induction s as [|c r IH]; intros afterChar Hs Hor.
  - cbn. destruct Hor as [H|H]; [exact H|now destruct H].
  - cbn [spacesApart] in Hs. destruct (isSpace c) eqn:Hc.
    + apply andb_true_iff in Hs as [Hs Hr]. apply andb_true_iff in Hs as [Heq Ha].
      apply negb_true_iff, negb_false_iff in Ha. subst afterChar.
      cbn [trimEnd]. rewrite Hc.
      destruct (trimEnd r) as [|d r'] eqn:E; [reflexivity|].
      rewrite <- E. cbn [singleSpaced]. rewrite Hc, Heq. cbn [andb].
      rewrite E. apply IH; [exact Hr|]. now right.
    + rewrite (trimEnd_cons_kept c r Hc). cbn [singleSpaced]. rewrite Hc.
      apply IH; [exact Hs|now left].
Qed.

Lemma tagFree_identity s : tagFree s = true -> stripTags false s = s.
Proof.
  induction s as [|c r IH]; [easy|]. cbn [tagFree stripTags].
  intros H. apply andb_true_iff in H as [Hc Hr].
  apply negb_true_iff in Hc. rewrite Hc. now rewrite (IH Hr).
Qed.

Lemma singleSpaced_collapse afterChar inRun s :
  singleSpaced afterChar s = true -> afterChar && inRun = false ->
  collapseSpaces inRun s = s.
Proof.
  revert afterChar inRun. induction s as [|c r IH]; intros afterChar inRun; [easy|].
  cbn [singleSpaced collapseSpaces]. destruct (isSpace c) eqn:Hc.
  - intros H Hf. apply andb_true_iff in H as [H Hr]. apply andb_true_iff in H as [Heq Ha].
    subst afterChar. cbn in Hf. subst inRun.
    apply Ascii.eqb_eq in Heq. subst c.
    now rewrite (IH false true Hr eq_refl).
  - intros H _. now rewrite (IH true false H eq_refl).
Qed.

Lemma singleSpaced_trimEnd_identity afterChar s :
  singleSpaced afterChar s = true -> trimEnd s = s.
Proof.
  revert afterChar. induction s as [|c r IH]; intros afterChar; [easy|].
  cbn [singleSpaced]. destruct (isSpace c) eqn:Hc.
  - intros H. apply andb_true_iff in H as [_ Hr].
    cbn [trimEnd]. rewrite (IH false Hr).
    destruct r; [discriminate Hr|reflexivity].
  - intros H. now rewrite (trimEnd_cons_kept c r Hc), (IH true H).
Qed.

Lemma singleSpaced_trim_identity s : singleSpaced false s = true -> trim s = s.
Proof.
  intros H. unfold trim.
  destruct s as [|c r]; [reflexivity|].
  cbn [singleSpaced] in H. destruct (isSpace c) eqn:Hc.
  - now rewrite andb_false_r in H.
  - rewrite (trimStart_kept c r Hc).
    apply (singleSpaced_trimEnd_identity false). cbn [singleSpaced]. now rewrite Hc.
Qed.

Lemma cleanText_identity text :
  cleanText text = true -> cleanHtmlContent text = text.
Proof.
  unfold cleanText, cleanHtmlContent. intros H.
  apply andb_true_iff in H as [Ht Hs]. rewrite (tagFree_identity text Ht).
  destruct text as [|c r]; [reflexivity|].
  rewrite (singleSpaced_collapse false false _ Hs eq_refl).
  now apply singleSpaced_trim_identity.
Qed.

Lemma cleanHtmlContent_cleanText html :
  cleanText (cleanHtmlContent html) = true.
Proof.
  unfold cleanText, cleanHtmlContent. apply andb_true_iff. split.
  - unfold trim. apply tagFree_trimEnd, tagFree_trimStart.
    rewrite tagFree_collapseSpaces. apply tagFree_stripTags.
  - set (t := collapseSpaces false (stripTags false html)).
    destruct (trim t) as [|c r] eqn:E; [reflexivity|]. rewrite <- E.
    unfold trim in *. apply singleSpaced_trimEnd.
    + apply (spacesApart_trimStart false). apply spacesApart_collapseSpaces.
    + right. congruence.
Qed.

(** X23. [cleanHtmlContent] leaves a text with no tag, whose only white
    space is single spaces between other characters; such a text is left
    as it is, so cleaning twice changes nothing more. A text without [>]
    holds no tag, and only has its white space put in that form. *)
Theorem cleanHtmlContent_normal_form (html : string) :
  cleanText (cleanHtmlContent html) = true
  /\ cleanHtmlContent (cleanHtmlContent html) = cleanHtmlContent html
  /\ (forall text, cleanText text = true -> cleanHtmlContent text = text)
  /\ (hasGt html = false -> cleanHtmlContent html = trim (collapseSpaces false html)).
Proof.
  split; [apply cleanHtmlContent_cleanText|].
  split; [apply cleanText_identity, cleanHtmlContent_cleanText|].
  split; [apply cleanText_identity|].
  intros H. unfold cleanHtmlContent. f_equal. f_equal.
  induction html as [|c r IH]; [reflexivity|].
  cbn [hasGt] in H. apply orb_false_iff in H as [_ Hr].
  cbn [stripTags]. rewrite Hr, andb_false_r. now rewrite (IH Hr).
Qed.

(** ** Disease names from page titles *)

Lemma string_length_append (a b : string) :
  String.length (a +:+ b) = (String.length a + String.length b)%nat.
Proof.
  induction a as [|c a IH]; [reflexivity|].
  rewrite append_cons. cbn [String.length]. now rewrite IH.
Qed.

Lemma lowerChar_space c : isSpace (lowerChar c) = false -> isSpace c = false.
Proof. destruct c as [[] [] [] [] [] [] [] []]; vm_compute; congruence. Qed.

Lemma noSpace_toLowerCase s : noSpace (toLowerCase s) = true -> noSpace s = true.
Proof.
  induction s as [|c r IH]; [easy|]. cbn [toLowerCase noSpace].
  intros H. apply andb_true_iff in H as [Hc Hr].
  apply negb_true_iff, lowerChar_space in Hc. now rewrite Hc, (IH Hr).
Qed.

Lemma afterIgnoringCase_split p s rest :
  afterIgnoringCase p s = Some rest ->
  exists w, s = w +:+ rest /\ toLowerCase w = p.
Proof.
  revert s. induction p as [|a p IH]; intros s.
  - cbn. intros [= ->]. now exists EmptyString.
  - destruct s as [|c s]; [discriminate|]. cbn [afterIgnoringCase].
    destruct (Ascii.eqb (lowerChar c) a) eqn:Hc; [|discriminate].
    apply Ascii.eqb_eq in Hc. intros H.
    destruct (IH s H) as (w & -> & <-).
    exists (String c w). now rewrite append_cons, <- Hc.
Qed.

Lemma afterIgnoringCase_app w rest :
  afterIgnoringCase (toLowerCase w) (w +:+ rest) = Some rest.
Proof.
  induction w as [|c w IH]; [now destruct rest|].
  rewrite append_cons. cbn [toLowerCase afterIgnoringCase].
  now rewrite Ascii.eqb_refl.
Qed.

Lemma trimEnd_allSpaces s : allSpaces s = true -> trimEnd s = EmptyString.
Proof.
  induction s as [|c r IH]; [easy|]. cbn [allSpaces trimEnd].
  intros H. apply andb_true_iff in H as [Hc Hr]. now rewrite (IH Hr), Hc.
Qed.

Lemma trimEnd_app_kept a b :
  trimEnd b <> EmptyString -> trimEnd (a +:+ b) = a +:+ trimEnd b.
Proof.
  intros Hb. induction a as [|c a IH]; [now rewrite !append_nil_l|].
  rewrite !append_cons. cbn [trimEnd]. rewrite IH.
  destruct (a +:+ trimEnd b) eqn:E; [|reflexivity].
  destruct a; [|now rewrite append_cons in E].
  rewrite append_nil_l in E. contradiction.
Qed.

Lemma trimEnd_app_spaces a b :
  allSpaces b = true -> trimEnd (a +:+ b) = trimEnd a.
Proof.
  intros Hb. induction a as [|c a IH].
  - rewrite append_nil_l. now apply trimEnd_allSpaces.
  - rewrite append_cons. cbn [trimEnd]. now rewrite IH.
Qed.

Lemma trimEnd_noSpace s : noSpace s = true -> trimEnd s = s.
Proof.
  induction s as [|c r IH]; [easy|]. cbn [noSpace].
  intros H. apply andb_true_iff in H as [Hc Hr]. apply negb_true_iff in Hc.
  now rewrite (trimEnd_cons_kept c r Hc), (IH Hr).
Qed.

Lemma trimStart_allSpaces a b : allSpaces a = true -> trimStart (a +:+ b) = trimStart b.
Proof.
  induction a as [|c a IH]; [now rewrite append_nil_l|].
  cbn [allSpaces]. intros H. apply andb_true_iff in H as [Hc Ha].
  rewrite append_cons. cbn [trimStart]. rewrite Hc. now apply IH.
Qed.

Lemma trimStart_app a b :
  allSpaces a = false -> trimStart (a +:+ b) = trimStart a +:+ b.
Proof.
  induction a as [|c a IH]; [discriminate|].
  cbn [allSpaces]. rewrite append_cons. cbn [trimStart].
  destruct (isSpace c); [apply IH|]. intros _. now rewrite append_cons.
Qed.

Lemma trimStart_not_spaces a :
  allSpaces a = false -> exists c r, trimStart a = String c r.
Proof.
  induction a as [|c a IH]; [discriminate|].
  cbn [allSpaces trimStart]. destruct (isSpace c); [apply IH|].
  intros _. now exists c, a.
Qed.

Lemma titleWords_noSpace word : In word titleWords -> noSpace word = true.
Proof. intros [<-|[<-|[<-|[]]]]; reflexivity. Qed.

Lemma titleWords_not_empty word : In word titleWords -> word <> EmptyString.
Proof. intros [<-|[<-|[<-|[]]]]; discriminate. Qed.

(** No title word ends in another one. *)
Lemma titleWords_suffix q word word' :
  In word titleWords -> In word' titleWords -> q +:+ word = word' ->
  q = EmptyString.
Proof.
  intros Hw Hw' H. pose proof (f_equal String.length H) as Hlen.
  rewrite string_length_append in Hlen.
  destruct Hw as [<-|[<-|[<-|[]]]]; destruct Hw' as [<-|[<-|[<-|[]]]];
    cbn in Hlen;
    try (destruct q; [reflexivity|cbn in Hlen; lia]);
    try lia;
    do 7 (destruct q as [|? q]; [cbv [String.append] in H; discriminate H|]);
    cbn in Hlen; lia.
Qed.

(** A title word with white space around it matches the pattern. *)
Lemma trailingWord_word before word after :
  In (toLowerCase word) titleWords -> allSpaces before = true ->
  allSpaces after = true ->
  trailingWord (before +:+ word +:+ after) = true.
Proof.
  intros Hw Hb Ha. unfold trailingWord. apply existsb_exists.
  exists (toLowerCase word). split; [exact Hw|].
  rewrite (trimStart_allSpaces _ _ Hb).
  assert (Hn : noSpace word = true)
    by now apply noSpace_toLowerCase, titleWords_noSpace.
  assert (He : word <> EmptyString)
    by (intros ->; now apply (titleWords_not_empty _ Hw)).
  destruct word as [|c w]; [contradiction|].
  cbn [noSpace] in Hn. apply andb_true_iff in Hn as [Hc _].
  apply negb_true_iff in Hc.
  rewrite append_cons, (trimStart_kept c _ Hc), <- append_cons.
  now rewrite afterIgnoringCase_app.
Qed.

(** Text before a title word is part of a match only when it is white
    space. *)
Lemma trailingWord_before x before word after :
  In (toLowerCase word) titleWords -> allSpaces before = true ->
  allSpaces after = true ->
  trailingWord (x +:+ before +:+ word +:+ after) = allSpaces x.
Proof.
  intros Hw Hb Ha. destruct (allSpaces x) eqn:Hx.
  - unfold trailingWord. rewrite (trimStart_allSpaces _ _ Hx).
    now apply trailingWord_word.
  - apply not_true_is_false. intros H. unfold trailingWord in H.
    apply existsb_exists in H as (word' & Hw' & H).
    rewrite (trimStart_app _ _ Hx) in H.
    destruct (trimStart_not_spaces x Hx) as (c & x' & Ex). rewrite Ex in H.
    destruct (afterIgnoringCase word' _) as [rest|] eqn:E; [|discriminate].
    apply afterIgnoringCase_split in E as (w & E & Hlow).
    assert (Hn : noSpace word = true)
      by now apply noSpace_toLowerCase, titleWords_noSpace.
    assert (Hn' : noSpace w = true).
    { apply noSpace_toLowerCase. rewrite Hlow. now apply titleWords_noSpace. }
    assert (He : trimEnd word <> EmptyString).
    { rewrite (trimEnd_noSpace _ Hn). intros ->.
      now apply (titleWords_not_empty _ Hw). }
    apply (f_equal trimEnd) in E.
    rewrite (trimEnd_app_spaces w rest H), (trimEnd_noSpace w Hn') in E.
    rewrite <- !append_assoc in E.
    rewrite (trimEnd_app_spaces _ after Ha) in E.
    rewrite (trimEnd_app_kept _ word He), (trimEnd_noSpace _ Hn) in E.
    rewrite <- E, toLowerCase_app in Hlow.
    apply (titleWords_suffix _ _ _ Hw Hw') in Hlow.
    rewrite append_cons in Hlow. discriminate Hlow.
Qed.

Lemma trimEnd_cons c r :
  trimEnd (String c r) = if allSpaces (String c r) then EmptyString else String c (trimEnd r).
Proof.
  cbn [allSpaces]. destruct (isSpace c) eqn:Hc.
  - cbn [trimEnd andb]. rewrite Hc. destruct (allSpaces r) eqn:Hr.
    + now rewrite (trimEnd_allSpaces r Hr).
    + destruct (trimEnd r) eqn:E; [|reflexivity].
      exfalso. clear -Hr E. induction r as [|d r IH]; [discriminate|].
      cbn [trimEnd] in E. cbn [allSpaces] in Hr.
      destruct (trimEnd r); [|discriminate].
      destruct (isSpace d); [|discriminate]. now apply IH.
  - now apply trimEnd_cons_kept.
Qed.

Lemma cutTrailingWord_match s :
  trailingWord s = true -> cutTrailingWord s = EmptyString.
Proof. destruct s; cbn [cutTrailingWord]; now intros ->. Qed.

Lemma endsInTitleWord_match s : trailingWord s = true -> endsInTitleWord s = true.
Proof. unfold endsInTitleWord. destruct s; cbn [suffixes existsb]; now intros ->. Qed.

Lemma cutTrailingWord_word name before word after :
  In (toLowerCase word) titleWords -> allSpaces before = true ->
  allSpaces after = true ->
  cutTrailingWord (name +:+ before +:+ word +:+ after) = trimEnd name.
Proof.
  intros Hw Hb Ha. induction name as [|c r IH].
  - rewrite append_nil_l. now apply cutTrailingWord_match, trailingWord_word.
  - rewrite trimEnd_cons, <- (trailingWord_before _ before word after Hw Hb Ha).
    rewrite append_cons. cbn [cutTrailingWord]. rewrite <- append_cons.
    destruct (trailingWord _); [reflexivity|]. now rewrite IH.
Qed.

Lemma trimStart_trimEnd s : trimStart (trimEnd s) = trimEnd (trimStart s).
Proof.
  induction s as [|c r IH]; [reflexivity|].
  rewrite trimEnd_cons. cbn [allSpaces trimStart].
  destruct (isSpace c) eqn:Hc; cbn [andb].
  - destruct (allSpaces r) eqn:Hr.
    + now rewrite <- IH, (trimEnd_allSpaces r Hr).
    + cbn [trimStart]. now rewrite Hc.
  - rewrite (trimEnd_cons_kept c r Hc). cbn [trimStart]. now rewrite Hc.
Qed.

Lemma trim_trimEnd s : trim (trimEnd s) = trim s.
Proof. unfold trim. now rewrite trimStart_trimEnd, trimEnd_idempotent. Qed.

Lemma cutTrailingWord_none title :
  endsInTitleWord title = false -> cutTrailingWord title = title.
Proof.
  unfold endsInTitleWord. induction title as [|c r IH].
  - cbn [suffixes existsb]. rewrite orb_false_r. cbn [cutTrailingWord].
    now intros ->.
  - cbn [suffixes existsb]. intros H. apply orb_false_iff in H as [Hc Hr].
    cbn [cutTrailingWord]. now rewrite Hc, (IH Hr).
Qed.

Lemma endsInTitleWord_app a b :
  endsInTitleWord b = true -> endsInTitleWord (a +:+ b) = true.
Proof.
  intros Hb. induction a as [|c a IH]; [now rewrite append_nil_l|].
  rewrite append_cons. unfold endsInTitleWord in *. cbn [suffixes existsb].
  now rewrite IH, orb_true_r.
Qed.

(** X24. A title that ends in one of the words Information, Guide and
    Overview, in any letter case and with any white space before and after
    the word, gives the text before the word, trimmed. Only that one word
    is taken off: the text before it may itself end in such a word. *)
Theorem extractDiseaseNameFromTitle_trailing_word
    (name before word after : string) :
  In (toLowerCase word) titleWords ->
  allSpaces before = true -> allSpaces after = true ->
  extractDiseaseNameFromTitle (name +:+ before +:+ word +:+ after) = trim name
  /\ endsInTitleWord (name +:+ before +:+ word +:+ after) = true.
Proof.
  intros Hw Hb Ha. split.
  - unfold extractDiseaseNameFromTitle.
    rewrite (cutTrailingWord_word name before word after Hw Hb Ha).
    apply trim_trimEnd.
  - now apply endsInTitleWord_app, endsInTitleWord_match, trailingWord_word.
Qed.

Lemma extractDiseaseNameFromTitle_trailing_word_witness :
  extractDiseaseNameFromTitle
    ("Asbestos Exposure Guide" +:+ "  " +:+ "OVERVIEW" +:+ " ")
  = "Asbestos Exposure Guide"
  /\ endsInTitleWord ("Asbestos Exposure Guide" +:+ "  " +:+ "OVERVIEW" +:+ " ")
     = true.
Proof.
  apply (extractDiseaseNameFromTitle_trailing_word
           "Asbestos Exposure Guide" "  " "OVERVIEW" " ");
    [vm_compute; tauto|reflexivity|reflexivity].
Defined.

(** X25. A title in which the pattern matches nowhere is only trimmed,
    and the name that comes out never has white space at either end. *)
Theorem extractDiseaseNameFromTitle_plain (title : string) :
  endsInTitleWord title = false ->
  extractDiseaseNameFromTitle title = trim title
  /\ trim (extractDiseaseNameFromTitle title) = extractDiseaseNameFromTitle title.
Proof.
  intros H. unfold extractDiseaseNameFromTitle.
  rewrite (cutTrailingWord_none title H). split; [reflexivity|apply trim_idempotent].
Qed.

Lemma extractDiseaseNameFromTitle_plain_witness :
  extractDiseaseNameFromTitle " Silicosis Information Center"
  = trim " Silicosis Information Center"
  /\ trim (extractDiseaseNameFromTitle " Silicosis Information Center")
     = extractDiseaseNameFromTitle " Silicosis Information Center".
Proof.
  apply (extractDiseaseNameFromTitle_plain " Silicosis Information Center").
  reflexivity.
Defined.

(** ** Categories from page tags *)

Lemma lowerChar_idempotent c : lowerChar (lowerChar c) = lowerChar c.
Proof. destruct c as [[] [] [] [] [] [] [] []]; reflexivity. Qed.

Lemma toLowerCase_idempotent s : toLowerCase (toLowerCase s) = toLowerCase s.
Proof.
  induction s as [|c r IH]; [reflexivity|].
  cbn [toLowerCase]. now rewrite lowerChar_idempotent, IH.
Qed.

(** A lowercased tag reaches only the inherited names that are written in
    lower case. *)
Lemma get_undecided tag :
  undecided tag = true ->
  JsObject.get categoryMap (toLowerCase tag) = JsObject.Undefined.
Proof.
  unfold undecided, decidingLabels. intros H. apply negb_true_iff in H.
  pose proof (toLowerCase_idempotent tag) as Hlow.
  set (k := toLowerCase tag) in *.
  cbn [categoryMap List.map fst app existsb] in H.
  repeat (apply orb_false_iff in H as [? H]).
  unfold JsObject.get, categoryMap. cbn [JsObject.own].
  repeat match goal with E : String.eqb k _ = false |- _ => rewrite E; clear E end.
  unfold JsObject.inherited, JsObject.prototypeNames. cbn [existsb].
  repeat match goal with
         | |- context [String.eqb k ?name] =>
             let E := fresh "E" in
             destruct (String.eqb k name) eqn:E;
             [apply String.eqb_eq in E; rewrite E in Hlow; discriminate Hlow|]
         | E : String.eqb k _ = false |- _ => rewrite E; clear E
         end.
  reflexivity.
Qed.

Lemma categoryOfTags_undecided before tags :
  Forall (fun tag => undecided tag = true) before ->
  categoryOfTags (before ++ tags) = categoryOfTags tags.
Proof.
  induction 1 as [|tag before Htag _ IH]; [reflexivity|].
  cbn [app categoryOfTags]. now rewrite (get_undecided tag Htag).
Qed.

(** X26. Tags are tried in order with letter case ignored, and the first
    one that is a key of the table gives its category; tags before it that
    are neither a key nor [constructor] or [__proto__] change nothing, and
    with only such tags the category is Other. A tag [constructor] or
    [__proto__] met first ends the loop with the inherited member instead
    of a category. *)
Theorem extractCategoryFromTags_first_match (before : list string) :
  Forall (fun tag => undecided tag = true) before ->
  extractCategoryFromTags (Some before) = JsObject.Own "Other"
  /\ (forall tag after category,
         In (toLowerCase tag, category) categoryMap ->
         extractCategoryFromTags (Some (before ++ tag :: after))
         = JsObject.Own category)
  /\ (forall tag after,
         In (toLowerCase tag) [ "constructor"; "__proto__" ] ->
         extractCategoryFromTags (Some (before ++ tag :: after))
         = JsObject.Inherited).
Proof.
  intros Hb. unfold extractCategoryFromTags. split; [|split].
  - rewrite <- (app_nil_r before). now rewrite (categoryOfTags_undecided _ _ Hb).
  - intros tag after category Hin.
    rewrite (categoryOfTags_undecided _ _ Hb). cbn [categoryOfTags].
    destruct Hin as [[= <- <-]|[[= <- <-]|[[= <- <-]|[]]]]; reflexivity.
  - intros tag after Hin.
    rewrite (categoryOfTags_undecided _ _ Hb). cbn [categoryOfTags].
    destruct Hin as [<-|[<-|[]]]; reflexivity.
Qed.

Lemma extractCategoryFromTags_first_match_witness :
  extractCategoryFromTags (Some [ "Asbestos"; "toString"; "valueOf" ])
  = JsObject.Own "Other"
  /\ extractCategoryFromTags
       (Some ([ "Asbestos"; "toString"; "valueOf" ]
                ++ "Lung-Disease" :: [ "cancer"; "constructor" ]))
     = JsObject.Own "Lung Disease"
  /\ extractCategoryFromTags
       (Some ([ "Asbestos"; "toString"; "valueOf" ]
                ++ "Constructor" :: [ "cancer" ]))
     = JsObject.Inherited.
Proof.
  destruct (extractCategoryFromTags_first_match
              [ "Asbestos"; "toString"; "valueOf" ]) as (H1 & H2 & H3).
  - repeat constructor.
  - split; [exact H1|]. split.
    + apply H2. vm_compute. tauto.
    + apply H3. vm_compute. tauto.
Defined.
